(** * realtime512: cross-recording unit matching and spike-train assembly

    A shallow embedding of
      - [realtime512/helpers/unit_matching.py]
        ([nearest_neighbors], [compute_unit_matches]) and
      - [realtime512/serve/focus_units_handlers.py]
        (the timeline part of [get_spike_train_for_focus_unit_handler]),
    followed by the properties of the specification that concern them.

    Conventions.
      - Python exceptions are values of [exn]; a computation that may raise
        has type [result A].
      - Integer labels are [Z]; a store into an [np.int32] array wraps
        ([wrap32]).
      - Times and scores are Python floats in the source.  They are modelled
        by exact rationals [Q]: the theorems below speak about the
        arithmetic expressions the code evaluates, not about binary
        rounding (in particular not about the [np.float32] storage of the
        match scores). *)

From Stdlib Require Import ZArith QArith Lia Ascii DecimalString DecimalN.
From stdpp Require Import base list sorting gmap strings.

Close Scope Q_scope.
Local Open Scope Z_scope.

(** ** Exceptions *)

Module Py.

Inductive exn : Type :=
| ValueError
| IndexError
| KeyError
| ZeroDivisionError.

Inductive result (A : Type) : Type :=
| Ok (a : A)
| Raise (e : exn).

Arguments Ok {A} a.
Arguments Raise {A} e.

Definition bind {A B : Type} (m : result A) (k : A -> result B) : result B :=
  match m with
  | Ok a => k a
  | Raise e => Raise e
  end.

Definition raises {A : Type} (m : result A) : Prop :=
  exists e, m = Raise e.

Definition returns {A : Type} (m : result A) : Prop :=
  exists a, m = Ok a.

Definition is_ok {A : Type} (m : result A) : bool :=
  match m with
  | Ok _ => true
  | Raise _ => false
  end.

End Py.
Export Py.

Notation "'let*' x ':=' m 'in' k" := (bind m (fun x => k))
  (at level 10, x pattern, m at level 100, k at level 200).

(** [[f(x) for x in l]], stopping at the first exception. *)
Fixpoint mapM {A B : Type} (f : A -> result B) (l : list A) : result (list B) :=
  match l with
  | [] => Ok []
  | x :: l' => let* y := f x in let* ys := mapM f l' in Ok (y :: ys)
  end.

(** [for x in l: s = f(s, x)], stopping at the first exception. *)
Fixpoint foldM {S A : Type} (f : S -> A -> result S) (l : list A) (s : S) : result S :=
  match l with
  | [] => Ok s
  | x :: l' => let* s' := f s x in foldM f l' s'
  end.

(** [range(start, stop)] *)
Definition py_range (start stop : Z) : list Z := seqZ start (stop - start).

(** [l[i]] for a Python or NumPy integer index: negative indices count from
    the end, anything out of range raises [IndexError]. *)
Definition py_getitem {A : Type} (l : list A) (i : Z) : result A :=
  let j := if i <? 0 then i + Z.of_nat (length l) else i in
  if j <? 0 then Raise IndexError
  else match l !! Z.to_nat j with
       | Some a => Ok a
       | None => Raise IndexError
       end.

(** [l[i] = v], same index rules. *)
Definition py_setitem {A : Type} (l : list A) (i : Z) (v : A) : result (list A) :=
  let j := if i <? 0 then i + Z.of_nat (length l) else i in
  if (j <? 0) || (Z.of_nat (length l) <=? j) then Raise IndexError
  else Ok (<[Z.to_nat j := v]> l).

(** [l[i]] for an index that is a position ([range(len(..))], [np.where],
    the indices returned by the neighbor search). *)
Definition at_index {A : Type} (l : list A) (i : nat) : result A :=
  match l !! i with
  | Some a => Ok a
  | None => Raise IndexError
  end.

(** ** The NumPy operations used by the matcher *)

Module Np.

(** Value kept by an [int32] slot when an integer is stored into it. *)
Definition wrap32 (z : Z) : Z := (z + 2 ^ 31) mod 2 ^ 32 - 2 ^ 31.

Definition is_int32 (z : Z) : bool := (- 2 ^ 31 <=? z) && (z <? 2 ^ 31).

(** [np.max(a)]: raises on a zero-size array. *)
Definition max (a : list Z) : result Z :=
  match a with
  | [] => Raise ValueError
  | x :: a' => Ok (fold_left Z.max a' x)
  end.

(** [np.zeros(n)]: raises on a negative dimension. *)
Definition zeros {A : Type} (zero : A) (n : Z) : result (list A) :=
  if n <? 0 then Raise ValueError else Ok (replicate (Z.to_nat n) zero).

(** [np.where(a == k)[0]], positions counted from [i]. *)
Fixpoint where_eq_from (i : nat) (a : list Z) (k : Z) : list nat :=
  match a with
  | [] => []
  | x :: a' =>
      if x =? k then i :: where_eq_from (S i) a' k
      else where_eq_from (S i) a' k
  end.

Definition where_eq (a : list Z) (k : Z) : list nat := where_eq_from 0 a k.

(** [a[idx]] for an index array [idx]. *)
Definition take_at (a : list Z) (idx : list nat) : result (list Z) :=
  mapM (at_index a) idx.

(** One more occurrence of [x] in a table of (value, count) rows kept in
    ascending order of the values. *)
Fixpoint tally (x : Z) (t : list (Z * nat)) : list (Z * nat) :=
  match t with
  | [] => [(x, 1%nat)]
  | (y, c) :: t' =>
      if x <? y then (x, 1%nat) :: t
      else if x =? y then (y, S c) :: t'
      else (y, c) :: tally x t'
  end.

(** [np.unique(a, return_counts=True)]: the distinct values in ascending
    order, and how often each occurs. *)
Definition unique_counts (a : list Z) : list Z * list nat :=
  let t := fold_right tally [] a in (map fst t, map snd t).

(** [np.argmax]: position of the first maximum; raises on an empty array. *)
Fixpoint argmax_from (best_i best : nat) (i : nat) (c : list nat) : nat :=
  match c with
  | [] => best_i
  | x :: c' =>
      if (best <? x)%nat then argmax_from i x (S i) c'
      else argmax_from best_i best (S i) c'
  end.

Definition argmax (c : list nat) : result nat :=
  match c with
  | [] => Raise ValueError
  | x :: c' => Ok (argmax_from 0 x 1 c')
  end.

End Np.

(** ** Python list helpers *)

(** [l.count(x)] *)
Definition list_count (l : list Z) (x : Z) : nat := count_occ Z.eq_dec l x.

(** [max(l, key=key)]: the first element whose key is maximal; raises on
    an empty list. *)
Fixpoint max_by_from (key : Z -> nat) (best : Z) (l : list Z) : Z :=
  match l with
  | [] => best
  | x :: l' =>
      if (key best <? key x)%nat then max_by_from key x l'
      else max_by_from key best l'
  end.

Definition py_max_by (key : Z -> nat) (l : list Z) : result Z :=
  match l with
  | [] => Raise ValueError
  | x :: l' => Ok (max_by_from key x l')
  end.

(** ** unit_matching.py *)

(** A spike frame: one feature vector, a row of [frames_x] or [frames_y]. *)
Definition frame : Type := list Z.

Record mutual_match : Type := MutualMatch {
  unit_x : Z;
  unit_y : Z;
  score_x_to_y : Q;
  score_y_to_x : Q;
  overall_score : Q
}.

Record unit_matches : Type := UnitMatches {
  mutual_matches : list mutual_match;
  event_matches_x_to_y : list Z;
  event_matches_y_to_x : list Z
}.

(** The four lines that occur four times in [compute_unit_matches]:
<<
    unique, counts = np.unique(neighbor_labels, return_counts=True)
    best_label = unique[np.argmax(counts)]
>>
    and, before them, the neighbor labels of event [i]:
<<
    neighbors = nearest[i]
    neighbor_labels = labels[neighbors]
>> *)
Definition majority_label (neighbor_labels : list Z) : result Z :=
  let '(unique, counts) := Np.unique_counts neighbor_labels in
  let* i := Np.argmax counts in
  at_index unique i.

Definition neighbor_labels_of (nearest : list (list nat)) (labels : list Z)
    (i : nat) : result (list Z) :=
  let* neighbors := at_index nearest i in
  Np.take_at labels neighbors.

Definition event_best_label (nearest : list (list nat)) (labels : list Z)
    (i : nat) : result Z :=
  let* neighbor_labels := neighbor_labels_of nearest labels i in
  majority_label neighbor_labels.

(** Body of [for k in range(1, max_label + 1)] of the two cluster loops
    (lines 94-112 and 119-137): [labels_src] are the labels of the
    recording whose units are matched, [labels_ref] those of the other
    recording, [nearest] the neighbors of the source events in the other
    recording.  The state is the pair of arrays
    ([best_matches], [match_scores]). *)
Definition cluster_matches_of (nearest : list (list nat)) (labels_ref : list Z)
    (inds : list nat) : result (list Z) :=
  mapM (event_best_label nearest labels_ref) inds.

Definition cluster_step (nearest : list (list nat)) (labels_src labels_ref : list Z)
    (st : list Z * list Q) (k : Z) : result (list Z * list Q) :=
  let inds := Np.where_eq labels_src k in
  if (length inds =? 0)%nat then Ok st
  else
    let* cluster_matches := cluster_matches_of nearest labels_ref inds in
    let* best_label := py_max_by (list_count cluster_matches) cluster_matches in
    let best_label_count := list_count cluster_matches best_label in
    let match_score :=
      (inject_Z (Z.of_nat best_label_count) / inject_Z (Z.of_nat (length inds)))%Q in
    let* best_matches := py_setitem (fst st) k (Np.wrap32 best_label) in
    let* match_scores := py_setitem (snd st) k match_score in
    Ok (best_matches, match_scores).

Definition best_matches_loop (nearest : list (list nat)) (labels_src labels_ref : list Z)
    (max_label : Z) : result (list Z * list Q) :=
  let* best_matches := Np.zeros 0 (max_label + 1) in
  let* match_scores := Np.zeros 0%Q (max_label + 1) in
  foldM (cluster_step nearest labels_src labels_ref)
        (py_range 1 (max_label + 1)) (best_matches, match_scores).

(** Body of the mutual-match loop (lines 141-155). *)
Definition mutual_step (best_matches_x_to_y : list Z) (match_scores_x_to_y : list Q)
    (best_matches_y_to_x : list Z) (match_scores_y_to_x : list Q)
    (acc : list mutual_match) (kx : Z) : result (list mutual_match) :=
  let* ky := py_getitem best_matches_x_to_y kx in
  if 0 <? ky then
    let* back := py_getitem best_matches_y_to_x ky in
    if back =? kx then
      let* sxy := py_getitem match_scores_x_to_y kx in
      let* syx := py_getitem match_scores_y_to_x ky in
      Ok (acc ++ [ {| unit_x := kx; unit_y := ky;
                      score_x_to_y := sxy; score_y_to_x := syx;
                      overall_score := ((sxy + syx) / 2)%Q |} ])
    else Ok acc
  else Ok acc.

Definition find_mutual_matches (best_matches_x_to_y : list Z) (match_scores_x_to_y : list Q)
    (best_matches_y_to_x : list Z) (match_scores_y_to_x : list Q)
    (max_label_x : Z) : result (list mutual_match) :=
  foldM (mutual_step best_matches_x_to_y match_scores_x_to_y
                     best_matches_y_to_x match_scores_y_to_x)
        (py_range 1 (max_label_x + 1)) [].

(** The event-level loops (lines 158-172): one [int32] slot per event of
    [labels_src]. *)
Definition event_matches (nearest : list (list nat)) (labels_src labels_ref : list Z)
    : result (list Z) :=
  mapM (fun i => let* best_label := event_best_label nearest labels_ref i in
                 Ok (Np.wrap32 best_label))
       (seq 0 (length labels_src)).

Section Matcher.

(** [sklearn.neighbors.NearestNeighbors(n_neighbors=k).fit(data1)
    .kneighbors(data2)[1]]: the library call, whatever it does. *)
Variable kneighbors : list frame -> list frame -> Z -> result (list (list nat)).

Definition nearest_neighbors (data1 data2 : list frame) (n_neighbors : Z)
    : result (list (list nat)) :=
  let* indices := kneighbors data1 data2 n_neighbors in
  Ok indices.

Definition compute_unit_matches (frames_x : list frame) (labels_x : list Z)
    (frames_y : list frame) (labels_y : list Z) (n_neighbors : Z)
    : result unit_matches :=
  let* nearest_y_to_x := nearest_neighbors frames_x frames_y n_neighbors in
  let* nearest_x_to_y := nearest_neighbors frames_y frames_x n_neighbors in
  let* max_label_y := Np.max labels_y in
  let* (best_matches_y_to_x, match_scores_y_to_x) :=
    best_matches_loop nearest_y_to_x labels_y labels_x max_label_y in
  let* max_label_x := Np.max labels_x in
  let* (best_matches_x_to_y, match_scores_x_to_y) :=
    best_matches_loop nearest_x_to_y labels_x labels_y max_label_x in
  let* mutual :=
    find_mutual_matches best_matches_x_to_y match_scores_x_to_y
                        best_matches_y_to_x match_scores_y_to_x max_label_x in
  let* ev_x_to_y := event_matches nearest_x_to_y labels_x labels_y in
  let* ev_y_to_x := event_matches nearest_y_to_x labels_y labels_x in
  Ok {| mutual_matches := mutual;
        event_matches_x_to_y := ev_x_to_y;
        event_matches_y_to_x := ev_y_to_x |}.

End Matcher.

(** *** The library's neighbor search

    scikit-learn is not part of the repository.  [sk_kneighbors] models what
    its documentation promises: the input checks of [fit] and [kneighbors]
    (at least one sample and one feature, equal feature counts,
    [1 <= n_neighbors <= n_samples_fit], a [ValueError] otherwise) and, for
    every query, the [n_neighbors] closest reference rows under Euclidean
    distance, nearest first.  Equal distances are ordered by position. *)
Module Sklearn.

Fixpoint sq_dist (p q : frame) : Z :=
  match p, q with
  | a :: p', b :: q' => (a - b) * (a - b) + sq_dist p' q'
  | _, _ => 0
  end.

Fixpoint insert_by_dist (d : Z) (j : nat) (l : list (Z * nat)) : list (Z * nat) :=
  match l with
  | [] => [(d, j)]
  | (d', j') :: l' =>
      if d <=? d' then (d, j) :: l else (d', j') :: insert_by_dist d j l'
  end.

Fixpoint by_distance_from (j : nat) (data1 : list frame) (q : frame) : list (Z * nat) :=
  match data1 with
  | [] => []
  | p :: data1' => insert_by_dist (sq_dist p q) j (by_distance_from (S j) data1' q)
  end.

Definition nearest_order (data1 : list frame) (q : frame) : list nat :=
  map snd (by_distance_from 0 data1 q).

Definition n_features_ok (d : nat) (data : list frame) : bool :=
  forallb (fun p => (length p =? d)%nat) data.

Definition sk_kneighbors (data1 data2 : list frame) (n_neighbors : Z)
    : result (list (list nat)) :=
  match data1, data2 with
  | [], _ => Raise ValueError
  | _, [] => Raise ValueError
  | p :: _, _ :: _ =>
      let d := length p in
      if (d =? 0)%nat then Raise ValueError
      else if negb (n_features_ok d data1 && n_features_ok d data2) then Raise ValueError
      else if n_neighbors <=? 0 then Raise ValueError
      else if Z.of_nat (length data1) <? n_neighbors then Raise ValueError
      else Ok (map (fun q => take (Z.to_nat n_neighbors) (nearest_order data1 q)) data2)
  end.

End Sklearn.

(** *** The vocabulary of the specification *)

(** "the most frequent label ..., ties broken by the smallest label value" *)
Definition most_frequent_smallest (labels : list Z) (b : Z) : Prop :=
  In b labels /\
  forall l, (list_count labels l <= list_count labels b)%nat /\
            (list_count labels l = list_count labels b -> b <= l).

(** "the most frequent of these per-event labels (ties broken by
    first-encountered during a scan ...)": [w] occurs at some position [j],
    no label occurs more often, and every label met before [j] occurs less
    often. *)
Definition first_most_frequent (labels : list Z) (w : Z) : Prop :=
  exists j, labels !! j = Some w /\
            (forall z, (list_count labels z <= list_count labels w)%nat) /\
            (forall j' z, (j' < j)%nat -> labels !! j' = Some z ->
                          (list_count labels z < list_count labels w)%nat).

(** The candidate recorded for unit [k] in a [best_matches] array. *)
Definition best_match (best_matches : list Z) (k : Z) : option Z :=
  if k <? 0 then None else best_matches !! Z.to_nat k.

Definition match_score (match_scores : list Q) (k : Z) : option Q :=
  if k <? 0 then None else match_scores !! Z.to_nat k.

(** "the most frequent label among the labels of e's k nearest neighbors":
    [row] is the row of event [i] in the neighbor array, [nl] the labels
    of the reference events it lists. *)
Definition votes_for (nearest : list (list nat)) (labels_ref : list Z)
    (i : nat) (b : Z) : Prop :=
  exists row nl,
    nearest !! i = Some row /\
    Forall2 (fun j l => labels_ref !! j = Some l) row nl /\
    most_frequent_smallest nl b.

(** "e's k nearest neighbors in the other recording's feature set": [row]
    lists [k] different events of the reference recording [data1], and no
    event of [data1] outside [row] is closer to the query [q] than an event
    in [row].  Distances are compared by their squares. *)
Definition k_nearest (data1 : list frame) (q : frame) (k : Z) (row : list nat) : Prop :=
  Z.of_nat (length row) = k /\ NoDup row /\
  (forall j, In j row -> is_Some (data1 !! j)) /\
  (forall j j' p p',
      In j row -> ~ In j' row -> data1 !! j = Some p -> data1 !! j' = Some p' ->
      Sklearn.sq_dist p q <= Sklearn.sq_dist p' q).

(** What the cluster loop records for a unit [k] that has events: the
    per-event best labels [cm] of its events in scan order, the winner [w]
    among them, and the share of events that voted for [w]. *)
Definition unit_candidate (nearest : list (list nat)) (labels_src labels_ref : list Z)
    (k : Z) (best : Z) (score : Q) : Prop :=
  exists cm w,
    Forall2 (fun i v => event_best_label nearest labels_ref i = Ok v)
            (Np.where_eq labels_src k) cm /\
    first_most_frequent cm w /\
    best = Np.wrap32 w /\
    score = (inject_Z (Z.of_nat (list_count cm w))
             / inject_Z (Z.of_nat (length (Np.where_eq labels_src k))))%Q.

(** The record appended for [kx] by the mutual-match loop. *)
Definition mutual_pair (best_matches_x_to_y : list Z) (match_scores_x_to_y : list Q)
    (best_matches_y_to_x : list Z) (match_scores_y_to_x : list Q)
    (kx : Z) (m : mutual_match) : Prop :=
  exists ky sxy syx,
    best_match best_matches_x_to_y kx = Some ky /\ 0 < ky /\
    best_match best_matches_y_to_x ky = Some kx /\
    match_score match_scores_x_to_y kx = Some sxy /\
    match_score match_scores_y_to_x ky = Some syx /\
    m = {| unit_x := kx; unit_y := ky;
           score_x_to_y := sxy; score_y_to_x := syx;
           overall_score := ((sxy + syx) / 2)%Q |}.

(** A neighbor array that fits the data: one non-empty row per query event,
    every entry a position of the reference set. *)
Definition rows_ok (n_ref n_query : nat) (nearest : list (list nat)) : bool :=
  (length nearest =? n_query)%nat
  && forallb (fun row => negb (length row =? 0)%nat
                         && forallb (fun j => (j <? n_ref)%nat) row) nearest.

(** Occurrences recorded for [y] in a (value, count) table. *)
Fixpoint count_in (t : list (Z * nat)) (y : Z) : nat :=
  match t with
  | [] => 0
  | (x, c) :: t' => ((if (x =? y)%Z then c else 0) + count_in t' y)%nat
  end.

(** ** focus_units_handlers.py: the spike train of a focus unit

    The model starts where [get_spike_train_for_focus_unit_handler] has
    found the focus unit, the configuration and the [raw/] directory (the
    three 404 exits before line 329 are not modelled).  The file system is
    an input: the sorted [.bin] listing of [raw/] with, per file, what the
    handler reads about it, and the readable [mutual_matches.json] files of
    [computed/unit_matching/<x>/<y>/] in the order the scan meets them. *)

(** [a // b] and [a / b] on Python integers. *)
Definition py_floordiv (a b : Z) : result Z :=
  if b =? 0 then Raise ZeroDivisionError else Ok (a / b).

Definition py_truediv (a b : Z) : result Q :=
  if b =? 0 then Raise ZeroDivisionError else Ok (inject_Z a / inject_Z b)%Q.

(** [d[k]] on a dict. *)
Definition dict_getitem (d : gmap string Z) (k : string) : result Z :=
  match d !! k with
  | Some v => Ok v
  | None => Raise KeyError
  end.

(** [a[mask]] for a boolean mask: the lengths must agree. *)
Fixpoint select_mask (a : list Q) (mask : list bool) : result (list Q) :=
  match a, mask with
  | [], [] => Ok []
  | x :: a', b :: mask' =>
      let* r := select_mask a' mask' in
      Ok (if b then x :: r else r)
  | _, _ => Raise IndexError
  end.

Module FocusUnit.
Record t : Type := Make {
  bin_filename : string;
  unit_id : Z
}.
End FocusUnit.

Record bin_file : Type := BinFile {
  name : string;                         (* entry of os.listdir(raw_dir)        *)
  raw_exists : bool;                     (* os.path.exists(raw_path)            *)
  file_size : Z;                         (* os.path.getsize(raw_path)           *)
  spike_times_npy : option (list Q);     (* coarse_sorting/<name>/spike_times.npy, if it exists  *)
  spike_labels_npy : option (list Z)     (* coarse_sorting/<name>/spike_labels.npy, if it exists *)
}.

Record segment : Type := Segment {
  bin_filename : string;
  unit_id : option Z;
  start_time_offset : Q;
  end_time_offset : Q;
  num_spikes : nat;
  spike_times : list Q;
  is_focus_unit : bool;
  is_gap : bool
}.

Record spike_train : Type := SpikeTrain {
  total_spikes : nat;
  total_duration_sec : Q;
  segments : list segment
}.

(** Lines 366-376: one persisted match record of the pair
    ([fname_x], [fname_y]). *)
Definition scan_match (focus : FocusUnit.t) (fname_x fname_y : string)
    (mutual_matches_map : gmap string Z) (mt : mutual_match) : gmap string Z :=
  if bool_decide (fname_x = FocusUnit.bin_filename focus)
     && (unit_x mt =? FocusUnit.unit_id focus)
  then <[fname_y := unit_y mt]> mutual_matches_map
  else if bool_decide (fname_y = FocusUnit.bin_filename focus)
          && (unit_y mt =? FocusUnit.unit_id focus)
  then <[fname_x := unit_x mt]> mutual_matches_map
  else mutual_matches_map.

(** Lines 339-380. *)
Definition build_mutual_matches_map (focus : FocusUnit.t)
    (pair_results : list (string * string * list mutual_match)) : gmap string Z :=
  fold_left
    (fun m '(fname_x, fname_y, matches) =>
       fold_left (scan_match focus fname_x fname_y) matches m)
    pair_results ∅.

Definition gap_segment (bin_filename : string) (segment_start segment_end : Q) : segment :=
  {| bin_filename := bin_filename;
     unit_id := None;
     start_time_offset := segment_start;
     end_time_offset := segment_end;
     num_spikes := 0;
     spike_times := [];
     is_focus_unit := false;
     is_gap := true |}.

(** Lines 393-395. *)
Definition file_duration (n_channels sampling_frequency : Z) (file_size : Z) : result Q :=
  let* num_frames := py_floordiv file_size (2 * n_channels) in
  py_truediv num_frames sampling_frequency.

(** Body of [for bin_filename in bin_files] (lines 387-465); the state is
    ([segments], [current_offset], [total_spikes]). *)
Definition segment_step (focus : FocusUnit.t) (mutual_matches_map : gmap string Z)
    (n_channels sampling_frequency : Z)
    (st : list segment * Q * nat) (f : bin_file) : result (list segment * Q * nat) :=
  let '(segments, current_offset, total_spikes) := st in
  if negb (raw_exists f) then Ok st
  else
    let* duration_sec := file_duration n_channels sampling_frequency (file_size f) in
    let segment_start := current_offset in
    let segment_end := (current_offset + duration_sec)%Q in
    let is_focus_file := bool_decide (name f = FocusUnit.bin_filename focus) in
    let has_match := bool_decide (is_Some (mutual_matches_map !! name f)) in
    if is_focus_file || has_match then
      let* unit_id :=
        if is_focus_file then Ok (FocusUnit.unit_id focus)
        else dict_getitem mutual_matches_map (name f) in
      match spike_times_npy f, spike_labels_npy f with
      | Some spike_times, Some spike_labels =>
          let unit_mask := map (fun l => l =? unit_id) spike_labels in
          let* unit_spike_times := select_mask spike_times unit_mask in
          let offset_spike_times := map (fun t => (t + current_offset)%Q) unit_spike_times in
          let num_spikes := length unit_spike_times in
          Ok (segments ++ [ {| bin_filename := name f;
                               unit_id := Some unit_id;
                               start_time_offset := segment_start;
                               end_time_offset := segment_end;
                               num_spikes := num_spikes;
                               spike_times := offset_spike_times;
                               is_focus_unit := is_focus_file;
                               is_gap := false |} ],
              segment_end, (total_spikes + num_spikes)%nat)
      | _, _ =>
          Ok (segments ++ [gap_segment (name f) segment_start segment_end],
              segment_end, total_spikes)
      end
    else
      Ok (segments ++ [gap_segment (name f) segment_start segment_end],
          segment_end, total_spikes).

(** Lines 383-474. *)
Definition assemble_spike_train (focus : FocusUnit.t) (mutual_matches_map : gmap string Z)
    (n_channels sampling_frequency : Z) (bin_files : list bin_file) : result spike_train :=
  let* (segments, current_offset, total_spikes) :=
    foldM (segment_step focus mutual_matches_map n_channels sampling_frequency)
          bin_files ([], 0%Q, 0%nat) in
  Ok {| total_spikes := total_spikes;
        total_duration_sec := current_offset;
        segments := segments |}.

Definition get_spike_train_for_focus_unit_handler (focus : FocusUnit.t)
    (n_channels sampling_frequency : Z) (bin_files : list bin_file)
    (pair_results : list (string * string * list mutual_match)) : result spike_train :=
  assemble_spike_train focus (build_mutual_matches_map focus pair_results)
                       n_channels sampling_frequency bin_files.

(** *** What the walk over the files produces, as relations *)

(** The unit the handler looks for in file [f]: the focus unit in the
    anchor file, the matched unit elsewhere (lines 401-409). *)
Definition resolved_unit (focus : FocusUnit.t) (mutual_matches_map : gmap string Z)
    (f : bin_file) : option Z :=
  if bool_decide (name f = FocusUnit.bin_filename focus)
  then Some (FocusUnit.unit_id focus)
  else mutual_matches_map !! name f.

(** The spike times of [times] whose label is [u], in the words of the
    specification ("filter to the resolved unit"). *)
Definition times_of_unit (times : list Q) (labels : list Z) (u : Z) : list Q :=
  (List.filter (fun p : Q * Z => snd p =? u) (zip times labels)).*1.

(** [emits focus m f o e s]: [s] is the segment appended for file [f] when
    the running offset is [o] and the file ends at [e]. *)
Inductive emits (focus : FocusUnit.t) (m : gmap string Z) (f : bin_file) (o e : Q)
  : segment -> Prop :=
| emits_unit u times labels sel :
    resolved_unit focus m f = Some u ->
    spike_times_npy f = Some times ->
    spike_labels_npy f = Some labels ->
    select_mask times (map (fun l => l =? u) labels) = Ok sel ->
    emits focus m f o e
      {| bin_filename := name f;
         unit_id := Some u;
         start_time_offset := o;
         end_time_offset := e;
         num_spikes := length sel;
         spike_times := map (fun t => (t + o)%Q) sel;
         is_focus_unit := bool_decide (name f = FocusUnit.bin_filename focus);
         is_gap := false |}
| emits_missing u :
    resolved_unit focus m f = Some u ->
    spike_times_npy f = None \/ spike_labels_npy f = None ->
    emits focus m f o e (gap_segment (name f) o e)
| emits_unmatched :
    resolved_unit focus m f = None ->
    emits focus m f o e (gap_segment (name f) o e).

(** [walk o files segs o']: starting at offset [o], the loop over [files]
    appends [segs] and ends at offset [o']. *)
Inductive walk (focus : FocusUnit.t) (m : gmap string Z) (n_channels sampling_frequency : Z)
  : Q -> list bin_file -> list segment -> Q -> Prop :=
| walk_nil o :
    walk focus m n_channels sampling_frequency o [] [] o
| walk_skip o f files segs o' :
    raw_exists f = false ->
    walk focus m n_channels sampling_frequency o files segs o' ->
    walk focus m n_channels sampling_frequency o (f :: files) segs o'
| walk_file o f files s segs o' d :
    raw_exists f = true ->
    file_duration n_channels sampling_frequency (file_size f) = Ok d ->
    emits focus m f o (o + d)%Q s ->
    walk focus m n_channels sampling_frequency (o + d)%Q files segs o' ->
    walk focus m n_channels sampling_frequency o (f :: files) (s :: segs) o'.

(** Arrays a file offers are usable: times and labels of equal length. *)
Definition sorting_well_formed (f : bin_file) : bool :=
  match spike_times_npy f, spike_labels_npy f with
  | Some times, Some labels => (length times =? length labels)%nat
  | _, _ => true
  end.

(** *** A session used to exercise the statements

    Three recordings of 10 s, 5 s and 8 s (two channels, one frame per
    second; the last file carries one stray byte) and a fourth of 5 s.
    The focus unit is unit 1 of [A.bin]; it is matched to unit 7 of
    [C.bin]; [D.bin] is matched too but has lost its spike times. *)
Module Session.

Local Open Scope string_scope.

Definition focus : FocusUnit.t := FocusUnit.Make "A.bin" 1.

Definition file_A : bin_file :=
  BinFile "A.bin" true 40 (Some [1%Q; 2%Q; 30%Q]) (Some [1; 2; 1]).
Definition file_B : bin_file :=
  BinFile "B.bin" true 20 None None.
Definition file_C : bin_file :=
  BinFile "C.bin" true 33 (Some [1%Q; 2%Q; 3%Q]) (Some [7; 7; 1]).
Definition file_D : bin_file :=
  BinFile "D.bin" true 20 None (Some [4]).

Definition bin_files : list bin_file := [file_A; file_B; file_C; file_D].

Definition pair_results : list (string * string * list mutual_match) :=
  [ ("A.bin", "C.bin", [MutualMatch 1 7 1 1 1; MutualMatch 2 3 1 1 1]);
    ("D.bin", "A.bin", [MutualMatch 4 1 1 1 1]) ].

Definition matches_map : gmap string Z := build_mutual_matches_map focus pair_results.

Definition train : spike_train :=
  {| total_spikes := 4;
     total_duration_sec := 28%Q;
     segments :=
       [ Segment "A.bin" (Some 1) 0%Q 10%Q 2 [1%Q; 30%Q] true false;
         Segment "B.bin" None 10%Q 15%Q 0 [] false true;
         Segment "C.bin" (Some 7) 15%Q 23%Q 2 [16%Q; 17%Q] false false;
         Segment "D.bin" None 23%Q 28%Q 0 [] false true ] |}.

(** A raw file of three bytes, one channel. *)
Definition odd_file : bin_file := BinFile "A.bin" true 3 None None.

End Session.

(** *** Two recordings used to exercise the statements *)
Module Recordings.

(** Three events on one channel: unit 1 at 0, unit 2 at 10 and 11. *)
Definition frames : list frame := [[0]; [10]; [11]].
Definition labels : list Z := [1; 2; 2].

(** The recording matched against a copy of itself, one neighbor. *)
Definition copy_k1 : unit_matches :=
  {| mutual_matches :=
       [ MutualMatch 1 1 1%Q 1%Q (2 # 2)%Q;
         MutualMatch 2 2 (2 # 2)%Q (2 # 2)%Q (8 # 8)%Q ];
     event_matches_x_to_y := [1; 2; 2];
     event_matches_y_to_x := [1; 2; 2] |}.

(** The same with three neighbors: every event sees all three events. *)
Definition copy_k3 : unit_matches :=
  {| mutual_matches := [ MutualMatch 2 2 (2 # 2)%Q (2 # 2)%Q (8 # 8)%Q ];
     event_matches_x_to_y := [2; 2; 2];
     event_matches_y_to_x := [2; 2; 2] |}.

(** Two unassigned events at 0 and 1, one event of unit 3 at 50. *)
Definition noisy_frames : list frame := [[0]; [1]; [50]].
Definition noisy_labels : list Z := [0; 0; 3].

(** The noisy recording matched against a copy of itself, two neighbors. *)
Definition noisy_k2 : unit_matches :=
  {| mutual_matches := [];
     event_matches_x_to_y := [0; 0; 0];
     event_matches_y_to_x := [0; 0; 0] |}.

End Recordings.

(** *** Two recordings whose votes are not unanimous *)
Module Votes.

(** X: six events on one channel; Y: three events.  With three neighbors
    the Y event at 0 sees the X events at 1, 3, 6 (labels 2, 2, 1: a
    majority for 2, which is not the smallest label), the Y event at 31 sees
    those at 28, 24, 21 (labels 4, 1, 3: a three-way tie, won by 1, which is
    neither the nearest neighbor's label nor the first of the row), and the
    Y event at 4 sees those at 3, 6, 1 (labels 2, 1, 2).  Every X event sees
    all three Y events (labels 7, 8, 7). *)
Definition frames_x : list frame := [[1]; [3]; [6]; [21]; [24]; [28]].
Definition labels_x : list Z := [2; 2; 1; 3; 1; 4].
Definition frames_y : list frame := [[0]; [31]; [4]].
Definition labels_y : list Z := [7; 8; 7].

Definition rows_y_to_x : list (list nat) := [[0; 1; 2]; [5; 4; 3]; [1; 2; 0]]%nat.

Definition result : unit_matches :=
  {| mutual_matches := [ MutualMatch 2 7 (2 # 2)%Q (2 # 2)%Q (8 # 8)%Q ];
     event_matches_x_to_y := [7; 7; 7; 7; 7; 7];
     event_matches_y_to_x := [2; 1; 2] |}.

End Votes.

(** *** Vocabulary for the match map *)

(** The persisted match [mt] of the pair ([fname_x], [fname_y]) has the
    focus unit on one side and unit [u] of file [f] on the other. *)
Definition links (focus : FocusUnit.t) (fname_x fname_y : string) (mt : mutual_match)
    (f : string) (u : Z) : Prop :=
  (fname_x = FocusUnit.bin_filename focus /\ unit_x mt = FocusUnit.unit_id focus /\
   f = fname_y /\ u = unit_y mt) \/
  (fname_y = FocusUnit.bin_filename focus /\ unit_y mt = FocusUnit.unit_id focus /\
   f = fname_x /\ u = unit_x mt).

(** A session whose anchor file has spike times and spike labels of
    different lengths. *)
Module TornSession.

Local Open Scope string_scope.

Definition torn_file : bin_file :=
  BinFile "C.bin" true 40 (Some [1%Q; 2%Q]) (Some [7; 7; 1]).

Definition bin_files : list bin_file :=
  [Session.file_A; Session.file_B; torn_file; Session.file_D].

End TornSession.

(** *** A second pair of recordings *)
Module Pair.

(** X: unit 1 at 0 and 1, unit 2 at 20.  Y: unit 5 at 0, unit 6 at 21
    and 22. *)
Definition frames_x : list frame := [[0]; [1]; [20]].
Definition labels_x : list Z := [1; 1; 2].
Definition frames_y : list frame := [[0]; [21]; [22]].
Definition labels_y : list Z := [5; 6; 6].

Definition x_to_y : unit_matches :=
  {| mutual_matches :=
       [ MutualMatch 1 5 (2 # 2)%Q 1%Q (4 # 4)%Q;
         MutualMatch 2 6 1%Q (2 # 2)%Q (4 # 4)%Q ];
     event_matches_x_to_y := [5; 5; 6];
     event_matches_y_to_x := [1; 2; 2] |}.

Definition y_to_x : unit_matches :=
  {| mutual_matches :=
       [ MutualMatch 5 1 1%Q (2 # 2)%Q (4 # 4)%Q;
         MutualMatch 6 2 (2 # 2)%Q 1%Q (4 # 4)%Q ];
     event_matches_x_to_y := [1; 2; 2];
     event_matches_y_to_x := [5; 5; 6] |}.

End Pair.

(** ** focus_units_handlers.py: the store of focus units

    [focus_units.json] holds the list of focus units.  A handler reads it
    with [_load_focus_units], may write it back with [_save_focus_units],
    and answers with a status and a body: it is modelled as a function
    from the file to the new file and the answer. *)

Module StoredUnit.
Record t : Type := Make {
  focus_unit_id : string;
  bin_filename : string;
  unit_id : Z;
  notes : string;
  spike_labels_hash : string
}.
End StoredUnit.

(** [focus_units.json]: absent, not valid JSON, or a list of units. *)
Inductive store_file : Type :=
| NoStore
| CorruptStore
| Store (focus_units : list StoredUnit.t).

(** Lines 14-27: a missing or corrupted file reads as the empty list. *)
Definition load_focus_units (file : store_file) : list StoredUnit.t :=
  match file with
  | Store focus_units => focus_units
  | NoStore | CorruptStore => []
  end.

(** Lines 29-34. *)
Definition save_focus_units (focus_units : list StoredUnit.t) : store_file :=
  Store focus_units.

(** [jsonify(body), status] *)
Inductive response (A : Type) : Type :=
| Reply (status : Z) (body : A)
| ErrorReply (status : Z) (error : string).

Arguments Reply {A} status body.
Arguments ErrorReply {A} status error.

Definition status_of {A : Type} (r : response A) : Z :=
  match r with
  | Reply status _ => status
  | ErrorReply status _ => status
  end.

Definition not_found_message (focus_unit_id : string) : string :=
  ("Focus unit " ++ focus_unit_id ++ " not found")%string.

(** Lines 244-262. *)
Definition delete_focus_unit_handler (file : store_file) (focus_unit_id : string)
    : store_file * response unit :=
  let data := load_focus_units file in
  let original_count := length data in
  let kept :=
    List.filter (fun unit => negb (String.eqb (StoredUnit.focus_unit_id unit) focus_unit_id))
                data in
  if (length kept =? original_count)%nat
  then (file, ErrorReply 404 (not_found_message focus_unit_id))
  else (save_focus_units kept, Reply 200 tt).

(** Lines 229-234: the notes of the first unit with the given id; the flag
    is [unit_found]. *)
Fixpoint set_notes (focus_units : list StoredUnit.t) (focus_unit_id notes : string)
    : list StoredUnit.t * bool :=
  match focus_units with
  | [] => ([], false)
  | unit :: rest =>
      if String.eqb (StoredUnit.focus_unit_id unit) focus_unit_id
      then ({| StoredUnit.focus_unit_id := StoredUnit.focus_unit_id unit;
               StoredUnit.bin_filename := StoredUnit.bin_filename unit;
               StoredUnit.unit_id := StoredUnit.unit_id unit;
               StoredUnit.notes := notes;
               StoredUnit.spike_labels_hash := StoredUnit.spike_labels_hash unit |} :: rest,
            true)
      else let '(rest', unit_found) := set_notes rest focus_unit_id notes in
           (unit :: rest', unit_found)
  end.

(** Lines 216-242; [request_notes] is [request_data["notes"]], [None] when
    the request has no body or no such key. *)
Definition update_focus_unit_handler (file : store_file) (focus_unit_id : string)
    (request_notes : option string) : store_file * response unit :=
  match request_notes with
  | None => (file, ErrorReply 400 "Missing 'notes' in request body")
  | Some notes =>
      let data := load_focus_units file in
      let '(data', unit_found) := set_notes data focus_unit_id notes in
      if negb unit_found
      then (file, ErrorReply 404 (not_found_message focus_unit_id))
      else (save_focus_units data', Reply 200 tt)
  end.

Definition has_id (focus_unit_id : string) (unit : StoredUnit.t) : Prop :=
  StoredUnit.focus_unit_id unit = focus_unit_id.

(** *** A store used to exercise the statements *)
Module Shelf.

Local Open Scope string_scope.

Definition unit_1 : StoredUnit.t := StoredUnit.Make "F001" "A.bin" 1 "" "h-a".
Definition unit_2 : StoredUnit.t := StoredUnit.Make "F002" "C.bin" 7 "good" "h-c".
Definition unit_7 : StoredUnit.t := StoredUnit.Make "F007" "A.bin" 2 "" "h-a".

Definition file : store_file := Store [unit_1; unit_2; unit_7].

End Shelf.

(** *** New focus units (lines 54-72 and 151-214) *)

(** [s[1:]] *)
Definition string_tail (s : string) : string :=
  match s with
  | EmptyString => EmptyString
  | String _ s' => s'
  end.

Fixpoint zeros (n : nat) : string :=
  match n with
  | O => EmptyString
  | S n' => String "0"%char (zeros n')
  end.

(** The decimal digits of a natural number. *)
Definition digits (n : N) : string := NilEmpty.string_of_uint (N.to_uint n).

Definition zero_pad (width : nat) (s : string) : string :=
  (zeros (width - String.length s) ++ s)%string.

(** [f"{n:03d}"]: at least three characters, the sign included, zeros
    between the sign and the digits. *)
Definition format_03d (n : Z) : string :=
  if n <? 0 then String "-"%char (zero_pad 2 (digits (Z.to_N (- n))))
  else zero_pad 3 (digits (Z.to_N n)).

(** One element of the request's [units] array: the two fields
    [unit_data.get(..)] reads, [None] for a missing key. *)
Record unit_request : Type := UnitRequest {
  req_bin_filename : option string;
  req_unit_id : option Z
}.

Section NewFocusUnits.

(** [int(s)] on a string: [None] when it raises [ValueError]. *)
Variable py_int : string -> option Z.

(** [os.path.exists] of [coarse_sorting/<name>/spike_labels.npy], and
    [_calculate_spike_labels_hash] ([None] when it finds no file). *)
Variable has_spike_labels : string -> bool.
Variable spike_labels_sha1 : string -> option string.

(** Lines 54-72. *)
Definition get_next_focus_unit_id (existing_units : list StoredUnit.t) : string :=
  match existing_units with
  | [] => "F001"
  | _ :: _ =>
      let max_num :=
        fold_left
          (fun max_num unit =>
             let focus_id := StoredUnit.focus_unit_id unit in
             if String.prefix "F" focus_id then
               match py_int (string_tail focus_id) with
               | Some num => Z.max max_num num
               | None => max_num
               end
             else max_num)
          existing_units 0 in
      let next_num := max_num + 1 in
      String "F"%char (format_03d next_num)
  end.

(** Lines 170-209: the loop over [units_to_add]; it ends with the two
    lists, or with the status and message of the first unit it refuses. *)
Fixpoint add_units (units_to_add : list unit_request)
    (existing_units added_units : list StoredUnit.t)
    : (list StoredUnit.t * list StoredUnit.t) + (Z * string) :=
  match units_to_add with
  | [] => inl (existing_units, added_units)
  | unit_data :: rest =>
      match req_bin_filename unit_data, req_unit_id unit_data with
      | Some bin_filename, Some unit_id =>
          if String.eqb bin_filename ""
          then inr (400, "Each unit must have 'bin_filename' and 'unit_id'"%string)
          else if negb (has_spike_labels bin_filename)
          then inr (400, ("File " ++ bin_filename ++ " does not have coarse sorting")%string)
          else
            match spike_labels_sha1 bin_filename with
            | None => inr (500, ("Could not calculate hash for " ++ bin_filename)%string)
            | Some spike_labels_hash =>
                let focus_unit_id := get_next_focus_unit_id existing_units in
                let new_unit :=
                  {| StoredUnit.focus_unit_id := focus_unit_id;
                     StoredUnit.bin_filename := bin_filename;
                     StoredUnit.unit_id := unit_id;
                     StoredUnit.notes := "";
                     StoredUnit.spike_labels_hash := spike_labels_hash |} in
                add_units rest (existing_units ++ [new_unit]) (added_units ++ [new_unit])
            end
      | _, _ => inr (400, "Each unit must have 'bin_filename' and 'unit_id'"%string)
      end
  end.

(** Lines 151-214; [request_units] is [request_data["units"]], [None]
    when the request has no body or no such key. *)
Definition add_focus_units_handler (file : store_file)
    (request_units : option (list unit_request))
    : store_file * response (list StoredUnit.t) :=
  match request_units with
  | None => (file, ErrorReply 400 "Missing 'units' in request body")
  | Some [] => (file, ErrorReply 400 "'units' must be a non-empty array")
  | Some units_to_add =>
      match add_units units_to_add (load_focus_units file) [] with
      | inr (status, error) => (file, ErrorReply status error)
      | inl (existing_units, added_units) =>
          (save_focus_units existing_units, Reply 201 added_units)
      end
  end.

End NewFocusUnits.

(** A reading of decimal strings that stands for [int] where a concrete
    one is needed: ASCII digits only, no sign, no blanks. *)
Definition ascii_int (s : string) : option Z :=
  match NilEmpty.uint_of_string s with
  | Some d => if (String.length s =? 0)%nat then None else Some (Z.of_N (N.of_uint d))
  | None => None
  end.

(** *** Listing the focus units with their matches (lines 74-149) *)

(** The focus unit of a stored unit: the two fields the scans compare. *)
Definition focus_of (unit : StoredUnit.t) : FocusUnit.t :=
  FocusUnit.Make (StoredUnit.bin_filename unit) (StoredUnit.unit_id unit).

(** One entry of a unit's [mutual_matches] list. *)
Record match_ref : Type := MatchRef {
  ref_bin_filename : string;
  ref_unit_id : Z;
  ref_overall_score : Q
}.

(** Lines 133-146: one persisted match record of the pair
    ([fname_x], [fname_y]). *)
Definition list_match (bin_filename : string) (unit_id : Z) (fname_x fname_y : string)
    (mutual_matches : list match_ref) (mt : mutual_match) : list match_ref :=
  if bool_decide (fname_x = bin_filename) && (unit_x mt =? unit_id)
  then mutual_matches ++ [ {| ref_bin_filename := fname_y;
                              ref_unit_id := unit_y mt;
                              ref_overall_score := overall_score mt |} ]
  else if bool_decide (fname_y = bin_filename) && (unit_y mt =? unit_id)
  then mutual_matches ++ [ {| ref_bin_filename := fname_x;
                              ref_unit_id := unit_x mt;
                              ref_overall_score := overall_score mt |} ]
  else mutual_matches.

(** Lines 85-136: the scan of all readable pair results (none when the
    [unit_matching] directory is missing). *)
Definition collect_matches (bin_filename : string) (unit_id : Z)
    (pair_results : list (string * string * list mutual_match)) : list match_ref :=
  fold_left
    (fun acc '(fname_x, fname_y, matches) =>
       fold_left (list_match bin_filename unit_id fname_x fname_y) matches acc)
    pair_results [].

Definition match_key (m : match_ref) : string * Z := (ref_bin_filename m, ref_unit_id m).

(** Lines 138-145: keep the first match of every (file, unit) key. *)
Fixpoint unique_matches_from (seen : gset (string * Z)) (mutual_matches : list match_ref)
    : list match_ref :=
  match mutual_matches with
  | [] => []
  | m :: rest =>
      if bool_decide (match_key m ∈ seen) then unique_matches_from seen rest
      else m :: unique_matches_from ({[ match_key m ]} ∪ seen) rest
  end.

(** Lines 74-149: every stored unit with its [mutual_matches]. *)
Definition get_focus_units_handler (file : store_file)
    (pair_results : list (string * string * list mutual_match))
    : list (StoredUnit.t * list match_ref) :=
  map (fun focus_unit =>
         (focus_unit,
          unique_matches_from ∅
            (collect_matches (StoredUnit.bin_filename focus_unit)
                             (StoredUnit.unit_id focus_unit) pair_results)))
      (load_focus_units file).

(** *** The units of a coarse sorting (lines 264-301) *)

(** [spike_labels.npy] of a file: absent, present but [np.load] or the
    hashing raises (with the text of the exception), or an array. *)
Inductive labels_file : Type :=
| LabelsAbsent
| LabelsUnreadable (error_text : string)
| Labels (spike_labels : list Z).

Record unit_info : Type := UnitInfo {
  info_unit_id : Z;
  info_num_spikes : nat
}.

Record units_reply : Type := UnitsReply {
  units : list unit_info;
  spike_labels_hash : option string
}.

(** [np.unique(a)] *)
Definition np_unique (a : list Z) : list Z := fst (Np.unique_counts a).

(** [np.sum(a == v)] *)
Definition np_count_eq (a : list Z) (v : Z) : nat :=
  length (List.filter (fun x => x =? v) a).

(** [list.sort(key=...)] with integer keys: a stable sort, written as an
    insertion sort that keeps equal keys in their order. *)
Fixpoint insert_by_key {A : Type} (key : A -> Z) (x : A) (l : list A) : list A :=
  match l with
  | [] => [x]
  | y :: l' => if key x <=? key y then x :: l else y :: insert_by_key key x l'
  end.

Definition sort_by_key {A : Type} (key : A -> Z) (l : list A) : list A :=
  fold_right (insert_by_key key) [] l.

Definition get_coarse_sorting_units_handler (file : labels_file)
    (current_hash : option string) : response units_reply :=
  match file with
  | LabelsAbsent => ErrorReply 404 "Coarse sorting not found for this file"
  | LabelsUnreadable error_text =>
      ErrorReply 500 ("Error reading coarse sorting data: " ++ error_text)%string
  | Labels spike_labels =>
      let unique_units := np_unique spike_labels in
      let units_info :=
        map (fun unit_id => {| info_unit_id := unit_id;
                               info_num_spikes := np_count_eq spike_labels unit_id |})
            unique_units in
      Reply 200 {| units := sort_by_key info_unit_id units_info;
                   spike_labels_hash := current_hash |}
  end.

(** *** The request for a spike train (lines 303-336 and 469-474) *)

(** [realtime512.yaml]: the two keys the handler reads, [None] for a
    missing key. *)
Record config_yaml : Type := ConfigYaml {
  cfg_n_channels : option Z;
  cfg_sampling_frequency : option Z
}.

(** Lines 309-313: the first stored unit with the id. *)
Fixpoint find_focus_unit (focus_units : list StoredUnit.t) (focus_unit_id : string)
    : option StoredUnit.t :=
  match focus_units with
  | [] => None
  | unit :: rest =>
      if String.eqb (StoredUnit.focus_unit_id unit) focus_unit_id then Some unit
      else find_focus_unit rest focus_unit_id
  end.

(** [s.endswith(suffix)] *)
Fixpoint endswith (suffix s : string) : bool :=
  if String.eqb s suffix then true
  else match s with
       | EmptyString => false
       | String _ s' => endswith suffix s'
       end.

(** [sorted(names)]: ascending by character codes, shorter before longer. *)
Fixpoint insert_by_name (f : bin_file) (l : list bin_file) : list bin_file :=
  match l with
  | [] => [f]
  | g :: l' => if String.leb (name f) (name g) then f :: l else g :: insert_by_name f l'
  end.

Definition sorted_by_name (l : list bin_file) : list bin_file :=
  fold_right insert_by_name [] l.

(** Line 336. *)
Definition bin_files_of (listing : list bin_file) : list bin_file :=
  sorted_by_name (List.filter (fun f => endswith ".bin" (name f)) listing).

(** The whole handler: the store, the configuration file ([None] when it
    does not exist), the listing of [raw/] ([None] when the directory does
    not exist) and the pair results.  An exception of the walk is not
    caught. *)
Definition spike_train_request (file : store_file) (focus_unit_id : string)
    (config : option config_yaml) (raw_dir : option (list bin_file))
    (pair_results : list (string * string * list mutual_match))
    : result (response spike_train) :=
  match find_focus_unit (load_focus_units file) focus_unit_id with
  | None => Ok (ErrorReply 404 (not_found_message focus_unit_id))
  | Some focus_unit =>
      match config with
      | None => Ok (ErrorReply 404 "Configuration file not found")
      | Some config =>
          let n_channels := default 512 (cfg_n_channels config) in
          let sampling_frequency := default 20000 (cfg_sampling_frequency config) in
          match raw_dir with
          | None => Ok (ErrorReply 404 "raw/ directory not found")
          | Some listing =>
              let bin_files := bin_files_of listing in
              let* train :=
                get_spike_train_for_focus_unit_handler
                  (focus_of focus_unit) n_channels sampling_frequency bin_files pair_results in
              Ok (Reply 200 train)
          end
      end
  end.

(** *** A raw directory used to exercise the statements *)
Module RawDir.

Local Open Scope string_scope.

Definition notes_file : bin_file := BinFile "notes.txt" true 12 None None.

(** The files of [Session], as [os.listdir] might give them. *)
Definition listing : list bin_file :=
  [Session.file_C; notes_file; Session.file_A; Session.file_D; Session.file_B].

Definition listing' : list bin_file :=
  [Session.file_B; Session.file_A; notes_file; Session.file_D; Session.file_C].

Definition config : config_yaml := ConfigYaml (Some 2) (Some 1).

End RawDir.

(** * Properties *)

(** ** The error monad *)

Lemma bind_Ok {A B : Type} (m : result A) (k : A -> result B) (b : B) :
  bind m k = Ok b -> exists a, m = Ok a /\ k a = Ok b.
Proof. destruct m as [a|e]; simpl; [eauto | discriminate]. Qed.

Ltac inv_bind H :=
  let a := fresh "a" in
  let Ha := fresh "Ha" in
  apply bind_Ok in H; destruct H as (a & Ha & H).

Lemma mapM_Ok_Forall2 {A B : Type} (f : A -> result B) (l : list A) (r : list B) :
  mapM f l = Ok r <-> Forall2 (fun x y => f x = Ok y) l r.
Proof.
  revert r; induction l as [|x l IH]; intros r; simpl.
  - split.
    + intros [= <-]. constructor.
    + intros H. inversion H. reflexivity.
  - split.
    + intros H. inv_bind H. inv_bind H. injection H as <-.
      constructor; [assumption | apply IH; assumption].
    + intros H. inversion H as [|? y ? ys Hx Hl]; subst.
      rewrite Hx. simpl. apply IH in Hl. rewrite Hl. reflexivity.
Qed.

(** ** The assembler *)

Lemma select_mask_Ok (times : list Q) (labels : list Z) (u : Z) :
  length times = length labels ->
  select_mask times (map (fun l => l =? u) labels) = Ok (times_of_unit times labels u).
Proof.
  revert labels; induction times as [|t times IH]; intros [|l labels] Hlen;
    simpl in *; try discriminate; [reflexivity|].
  injection Hlen as Hlen. rewrite (IH _ Hlen). simpl.
  unfold times_of_unit. simpl. destruct (l =? u); reflexivity.
Qed.

Lemma select_mask_Ok_inv (times : list Q) (labels : list Z) (u : Z) (sel : list Q) :
  select_mask times (map (fun l => l =? u) labels) = Ok sel ->
  length times = length labels /\ sel = times_of_unit times labels u.
Proof.
  revert labels sel; induction times as [|t times IH]; intros [|l labels] sel H;
    simpl in *; try discriminate.
  - injection H as <-. split; reflexivity.
  - inv_bind H. destruct (IH _ _ Ha) as [Hlen ->]. injection H as <-.
    split; [congruence|]. unfold times_of_unit. simpl. destruct (l =? u); reflexivity.
Qed.

Lemma file_duration_Ok (n_channels sampling_frequency size : Z) :
  n_channels <> 0 -> sampling_frequency <> 0 ->
  file_duration n_channels sampling_frequency size
  = Ok (inject_Z (size / (2 * n_channels)) / inject_Z sampling_frequency)%Q.
Proof.
  intros Hn Hf. unfold file_duration, py_floordiv, py_truediv.
  destruct (Z.eqb_spec (2 * n_channels) 0) as [E|_]; [lia|]. simpl.
  destruct (Z.eqb_spec sampling_frequency 0) as [E|_]; [lia|]. reflexivity.
Qed.

Lemma file_duration_Ok_inv (n_channels sampling_frequency size : Z) (d : Q) :
  file_duration n_channels sampling_frequency size = Ok d ->
  n_channels <> 0 /\ sampling_frequency <> 0 /\
  d = (inject_Z (size / (2 * n_channels)) / inject_Z sampling_frequency)%Q.
Proof.
  unfold file_duration, py_floordiv, py_truediv.
  destruct (Z.eqb_spec (2 * n_channels) 0) as [E|Hn]; [discriminate|]. simpl.
  destruct (Z.eqb_spec sampling_frequency 0) as [E|Hf]; [discriminate|].
  intros [= <-]. repeat split; [lia | assumption].
Qed.

(** One iteration of the loop, read backwards. *)
Lemma segment_step_inv focus m n_channels sampling_frequency segs o tot f st' :
  segment_step focus m n_channels sampling_frequency (segs, o, tot) f = Ok st' ->
  (raw_exists f = false /\ st' = (segs, o, tot)) \/
  (raw_exists f = true /\
   exists d s, file_duration n_channels sampling_frequency (file_size f) = Ok d /\
               emits focus m f o (o + d)%Q s /\
               st' = (segs ++ [s], (o + d)%Q, (tot + num_spikes s)%nat)).
Proof.
  unfold segment_step. destruct (raw_exists f); simpl; [|intros [= <-]; left; auto].
  intros H. right. split; [reflexivity|]. inv_bind H. rename a into d.
  exists d.
  assert (Hgap : forall u : Z,
             resolved_unit focus m f = Some u ->
             spike_times_npy f = None \/ spike_labels_npy f = None ->
             exists s, file_duration n_channels sampling_frequency (file_size f) = Ok d /\
                       emits focus m f o (o + d)%Q s /\
                       (segs ++ [gap_segment (name f) o (o + d)%Q], (o + d)%Q, tot)
                       = (segs ++ [s], (o + d)%Q, (tot + num_spikes s)%nat)).
  { intros u Hu Hmiss. exists (gap_segment (name f) o (o + d)%Q).
    split; [assumption|]. split; [eapply emits_missing; eassumption|].
    simpl. rewrite Nat.add_0_r. reflexivity. }
  assert (Hunit : forall (u : Z) times labels sel,
             resolved_unit focus m f = Some u ->
             spike_times_npy f = Some times -> spike_labels_npy f = Some labels ->
             select_mask times (map (fun l => l =? u) labels) = Ok sel ->
             exists s, file_duration n_channels sampling_frequency (file_size f) = Ok d /\
                       emits focus m f o (o + d)%Q s /\
                       (segs ++ [ {| bin_filename := name f; unit_id := Some u;
                                     start_time_offset := o; end_time_offset := (o + d)%Q;
                                     num_spikes := length sel;
                                     spike_times := map (fun t => (t + o)%Q) sel;
                                     is_focus_unit := bool_decide (name f = FocusUnit.bin_filename focus);
                                     is_gap := false |} ],
                        (o + d)%Q, (tot + length sel)%nat)
                       = (segs ++ [s], (o + d)%Q, (tot + num_spikes s)%nat)).
  { intros u times labels sel Hu Et El Hsel. eexists.
    split; [assumption|]. split; [eapply emits_unit; eassumption|]. reflexivity. }
  unfold resolved_unit in Hgap, Hunit.
  destruct (bool_decide (name f = FocusUnit.bin_filename focus)) eqn:Efocus; simpl in *.
  - destruct (spike_times_npy f) as [times|] eqn:Et;
      [destruct (spike_labels_npy f) as [labels|] eqn:El|].
    + inv_bind H. injection H as <-. eapply Hunit; eauto.
    + injection H as <-. eapply Hgap; eauto.
    + injection H as <-. eapply Hgap; eauto.
  - destruct (m !! name f) as [u|] eqn:Em.
    + rewrite bool_decide_eq_true_2 in H by eauto.
      unfold dict_getitem in H. rewrite Em in H. simpl in H.
      destruct (spike_times_npy f) as [times|] eqn:Et;
        [destruct (spike_labels_npy f) as [labels|] eqn:El|].
      * inv_bind H. injection H as <-. eapply Hunit; eauto.
      * injection H as <-. eapply Hgap; eauto.
      * injection H as <-. eapply Hgap; eauto.
    + rewrite bool_decide_eq_false_2 in H by (intros [? ?]; discriminate).
      injection H as <-. exists (gap_segment (name f) o (o + d)%Q).
      split; [assumption|]. split.
      * apply emits_unmatched. unfold resolved_unit. rewrite Efocus. assumption.
      * simpl. rewrite Nat.add_0_r. reflexivity.
Qed.

Lemma emits_fields focus m f o e s :
  emits focus m f o e s ->
  bin_filename s = name f /\ start_time_offset s = o /\ end_time_offset s = e.
Proof. intros H. destruct H; simpl; auto. Qed.

Lemma foldM_walk focus m n_channels sampling_frequency files :
  forall segs0 o tot segs o' tot',
    foldM (segment_step focus m n_channels sampling_frequency) files (segs0, o, tot)
    = Ok (segs, o', tot') ->
    exists new, segs = segs0 ++ new /\
                walk focus m n_channels sampling_frequency o files new o' /\
                tot' = (tot + sum_list (num_spikes <$> new))%nat.
Proof.
  induction files as [|f files IH]; intros segs0 o tot segs o' tot' H; simpl in H.
  - injection H as <- <- <-. exists []. rewrite app_nil_r. simpl.
    split; [reflexivity|]. split; [constructor | rewrite Nat.add_0_r; reflexivity].
  - inv_bind H. apply segment_step_inv in Ha.
    destruct Ha as [[Hex ->] | (Hex & d & s & Hd & Hemit & ->)].
    + destruct (IH _ _ _ _ _ _ H) as (new & -> & Hw & ->).
      exists new. split; [reflexivity|]. split; [|reflexivity].
      apply walk_skip; assumption.
    + destruct (IH _ _ _ _ _ _ H) as (new & -> & Hw & ->).
      exists (s :: new). rewrite <- app_assoc. simpl.
      split; [reflexivity|]. split; [eapply walk_file; eassumption|].
      rewrite Nat.add_assoc. reflexivity.
Qed.

Lemma assemble_walk focus m n_channels sampling_frequency files r :
  assemble_spike_train focus m n_channels sampling_frequency files = Ok r ->
  walk focus m n_channels sampling_frequency 0%Q files (segments r) (total_duration_sec r)
  /\ total_spikes r = sum_list (num_spikes <$> segments r).
Proof.
  unfold assemble_spike_train. intros H. inv_bind H.
  destruct a as [[segs o'] tot']. injection H as <-. simpl.
  apply foldM_walk in Ha. destruct Ha as (new & -> & Hw & ->). simpl. auto.
Qed.

Lemma segment_step_returns focus m n_channels sampling_frequency st f :
  n_channels <> 0 -> sampling_frequency <> 0 -> sorting_well_formed f = true ->
  returns (segment_step focus m n_channels sampling_frequency st f).
Proof.
  intros Hn Hf Hwf. destruct st as [[segs o] tot]. unfold segment_step, returns.
  destruct (raw_exists f); simpl; [|eauto].
  rewrite (file_duration_Ok _ _ _ Hn Hf). simpl.
  destruct (bool_decide (name f = FocusUnit.bin_filename focus)) eqn:Efocus; simpl.
  - unfold sorting_well_formed in Hwf.
    destruct (spike_times_npy f) as [times|]; [|eauto].
    destruct (spike_labels_npy f) as [labels|]; [|eauto].
    apply Nat.eqb_eq in Hwf. rewrite (select_mask_Ok _ _ _ Hwf). simpl. eauto.
  - destruct (m !! name f) as [u|] eqn:Em.
    + rewrite bool_decide_eq_true_2 by eauto.
      unfold dict_getitem. rewrite Em. simpl.
      unfold sorting_well_formed in Hwf.
      destruct (spike_times_npy f) as [times|]; [|eauto].
      destruct (spike_labels_npy f) as [labels|]; [|eauto].
      apply Nat.eqb_eq in Hwf. rewrite (select_mask_Ok _ _ _ Hwf). simpl. eauto.
    + rewrite bool_decide_eq_false_2 by (intros [? ?]; discriminate). eauto.
Qed.

(** With a usable configuration and usable arrays the walk never raises. *)
Lemma assemble_spike_train_returns focus m n_channels sampling_frequency files :
  n_channels <> 0 -> sampling_frequency <> 0 ->
  forallb sorting_well_formed files = true ->
  returns (assemble_spike_train focus m n_channels sampling_frequency files).
Proof.
  intros Hn Hf Hwf. unfold assemble_spike_train.
  assert (H : forall st, returns (foldM (segment_step focus m n_channels sampling_frequency) files st)).
  { induction files as [|f files IH]; intros st; simpl; [unfold returns; eauto|].
    simpl in Hwf. apply andb_prop in Hwf. destruct Hwf as [Hwf1 Hwf2].
    destruct (segment_step_returns focus m n_channels sampling_frequency st f Hn Hf Hwf1)
      as [st' ->]. simpl. apply IH. assumption. }
  destruct (H ([], 0%Q, 0%nat)) as [[[segs o] tot] ->]. simpl. unfold returns. eauto.
Qed.

(** Each file that exists has exactly one segment, in order. *)
Lemma walk_Forall2 focus m n_channels sampling_frequency o files segs o' :
  walk focus m n_channels sampling_frequency o files segs o' ->
  Forall2 (fun f s =>
             exists d, file_duration n_channels sampling_frequency (file_size f) = Ok d /\
                       emits focus m f (start_time_offset s) (start_time_offset s + d)%Q s)
          (List.filter raw_exists files) segs.
Proof.
  induction 1 as [o | o f files segs o' Hex _ IH | o f files s segs o' d Hex Hd Hemit _ IH];
    simpl.
  - constructor.
  - rewrite Hex. assumption.
  - rewrite Hex. constructor; [|assumption].
    exists d. split; [assumption|].
    destruct (emits_fields _ _ _ _ _ _ Hemit) as (_ & -> & _). assumption.
Qed.

Lemma walk_head focus m n_channels sampling_frequency o files segs o' s :
  walk focus m n_channels sampling_frequency o files segs o' ->
  head segs = Some s -> start_time_offset s = o.
Proof.
  induction 1 as [o | o f files segs o' Hex _ IH | o f files s0 segs o' d Hex Hd Hemit _ IH];
    simpl; intros Hh.
  - discriminate.
  - auto.
  - injection Hh as <-. apply emits_fields in Hemit. tauto.
Qed.

Lemma walk_adjacent focus m n_channels sampling_frequency o files segs o' :
  walk focus m n_channels sampling_frequency o files segs o' ->
  forall i s s', segs !! i = Some s -> segs !! S i = Some s' ->
                 end_time_offset s = start_time_offset s'.
Proof.
  induction 1 as [o | o f files segs o' Hex _ IH | o f files s0 segs o' d Hex Hd Hemit Hw IH];
    intros i s s' Hi HSi.
  - discriminate.
  - eauto.
  - destruct i as [|i]; simpl in *.
    + injection Hi as <-. apply emits_fields in Hemit. destruct Hemit as (_ & _ & ->).
      symmetry. eapply walk_head; [eassumption|]. destruct segs; simpl in *; congruence.
    + eauto.
Qed.

Lemma walk_last focus m n_channels sampling_frequency o files segs o' :
  walk focus m n_channels sampling_frequency o files segs o' ->
  o' = from_option end_time_offset o (last segs).
Proof.
  induction 1 as [o | o f files segs o' Hex _ IH | o f files s0 segs o' d Hex Hd Hemit Hw IH].
  - reflexivity.
  - assumption.
  - rewrite IH. apply emits_fields in Hemit. destruct Hemit as (_ & _ & He).
    destruct segs as [|s1 segs]; simpl; [auto|].
    rewrite last_cons. simpl. destruct (last segs); reflexivity.
Qed.

(** *** Claims about the assembler *)

(** C7.  The segment list is contiguous: the first segment starts at 0, each
    segment ends where the next one starts, every segment (gap or not) ends
    one file duration after its start, and [total_duration_sec] is the end
    of the last segment (0 for an empty session). *)
Theorem assembler_segments_contiguous focus m n_channels sampling_frequency files r :
  assemble_spike_train focus m n_channels sampling_frequency files = Ok r ->
  (forall s, head (segments r) = Some s -> start_time_offset s = 0%Q) /\
  (forall i s s', segments r !! i = Some s -> segments r !! S i = Some s' ->
                  end_time_offset s = start_time_offset s') /\
  Forall2 (fun f s =>
             bin_filename s = name f /\
             exists d, file_duration n_channels sampling_frequency (file_size f) = Ok d /\
                       end_time_offset s = (start_time_offset s + d)%Q)
          (List.filter raw_exists files) (segments r) /\
  total_duration_sec r = from_option end_time_offset 0%Q (last (segments r)).
Proof.
  intros H. apply assemble_walk in H. destruct H as [Hw _].
  split; [intros s; eapply walk_head; eassumption|].
  split; [eapply walk_adjacent; eassumption|].
  split; [|eapply walk_last; eassumption].
  eapply Forall2_impl; [eapply walk_Forall2; eassumption|].
  intros f s (d & Hd & Hemit). simpl.
  apply emits_fields in Hemit. destruct Hemit as (Hn & _ & He). eauto.
Qed.

Lemma assembler_segments_contiguous_witness :
  (forall s, head (segments Session.train) = Some s -> start_time_offset s = 0%Q) /\
  (forall i s s', segments Session.train !! i = Some s ->
                  segments Session.train !! S i = Some s' ->
                  end_time_offset s = start_time_offset s') /\
  Forall2 (fun f s =>
             bin_filename s = name f /\
             exists d, file_duration 2 1 (file_size f) = Ok d /\
                       end_time_offset s = (start_time_offset s + d)%Q)
          (List.filter raw_exists Session.bin_files) (segments Session.train) /\
  total_duration_sec Session.train
  = from_option end_time_offset 0%Q (last (segments Session.train)).
Proof.
  apply (assembler_segments_contiguous Session.focus Session.matches_map 2 1 Session.bin_files).
  vm_compute. reflexivity.
Defined.

(** C8.  With a usable configuration, the walk returns a timeline with one
    segment per raw file, and a file that should carry the unit (the anchor
    file, or a file with a matched unit) but lacks its spike-times or
    spike-labels array gets a gap segment: unit id null, no spikes,
    [is_gap] true. *)
Theorem missing_sorting_becomes_gap focus m n_channels sampling_frequency files :
  n_channels <> 0 -> sampling_frequency <> 0 ->
  forallb sorting_well_formed files = true ->
  exists r,
    assemble_spike_train focus m n_channels sampling_frequency files = Ok r /\
    Forall2 (fun f s =>
               bin_filename s = name f /\
               (name f = FocusUnit.bin_filename focus \/ is_Some (m !! name f) ->
                spike_times_npy f = None \/ spike_labels_npy f = None ->
                unit_id s = None /\ num_spikes s = 0%nat /\ spike_times s = [] /\
                is_gap s = true))
            (List.filter raw_exists files) (segments r).
Proof.
  intros Hn Hf Hwf.
  destruct (assemble_spike_train_returns focus m _ _ _ Hn Hf Hwf) as [r Hr].
  exists r. split; [assumption|].
  apply assemble_walk in Hr. destruct Hr as [Hw _].
  eapply Forall2_impl; [eapply walk_Forall2; eassumption|].
  intros f s (d & Hd & Hemit). simpl.
  split; [apply emits_fields in Hemit; tauto|].
  intros _ Hmiss. destruct Hemit as [u times labels sel _ Et El _ | |]; simpl; auto.
  destruct Hmiss; congruence.
Qed.

Lemma missing_sorting_becomes_gap_witness :
  exists r,
    assemble_spike_train Session.focus Session.matches_map 2 1 Session.bin_files = Ok r /\
    Forall2 (fun f s =>
               bin_filename s = name f /\
               (name f = FocusUnit.bin_filename Session.focus
                \/ is_Some (Session.matches_map !! name f) ->
                spike_times_npy f = None \/ spike_labels_npy f = None ->
                unit_id s = None /\ num_spikes s = 0%nat /\ spike_times s = [] /\
                is_gap s = true))
            (List.filter raw_exists Session.bin_files) (segments r).
Proof.
  apply (missing_sorting_becomes_gap Session.focus Session.matches_map 2 1 Session.bin_files);
    [lia | lia | reflexivity].
Defined.

(** C9.  A non-gap segment carries exactly the file's spike times whose
    label is the resolved unit, each shifted by the segment's start; nothing
    compares them with the segment's end, and there is a session in which a
    non-gap segment holds a spike time beyond its [end_time_offset]. *)
Theorem spike_times_shifted_not_clamped :
  (forall focus m n_channels sampling_frequency files r,
      assemble_spike_train focus m n_channels sampling_frequency files = Ok r ->
      Forall2 (fun f s =>
                 is_gap s = false ->
                 exists u times labels,
                   resolved_unit focus m f = Some u /\
                   unit_id s = Some u /\
                   spike_times_npy f = Some times /\
                   spike_labels_npy f = Some labels /\
                   spike_times s
                   = map (fun t => (t + start_time_offset s)%Q) (times_of_unit times labels u))
              (List.filter raw_exists files) (segments r)) /\
  (exists focus m n_channels sampling_frequency files r s t,
      assemble_spike_train focus m n_channels sampling_frequency files = Ok r /\
      In s (segments r) /\ is_gap s = false /\
      In t (spike_times s) /\ (end_time_offset s < t)%Q).
Proof.
  split.
  - intros focus m n_channels sampling_frequency files r H.
    apply assemble_walk in H. destruct H as [Hw _].
    eapply Forall2_impl; [eapply walk_Forall2; eassumption|].
    intros f s (d & Hd & Hemit) Hgap. simpl in *.
    inversion Hemit as [u times labels sel Hu Et El Hsel Hs | u Hu Hmiss Hs | Hu Hs];
      rewrite <- Hs in Hgap; try discriminate.
    apply select_mask_Ok_inv in Hsel. destruct Hsel as [_ ->].
    exists u, times, labels. repeat split; assumption || reflexivity.
  - exists Session.focus, Session.matches_map, 2, 1, Session.bin_files, Session.train.
    exists (Segment "A.bin" (Some 1) 0%Q 10%Q 2 [1%Q; 30%Q] true false), 30%Q.
    split; [vm_compute; reflexivity|].
    split; [left; reflexivity|].
    split; [reflexivity|].
    split; [right; left; reflexivity|].
    reflexivity.
Qed.

Lemma spike_times_shifted_not_clamped_witness :
  Forall2 (fun f s =>
             is_gap s = false ->
             exists u times labels,
               resolved_unit Session.focus Session.matches_map f = Some u /\
               unit_id s = Some u /\
               spike_times_npy f = Some times /\
               spike_labels_npy f = Some labels /\
               spike_times s
               = map (fun t => (t + start_time_offset s)%Q) (times_of_unit times labels u))
          (List.filter raw_exists Session.bin_files) (segments Session.train).
Proof.
  apply (proj1 spike_times_shifted_not_clamped
               Session.focus Session.matches_map 2 1 Session.bin_files Session.train).
  vm_compute. reflexivity.
Defined.

(** C2, as stated, fails: a raw file of 3 bytes with one channel at 1 Hz
    contributes 1 s, not 3 / 2 s. *)
Lemma duration_exact_division_counterexample :
  assemble_spike_train Session.focus ∅ 1 1 [Session.odd_file]
  = Ok {| total_spikes := 0;
          total_duration_sec := 1%Q;
          segments := [gap_segment "A.bin" 0%Q 1%Q] |} /\
  ~ (1 - 0 == inject_Z 3 / inject_Z (2 * 1) / inject_Z 1)%Q.
Proof.
  split; [vm_compute; reflexivity|].
  intros H. vm_compute in H. discriminate.
Qed.

(** C2, amended.  Every segment lasts [(byte_size // (2 * n_channels)) /
    sampling_frequency]: the byte size is divided with Python's floor
    division, so only whole frames count; this is the exact quotient when
    the byte size is a multiple of [2 * n_channels]. *)
Theorem segment_duration_counts_whole_frames focus m n_channels sampling_frequency files r :
  assemble_spike_train focus m n_channels sampling_frequency files = Ok r ->
  Forall2 (fun f s =>
             let num_frames := file_size f / (2 * n_channels) in
             end_time_offset s
             = (start_time_offset s + inject_Z num_frames / inject_Z sampling_frequency)%Q /\
             (0 < n_channels ->
              2 * n_channels * num_frames <= file_size f
              < 2 * n_channels * (num_frames + 1)) /\
             ((2 * n_channels | file_size f) ->
              (inject_Z num_frames == inject_Z (file_size f) / inject_Z (2 * n_channels))%Q))
          (List.filter raw_exists files) (segments r).
Proof.
  intros H. apply assemble_walk in H. destruct H as [Hw _].
  eapply Forall2_impl; [eapply walk_Forall2; eassumption|].
  intros f s (d & Hd & Hemit). simpl.
  apply file_duration_Ok_inv in Hd. destruct Hd as (Hn & Hf & ->).
  apply emits_fields in Hemit. destruct Hemit as (_ & _ & He).
  split; [assumption|]. split.
  - intros Hpos.
    pose proof (Z.mul_div_le (file_size f) (2 * n_channels) ltac:(lia)).
    pose proof (Z.mul_succ_div_gt (file_size f) (2 * n_channels) ltac:(lia)).
    lia.
  - intros [q Hq]. rewrite Hq. rewrite Z.div_mul by lia.
    unfold Qeq, Qdiv, Qmult, Qinv, inject_Z. simpl.
    destruct (2 * n_channels) as [|p|p] eqn:E; [lia| |]; simpl; lia.
Qed.

Lemma segment_duration_counts_whole_frames_witness :
  Forall2 (fun f s =>
             let num_frames := file_size f / (2 * 2) in
             end_time_offset s
             = (start_time_offset s + inject_Z num_frames / inject_Z 1)%Q /\
             (0 < 2 ->
              2 * 2 * num_frames <= file_size f < 2 * 2 * (num_frames + 1)) /\
             ((2 * 2 | file_size f) ->
              (inject_Z num_frames == inject_Z (file_size f) / inject_Z (2 * 2))%Q))
          (List.filter raw_exists Session.bin_files) (segments Session.train).
Proof.
  apply (segment_duration_counts_whole_frames
           Session.focus Session.matches_map 2 1 Session.bin_files Session.train).
  vm_compute. reflexivity.
Defined.

(** ** The event-level vote *)

Section Vote.

Local Open Scope nat_scope.

Lemma count_in_tally (x : Z) (t : list (Z * nat)) (y : Z) :
  count_in (Np.tally x t) y = (if (x =? y)%Z then 1 else 0) + count_in t y.
Proof.
  induction t as [|[x0 c0] t IH]; simpl; [lia|].
  destruct (Z.ltb_spec x x0); simpl; [lia|].
  destruct (Z.eqb_spec x x0) as [->|Hne]; simpl.
  - destruct (x0 =? y)%Z; lia.
  - rewrite IH. lia.
Qed.

Lemma count_in_unique (labels : list Z) (y : Z) :
  count_in (fold_right Np.tally [] labels) y = list_count labels y.
Proof.
  unfold list_count. induction labels as [|x labels IH]; simpl; [reflexivity|].
  rewrite count_in_tally, IH.
  destruct (Z.eqb_spec x y) as [->|Hne]; destruct (Z.eq_dec _ _); try lia; congruence.
Qed.

Lemma tally_keys (x : Z) (t : list (Z * nat)) (k : Z) :
  In k (map fst (Np.tally x t)) -> k = x \/ In k (map fst t).
Proof.
  induction t as [|[x0 c0] t IH]; simpl; [intuition|].
  destruct (Z.ltb_spec x x0); simpl; [intuition|].
  destruct (Z.eqb_spec x x0) as [->|Hne]; simpl; intuition.
Qed.

Lemma tally_sorted (x : Z) (t : list (Z * nat)) :
  StronglySorted Z.lt (map fst t) -> StronglySorted Z.lt (map fst (Np.tally x t)).
Proof.
  induction t as [|[x0 c0] t IH]; simpl; intros Hs.
  - repeat constructor.
  - apply StronglySorted_inv in Hs. destruct Hs as [Hs Hall].
    destruct (Z.ltb_spec x x0); simpl.
    + constructor; [constructor; assumption|].
      constructor; [assumption|].
      eapply Forall_impl; [eassumption|]. simpl. intros; lia.
    + destruct (Z.eqb_spec x x0) as [->|Hne]; simpl.
      * constructor; assumption.
      * constructor; [auto|].
        rewrite Forall_forall in Hall |- *. intros k Hk.
        apply list_elem_of_In, tally_keys in Hk. destruct Hk as [->|Hk]; [lia|].
        apply Hall, list_elem_of_In. assumption.
Qed.

Lemma tally_positive (x : Z) (t : list (Z * nat)) :
  Forall (fun p => 0 < snd p) t -> Forall (fun p => 0 < snd p) (Np.tally x t).
Proof.
  induction t as [|[x0 c0] t IH]; simpl; intros Hp.
  - repeat constructor.
  - inversion Hp as [|? ? H0 Ht]; subst.
    destruct (Z.ltb_spec x x0); [repeat constructor; simpl; auto; lia|].
    destruct (Z.eqb_spec x x0); constructor; simpl in *; auto; lia.
Qed.

Lemma unique_table (labels : list Z) :
  StronglySorted Z.lt (map fst (fold_right Np.tally [] labels)) /\
  Forall (fun p => 0 < snd p) (fold_right Np.tally [] labels).
Proof.
  induction labels as [|x labels [IH1 IH2]]; simpl.
  - split; constructor.
  - split; [apply tally_sorted | apply tally_positive]; assumption.
Qed.

Lemma count_in_absent (t : list (Z * nat)) (y : Z) :
  ~ In y (map fst t) -> count_in t y = 0.
Proof.
  induction t as [|[x0 c0] t IH]; simpl; intros Hn; [reflexivity|].
  destruct (Z.eqb_spec x0 y); [tauto|]. rewrite IH; tauto.
Qed.

Lemma count_in_present (t : list (Z * nat)) (y : Z) (c : nat) :
  StronglySorted Z.lt (map fst t) -> In (y, c) t -> count_in t y = c.
Proof.
  induction t as [|[x0 c0] t IH]; simpl; intros Hs Hin; [tauto|].
  apply StronglySorted_inv in Hs. destruct Hs as [Hs Hall].
  rewrite Forall_forall in Hall.
  destruct Hin as [[= -> ->]|Hin].
  - rewrite Z.eqb_refl, count_in_absent; [lia|].
    intros Hy. apply list_elem_of_In, Hall in Hy. lia.
  - assert (x0 < y)%Z by (apply Hall, list_elem_of_In, in_map_iff; exists (y, c); auto).
    destruct (Z.eqb_spec x0 y); [lia|]. simpl. auto.
Qed.

Lemma count_in_found (t : list (Z * nat)) (y : Z) :
  0 < count_in t y -> exists c, In (y, c) t.
Proof.
  induction t as [|[x0 c0] t IH]; simpl; [lia|]. intros Hpos.
  destruct (Z.eqb_spec x0 y) as [->|Hne]; [eauto|].
  destruct IH as [c Hc]; [lia|eauto].
Qed.

(** [np.argmax] over the counts of a table whose keys ascend: the row it
    picks has the largest count and, among the rows with that count, the
    smallest key. *)
Lemma argmax_from_table (rest pre : list (Z * nat)) (bi : nat) (bkey : Z) (b : nat) :
  StronglySorted Z.lt (map fst (pre ++ rest)) ->
  pre !! bi = Some (bkey, b) ->
  (forall y c, In (y, c) pre -> c <= b /\ (c = b -> (bkey <= y)%Z)) ->
  exists key v,
    (pre ++ rest) !! Np.argmax_from bi b (length pre) (map snd rest) = Some (key, v) /\
    forall y c, In (y, c) (pre ++ rest) -> c <= v /\ (c = v -> (key <= y)%Z).
Proof.
  revert pre bi bkey b. induction rest as [|[y0 c0] rest IH]; intros pre bi bkey b Hs Hb Hpre.
  - simpl. rewrite app_nil_r. eauto.
  - simpl. replace (pre ++ (y0, c0) :: rest) with ((pre ++ [(y0, c0)]) ++ rest) in *
      by (rewrite <- app_assoc; reflexivity).
    replace (S (length pre)) with (length (pre ++ [(y0, c0)]))
      by (rewrite length_app; simpl; lia).
    destruct (Nat.ltb_spec b c0) as [Hlt|Hge].
    + apply (IH _ _ y0); [assumption| |].
      * rewrite lookup_app_r by lia. rewrite Nat.sub_diag. reflexivity.
      * intros y c Hin. apply in_app_iff in Hin. destruct Hin as [Hin|[[= <- <-]|[]]].
        -- apply Hpre in Hin. lia.
        -- lia.
    + apply (IH _ _ bkey); [assumption| |].
      * apply lookup_app_l_Some. assumption.
      * intros y c Hin. apply in_app_iff in Hin. destruct Hin as [Hin|[[= <- <-]|[]]].
        -- apply Hpre in Hin. assumption.
        -- split; [assumption|]. intros _.
           rewrite map_app, map_app in Hs.
           apply StronglySorted_app_1_l in Hs. simpl in Hs.
           enough (bkey < y0)%Z by lia.
           eapply (StronglySorted_app_1_elem_of _ _ _ _ _ Hs).
           ++ apply list_elem_of_In, in_map_iff. exists (bkey, b). split; [reflexivity|].
              apply list_elem_of_In. eapply list_elem_of_lookup_2. eassumption.
           ++ apply list_elem_of_In. left. reflexivity.
Qed.

(** C4 at the level of one vote. *)
Lemma majority_label_spec (labels : list Z) (b : Z) :
  majority_label labels = Ok b -> most_frequent_smallest labels b.
Proof.
  unfold majority_label, Np.unique_counts. intros H. inv_bind H. rename a into i.
  destruct (unique_table labels) as [Hs Hp].
  remember (fold_right Np.tally [] labels) as t eqn:Et.
  destruct t as [|[y0 c0] t]; simpl in Ha; [discriminate|].
  injection Ha as <-.
  destruct (argmax_from_table t [(y0, c0)] 0 y0 c0) as (key & v & Hl & Hopt).
  { assumption. }
  { reflexivity. }
  { intros y c [[= <- <-]|[]]. split; lia. }
  simpl length in Hl. change ([(y0, c0)] ++ t) with ((y0, c0) :: t) in *.
  unfold at_index in H. rewrite list_lookup_fmap in H.
  rewrite Hl in H. simpl in H.
  injection H as <-.
  assert (Hin : In (key, v) ((y0, c0) :: t))
    by (apply list_elem_of_In; eapply list_elem_of_lookup_2; eassumption).
  assert (Hv : list_count labels key = v).
  { rewrite <- count_in_unique, <- Et. apply count_in_present; assumption. }
  assert (Hvpos : 0 < v).
  { rewrite Forall_forall in Hp. apply list_elem_of_In, Hp in Hin. assumption. }
  split.
  - unfold list_count in Hv. apply (count_occ_In Z.eq_dec). lia.
  - intros l. rewrite Hv.
    destruct (Nat.eq_dec (list_count labels l) 0) as [E0|Hpos]; [lia|].
    destruct (count_in_found ((y0, c0) :: t) l) as [c Hc].
    { rewrite Et, count_in_unique. lia. }
    assert (c = list_count labels l) as ->.
    { rewrite <- count_in_unique, <- Et. symmetry. apply count_in_present; assumption. }
    apply Hopt. assumption.
Qed.

Lemma majority_label_returns (labels : list Z) :
  labels <> [] -> returns (majority_label labels).
Proof.
  intros Hne. unfold majority_label, Np.unique_counts, returns.
  destruct (unique_table labels) as [Hs Hp].
  remember (fold_right Np.tally [] labels) as t eqn:Et.
  destruct t as [|[y0 c0] t].
  - destruct labels as [|x labels]; [congruence|]. simpl in Et.
    destruct (fold_right Np.tally [] labels) as [|[x1 c1] t1]; simpl in Et; [discriminate|].
    destruct (x <? x1)%Z; [discriminate|]. destruct (x =? x1)%Z; discriminate.
  - destruct (argmax_from_table t [(y0, c0)] 0 y0 c0) as (key & v & Hl & _).
    { assumption. }
    { reflexivity. }
    { intros y c [[= <- <-]|[]]. split; lia. }
    simpl length in Hl. change ([(y0, c0)] ++ t) with ((y0, c0) :: t) in *.
    change (Np.argmax (map snd ((y0, c0) :: t)))
      with (Ok (A:=nat) (Np.argmax_from 0 c0 1 (map snd t))).
    unfold bind, at_index.
    change (map fst ((y0, c0) :: t)) with (fst <$> ((y0, c0) :: t)).
    rewrite list_lookup_fmap, Hl. simpl. eauto.
Qed.

End Vote.

(** ** The cluster-level consensus *)

Section Consensus.

Local Open Scope nat_scope.

Lemma max_by_from_spec (key : Z -> nat) (l pre : list Z) (best : Z) (jb : nat) :
  pre !! jb = Some best ->
  (forall z, In z pre -> key z <= key best) ->
  (forall j' z, j' < jb -> pre !! j' = Some z -> key z < key best) ->
  exists j,
    (pre ++ l) !! j = Some (max_by_from key best l) /\
    (forall z, In z (pre ++ l) -> key z <= key (max_by_from key best l)) /\
    (forall j' z, j' < j -> (pre ++ l) !! j' = Some z ->
                  key z < key (max_by_from key best l)).
Proof.
  revert pre best jb. induction l as [|x l IH]; intros pre best jb Hb Hle Hlt; simpl.
  - rewrite app_nil_r. eauto.
  - replace (pre ++ x :: l) with ((pre ++ [x]) ++ l) by (rewrite <- app_assoc; reflexivity).
    destruct (Nat.ltb_spec (key best) (key x)) as [Hx|Hx].
    + apply (IH _ _ (length pre)).
      * rewrite lookup_app_r by lia. rewrite Nat.sub_diag. reflexivity.
      * intros z Hz. apply in_app_iff in Hz. destruct Hz as [Hz|[<-|[]]]; [|lia].
        apply Hle in Hz. lia.
      * intros j' z Hj Hz. rewrite lookup_app_l in Hz by assumption.
        apply list_elem_of_lookup_2, list_elem_of_In, Hle in Hz. lia.
    + apply (IH _ _ jb).
      * apply lookup_app_l_Some. assumption.
      * intros z Hz. apply in_app_iff in Hz. destruct Hz as [Hz|[<-|[]]]; auto.
      * intros j' z Hj Hz. apply lookup_lt_Some in Hb.
        rewrite lookup_app_l in Hz by lia. eauto.
Qed.

(** [max(cluster_matches, key=cluster_matches.count)] *)
Lemma py_max_by_count_spec (l : list Z) (w : Z) :
  py_max_by (list_count l) l = Ok w -> first_most_frequent l w.
Proof.
  destruct l as [|x l]; simpl; [discriminate|]. intros [= <-].
  destruct (max_by_from_spec (list_count (x :: l)) l [x] x 0) as (j & Hj & Hle & Hlt).
  - reflexivity.
  - intros z [<-|[]]. lia.
  - intros j' z Hj'. lia.
  - exists j. change ([x] ++ l) with (x :: l) in *.
    split; [assumption|]. split; [|assumption].
    intros z. destruct (in_dec Z.eq_dec z (x :: l)) as [Hin|Hnin]; [apply Hle; assumption|].
    unfold list_count at 1. rewrite (proj1 (count_occ_not_In Z.eq_dec _ _) Hnin). lia.
Qed.

Lemma where_eq_from_spec (a : list Z) (k : Z) (i0 i : nat) :
  In i (Np.where_eq_from i0 a k) <-> exists j, i = i0 + j /\ a !! j = Some k.
Proof.
  revert i0. induction a as [|x a IH]; intros i0; simpl.
  - split; [tauto|]. intros (j & _ & Hj). discriminate.
  - destruct (Z.eqb_spec x k) as [->|Hne]; simpl; rewrite IH; split.
    + intros [<-|(j & -> & Hj)]; [exists 0 | exists (S j)]; split; auto; lia.
    + intros ([|j] & -> & Hj); [left; lia|]. right. exists j. split; [lia|assumption].
    + intros (j & -> & Hj). exists (S j). split; [lia|assumption].
    + intros ([|j] & -> & Hj); simpl in Hj; [congruence|]. exists j. split; [lia|assumption].
Qed.

(** [np.where(labels == k)[0]] lists the events of unit [k]. *)
Lemma where_eq_spec (a : list Z) (k : Z) (i : nat) :
  In i (Np.where_eq a k) <-> a !! i = Some k.
Proof.
  unfold Np.where_eq. rewrite where_eq_from_spec. split.
  - intros (j & -> & Hj). assumption.
  - intros H. exists i. auto.
Qed.

Lemma where_eq_nonempty (a : list Z) (k : Z) :
  In k a -> Np.where_eq a k <> [].
Proof.
  intros Hin. apply list_elem_of_In, list_elem_of_lookup in Hin. destruct Hin as [i Hi].
  apply where_eq_spec in Hi. intros E. rewrite E in Hi. destruct Hi.
Qed.

End Consensus.

Lemma wrap32_int32 (z : Z) : Np.is_int32 z = true -> Np.wrap32 z = z.
Proof.
  unfold Np.is_int32, Np.wrap32. intros H. apply andb_prop in H. destruct H as [H1 H2].
  apply Z.leb_le in H1. apply Z.ltb_lt in H2.
  rewrite Z.mod_small by lia. lia.
Qed.

Lemma at_index_Ok {A : Type} (l : list A) (i : nat) (a : A) :
  at_index l i = Ok a <-> l !! i = Some a.
Proof.
  unfold at_index. destruct (l !! i); split; intros H; try discriminate; congruence.
Qed.

(** The labels gathered for event [i] are the labels at the positions of
    row [i], in the row's order. *)
Lemma neighbor_labels_of_spec (nearest : list (list nat)) (labels : list Z) (i : nat)
    (nl : list Z) :
  neighbor_labels_of nearest labels i = Ok nl <->
  exists row, nearest !! i = Some row /\ Forall2 (fun j l => labels !! j = Some l) row nl.
Proof.
  unfold neighbor_labels_of, Np.take_at. split.
  - intros H. inv_bind H. apply at_index_Ok in Ha. exists a. split; [assumption|].
    apply mapM_Ok_Forall2 in H. eapply Forall2_impl; [eassumption|].
    intros j l Hj. apply at_index_Ok. assumption.
  - intros (row & Hrow & Hall). apply at_index_Ok in Hrow. rewrite Hrow. simpl.
    apply mapM_Ok_Forall2. eapply Forall2_impl; [eassumption|].
    intros j l Hj. apply at_index_Ok. assumption.
Qed.

Lemma event_best_label_spec (nearest : list (list nat)) (labels : list Z) (i : nat) (b : Z) :
  event_best_label nearest labels i = Ok b ->
  exists row nl, nearest !! i = Some row /\
                 Forall2 (fun j l => labels !! j = Some l) row nl /\
                 most_frequent_smallest nl b.
Proof.
  unfold event_best_label. intros H. inv_bind H. rename a into nl.
  apply neighbor_labels_of_spec in Ha. destruct Ha as (row & Hrow & Hall).
  apply majority_label_spec in H. eauto.
Qed.

Lemma event_best_label_in (nearest : list (list nat)) (labels : list Z) (i : nat) (b : Z) :
  event_best_label nearest labels i = Ok b -> In b labels.
Proof.
  intros H. apply event_best_label_spec in H. destruct H as (row & nl & _ & Hall & Hin & _).
  apply list_elem_of_In in Hin.
  destruct (proj1 (list_elem_of_lookup _ _) Hin) as [p Hp].
  destruct (Forall2_lookup_r _ _ _ _ _ Hall Hp) as (j & _ & Hj).
  apply list_elem_of_In. eapply list_elem_of_lookup_2. eassumption.
Qed.

Lemma forallb_int32 (labels : list Z) (b : Z) :
  forallb Np.is_int32 labels = true -> In b labels -> Np.wrap32 b = b.
Proof.
  intros H Hin. apply wrap32_int32. rewrite forallb_forall in H. auto.
Qed.

(** ** The cluster loop *)

Lemma py_setitem_nonneg {A : Type} (l l' : list A) (k : Z) (v : A) :
  0 <= k -> py_setitem l k v = Ok l' ->
  (Z.to_nat k < length l)%nat /\ l' = <[Z.to_nat k := v]> l.
Proof.
  intros Hk. unfold py_setitem. destruct (Z.ltb_spec k 0); [lia|].
  destruct (Z.ltb_spec k 0); [lia|]. simpl.
  destruct (Z.leb_spec (Z.of_nat (length l)) k); [discriminate|].
  intros [= <-]. split; [lia|reflexivity].
Qed.

Lemma py_getitem_nonneg {A : Type} (l : list A) (k : Z) (v : A) :
  0 <= k -> (py_getitem l k = Ok v <-> l !! Z.to_nat k = Some v).
Proof.
  intros Hk. unfold py_getitem. destruct (Z.ltb_spec k 0); [lia|].
  destruct (Z.ltb_spec k 0); [lia|].
  destruct (l !! Z.to_nat k); split; intros H'; try discriminate; congruence.
Qed.

Lemma cluster_step_inv nearest labels_src labels_ref bm ms k bm' ms' :
  0 <= k ->
  cluster_step nearest labels_src labels_ref (bm, ms) k = Ok (bm', ms') ->
  (Np.where_eq labels_src k = [] /\ bm' = bm /\ ms' = ms) \/
  (Np.where_eq labels_src k <> [] /\
   (Z.to_nat k < length bm)%nat /\ (Z.to_nat k < length ms)%nat /\
   exists best score,
     unit_candidate nearest labels_src labels_ref k best score /\
     bm' = <[Z.to_nat k := best]> bm /\ ms' = <[Z.to_nat k := score]> ms).
Proof.
  intros Hk. unfold cluster_step.
  destruct (Np.where_eq labels_src k) as [|i inds] eqn:Einds; simpl.
  - intros [= <- <-]. left. auto.
  - intros H. right. split; [discriminate|].
    inv_bind H. rename a into cm, Ha into Hcm.
    inv_bind H. rename a into w, Ha into Hw.
    inv_bind H. rename a into bm1, Ha into Hbm.
    inv_bind H. rename a into ms1, Ha into Hms.
    injection H as <- <-.
    apply py_setitem_nonneg in Hbm; [|assumption]. destruct Hbm as [Hlb ->].
    apply py_setitem_nonneg in Hms; [|assumption]. destruct Hms as [Hls ->].
    split; [assumption|]. split; [assumption|].
    eexists _, _. split; [|split; reflexivity].
    exists cm, w. unfold cluster_matches_of in Hcm. apply mapM_Ok_Forall2 in Hcm.
    rewrite Einds.
    split; [assumption|]. split; [apply py_max_by_count_spec; assumption|].
    split; reflexivity.
Qed.

Section ClusterLoop.

Variable nearest : list (list nat).
Variables labels_src labels_ref : list Z.

Let step := cluster_step nearest labels_src labels_ref.

Lemma cluster_loop_frame (ks : list Z) :
  forall bm ms bm' ms',
    foldM step ks (bm, ms) = Ok (bm', ms') ->
    Forall (fun k => 0 <= k) ks ->
    length bm' = length bm /\ length ms' = length ms /\
    forall j, ~ In j (map Z.to_nat ks) -> bm' !! j = bm !! j /\ ms' !! j = ms !! j.
Proof.
  induction ks as [|k ks IH]; intros bm ms bm' ms' H Hnn; simpl in H.
  - injection H as <- <-. auto.
  - inversion Hnn as [|? ? Hk Hnn']; subst.
    inv_bind H. destruct a as [bm1 ms1].
    apply cluster_step_inv in Ha; [|assumption].
    destruct (IH _ _ _ _ H Hnn') as (Hl1 & Hl2 & Hfr).
    destruct Ha as [(_ & -> & ->) | (_ & _ & _ & best & score & _ & -> & ->)].
    + split; [assumption|]. split; [assumption|].
      intros j Hj. apply Hfr. simpl in Hj. tauto.
    + rewrite length_insert in Hl1. rewrite length_insert in Hl2.
      split; [assumption|]. split; [assumption|].
      intros j Hj. simpl in Hj. destruct (Hfr j) as [E1 E2]; [tauto|].
      rewrite E1, E2. rewrite !list_lookup_insert_ne by tauto. auto.
Qed.

Lemma cluster_loop_slot (ks : list Z) :
  forall bm ms bm' ms',
    foldM step ks (bm, ms) = Ok (bm', ms') ->
    Forall (fun k => 0 <= k) ks -> NoDup ks ->
    forall k, In k ks ->
      (Np.where_eq labels_src k = [] ->
       bm' !! Z.to_nat k = bm !! Z.to_nat k /\ ms' !! Z.to_nat k = ms !! Z.to_nat k) /\
      (Np.where_eq labels_src k <> [] ->
       exists best score,
         unit_candidate nearest labels_src labels_ref k best score /\
         bm' !! Z.to_nat k = Some best /\ ms' !! Z.to_nat k = Some score).
Proof.
  induction ks as [|k0 ks IH]; intros bm ms bm' ms' H Hnn Hnd k Hin; [destruct Hin|].
  simpl in H. inversion Hnn as [|? ? Hk0 Hnn']; subst.
  apply NoDup_cons in Hnd. destruct Hnd as [Hk0n Hnd].
  inv_bind H. destruct a as [bm1 ms1].
  apply cluster_step_inv in Ha; [|assumption].
  destruct (Z.eq_dec k k0) as [->|Hne].
  - destruct (cluster_loop_frame _ _ _ _ _ H Hnn') as (_ & _ & Hfr).
    destruct (Hfr (Z.to_nat k0)) as [E1 E2].
    { rewrite in_map_iff. intros (k' & Hk' & Hin').
      rewrite Forall_forall in Hnn'. pose proof (Hnn' k' (proj2 (list_elem_of_In _ _) Hin')).
      apply Hk0n, list_elem_of_In. replace k0 with k' by lia. assumption. }
    rewrite E1, E2.
    destruct Ha as [(Hemp & -> & ->) | (Hne & Hlb & Hls & best & score & Hc & -> & ->)].
    + split; [auto|congruence].
    + split; [congruence|]. intros _. exists best, score.
      rewrite !list_lookup_insert_eq by assumption. auto.
  - destruct Hin as [->|Hin]; [congruence|].
    destruct (IH _ _ _ _ H Hnn' Hnd k Hin) as [IH1 IH2].
    assert (Hkk : Z.to_nat k0 <> Z.to_nat k).
    { rewrite Forall_forall in Hnn'. pose proof (Hnn' k (proj2 (list_elem_of_In _ _) Hin)). lia. }
    destruct Ha as [(_ & -> & ->) | (_ & _ & _ & best & score & _ & -> & ->)].
    + split; assumption.
    + rewrite !list_lookup_insert_ne in IH1 by assumption. split; assumption.
Qed.

(** The two arrays after [for k in range(1, max_label + 1)]. *)
Lemma best_matches_loop_spec (max_label : Z) (bm : list Z) (ms : list Q) :
  best_matches_loop nearest labels_src labels_ref max_label = Ok (bm, ms) ->
  0 <= max_label + 1 /\
  length bm = Z.to_nat (max_label + 1) /\ length ms = Z.to_nat (max_label + 1) /\
  (forall k, 1 <= k <= max_label -> Np.where_eq labels_src k <> [] ->
             exists best score,
               unit_candidate nearest labels_src labels_ref k best score /\
               bm !! Z.to_nat k = Some best /\ ms !! Z.to_nat k = Some score) /\
  (forall k, 0 <= k <= max_label -> k = 0 \/ Np.where_eq labels_src k = [] ->
             bm !! Z.to_nat k = Some 0 /\ ms !! Z.to_nat k = Some 0%Q).
Proof.
  unfold best_matches_loop, Np.zeros. intros H.
  destruct (Z.ltb_spec (max_label + 1) 0) as [|Hm]; [discriminate|]. simpl in H.
  assert (Hnn : Forall (fun k => 0 <= k) (py_range 1 (max_label + 1))).
  { apply Forall_forall. intros k Hk. apply elem_of_seqZ in Hk. lia. }
  assert (Hnd : NoDup (py_range 1 (max_label + 1))) by apply NoDup_seqZ.
  fold step in H.
  destruct (cluster_loop_frame _ _ _ _ _ H Hnn) as (Hl1 & Hl2 & Hfr).
  rewrite length_replicate in Hl1. rewrite length_replicate in Hl2.
  split; [assumption|]. split; [assumption|]. split; [assumption|]. split.
  - intros k Hk Hne.
    apply (cluster_loop_slot _ _ _ _ _ H Hnn Hnd k); [|assumption].
    apply list_elem_of_In, elem_of_seqZ. lia.
  - intros k Hk Hcase.
    assert (Hz : replicate (Z.to_nat (max_label + 1)) 0 !! Z.to_nat k = Some 0 /\
                 replicate (Z.to_nat (max_label + 1)) 0%Q !! Z.to_nat k = Some 0%Q).
    { split; apply lookup_replicate_2; lia. }
    destruct (Z.eq_dec k 0) as [->|Hk0].
    + destruct (Hfr (Z.to_nat 0)) as [E1 E2]; [|rewrite E1, E2; assumption].
      rewrite in_map_iff. intros (k' & Hk' & Hin').
      apply list_elem_of_In, elem_of_seqZ in Hin'. lia.
    + destruct Hcase as [->|Hemp]; [congruence|].
      destruct (cluster_loop_slot _ _ _ _ _ H Hnn Hnd k) as [Hs _].
      { apply list_elem_of_In, elem_of_seqZ. lia. }
      destruct (Hs Hemp) as [E1 E2]. rewrite E1, E2. assumption.
Qed.

End ClusterLoop.

(** ** The mutual-match loop *)

Lemma best_match_getitem (arr : list Z) (k v : Z) :
  0 <= k -> (py_getitem arr k = Ok v <-> best_match arr k = Some v).
Proof.
  intros Hk. rewrite py_getitem_nonneg by assumption.
  unfold best_match. destruct (Z.ltb_spec k 0); [lia|]. reflexivity.
Qed.

Lemma match_score_getitem (arr : list Q) (k : Z) (v : Q) :
  0 <= k -> (py_getitem arr k = Ok v <-> match_score arr k = Some v).
Proof.
  intros Hk. rewrite py_getitem_nonneg by assumption.
  unfold match_score. destruct (Z.ltb_spec k 0); [lia|]. reflexivity.
Qed.

Section MutualLoop.

Variables (bxy : list Z) (sxy : list Q) (byx : list Z) (syx : list Q).

Let step := mutual_step bxy sxy byx syx.

Lemma mutual_step_inv (acc acc' : list mutual_match) (kx : Z) :
  1 <= kx -> step acc kx = Ok acc' ->
  (acc' = acc /\
   forall ky, best_match bxy kx = Some ky -> 0 < ky -> best_match byx ky = Some kx -> False)
  \/ (exists m, acc' = acc ++ [m] /\ mutual_pair bxy sxy byx syx kx m).
Proof.
  intros Hkx. unfold step, mutual_step. intros H.
  inv_bind H. rename a into ky.
  apply best_match_getitem in Ha; [|lia].
  destruct (Z.ltb_spec 0 ky) as [Hky|Hky].
  - inv_bind H. rename a into back. apply best_match_getitem in Ha0; [|lia].
    destruct (Z.eqb_spec back kx) as [->|Hne].
    + inv_bind H. inv_bind H. injection H as <-.
      apply match_score_getitem in Ha1; [|lia].
      apply match_score_getitem in Ha2; [|lia].
      right. eexists. split; [reflexivity|]. exists ky, a, a0. auto 10.
    + injection H as <-. left. split; [reflexivity|].
      intros ky' E1 _ E2. congruence.
  - injection H as <-. left. split; [reflexivity|].
    intros ky' E1 Hpos _. assert (ky' = ky) by congruence. lia.
Qed.

Lemma mutual_loop_spec (ks : list Z) :
  forall acc mm,
    foldM step ks acc = Ok mm ->
    Forall (fun k => 1 <= k) ks ->
    (forall m, In m mm ->
               In m acc \/ exists kx, In kx ks /\ mutual_pair bxy sxy byx syx kx m) /\
    (forall m, In m acc -> In m mm) /\
    (forall kx ky, In kx ks -> best_match bxy kx = Some ky -> 0 < ky ->
                   best_match byx ky = Some kx ->
                   exists m, In m mm /\ mutual_pair bxy sxy byx syx kx m).
Proof.
  induction ks as [|k ks IH]; intros acc mm H Hge; simpl in H.
  - injection H as <-. split; [auto|]. split; [auto|]. intros kx ky [].
  - inversion Hge as [|? ? Hk Hge']; subst.
    inv_bind H. rename a into acc1.
    destruct (IH _ _ H Hge') as (IH1 & IH2 & IH3).
    apply mutual_step_inv in Ha; [|assumption].
    destruct Ha as [[-> Hno] | (m0 & -> & Hm0)].
    + split; [|split; [assumption|]].
      * intros m Hm. destruct (IH1 m Hm) as [?|(kx & ? & ?)]; [auto|].
        right. exists kx. split; [right|]; assumption.
      * intros kx ky [<-|Hin] E1 Hpos E2; [destruct (Hno ky E1 Hpos E2)|]. eauto.
    + split; [|split].
      * intros m Hm. destruct (IH1 m Hm) as [Hacc|(kx & ? & ?)].
        -- apply in_app_iff in Hacc. destruct Hacc as [?|[<-|[]]]; [auto|].
           right. exists k. split; [left; reflexivity|assumption].
        -- right. exists kx. split; [right|]; assumption.
      * intros m Hm. apply IH2, in_app_iff. auto.
      * intros kx ky [<-|Hin] E1 Hpos E2; [|eauto].
        exists m0. split; [|assumption]. apply IH2, in_app_iff. right. left. reflexivity.
Qed.

End MutualLoop.

(** ** The event-level arrays *)

Lemma event_matches_spec (nearest : list (list nat)) (labels_src labels_ref ev : list Z) :
  event_matches nearest labels_src labels_ref = Ok ev ->
  length ev = length labels_src /\
  forall i, (i < length labels_src)%nat ->
            exists b, event_best_label nearest labels_ref i = Ok b /\
                      ev !! i = Some (Np.wrap32 b).
Proof.
  unfold event_matches. intros H. apply mapM_Ok_Forall2 in H.
  split.
  - apply Forall2_length in H. rewrite length_seq in H. auto.
  - intros i Hi.
    destruct (Forall2_lookup_l _ _ _ i i H) as (v & Hv & Hb).
    { apply lookup_seq. auto. }
    inv_bind Hb. injection Hb as <-. eauto.
Qed.

Lemma votes_for_best_label (nearest : list (list nat)) (labels_ref : list Z) (i : nat) (b : Z) :
  event_best_label nearest labels_ref i = Ok b -> votes_for nearest labels_ref i b.
Proof. apply event_best_label_spec. Qed.

(** ** [compute_unit_matches], step by step *)

Lemma compute_unit_matches_inv kneighbors frames_x labels_x frames_y labels_y n_neighbors out :
  compute_unit_matches kneighbors frames_x labels_x frames_y labels_y n_neighbors = Ok out ->
  exists nearest_y_to_x nearest_x_to_y max_label_y max_label_x byx syx bxy sxy,
    kneighbors frames_x frames_y n_neighbors = Ok nearest_y_to_x /\
    kneighbors frames_y frames_x n_neighbors = Ok nearest_x_to_y /\
    Np.max labels_y = Ok max_label_y /\
    best_matches_loop nearest_y_to_x labels_y labels_x max_label_y = Ok (byx, syx) /\
    Np.max labels_x = Ok max_label_x /\
    best_matches_loop nearest_x_to_y labels_x labels_y max_label_x = Ok (bxy, sxy) /\
    find_mutual_matches bxy sxy byx syx max_label_x = Ok (mutual_matches out) /\
    event_matches nearest_x_to_y labels_x labels_y = Ok (event_matches_x_to_y out) /\
    event_matches nearest_y_to_x labels_y labels_x = Ok (event_matches_y_to_x out).
Proof.
  unfold compute_unit_matches, nearest_neighbors. intros H.
  inv_bind H. rename a into nyx. inv_bind Ha. injection Ha as ->.
  inv_bind H. rename a into nxy. inv_bind Ha. injection Ha as ->.
  inv_bind H. rename a into my.
  inv_bind H. destruct a as [byx syx].
  inv_bind H. rename a into mx.
  inv_bind H. destruct a as [bxy sxy].
  inv_bind H. inv_bind H. inv_bind H. injection H as <-. simpl.
  exists nyx, nxy, my, mx, byx, syx, bxy, sxy. auto 12.
Qed.

Lemma nearest_neighbors_eq kneighbors data1 data2 n_neighbors :
  nearest_neighbors kneighbors data1 data2 n_neighbors = kneighbors data1 data2 n_neighbors.
Proof. unfold nearest_neighbors. destruct (kneighbors data1 data2 n_neighbors); reflexivity. Qed.

Lemma np_max_spec (a : list Z) (m : Z) :
  Np.max a = Ok m -> In m a /\ forall x, In x a -> x <= m.
Proof.
  destruct a as [|x a]; simpl; [discriminate|]. intros [= <-].
  revert x. induction a as [|y a IH]; intros x; simpl.
  - split; [auto|]. intros z [<-|[]]. lia.
  - destruct (IH (Z.max x y)) as [Hin Hmax]. split.
    + destruct Hin as [E|Hin]; [|simpl; auto].
      destruct (Z.max_spec x y) as [[_ E']|[_ E']]; rewrite E' in *; simpl; auto.
    + intros z [E|[E|Hz]].
      * specialize (Hmax (Z.max x y) (or_introl eq_refl)). lia.
      * specialize (Hmax (Z.max x y) (or_introl eq_refl)). lia.
      * apply Hmax. right. assumption.
Qed.

(** *** Claims about the matcher *)

(** C5.  For a unit [k > 0] with at least one event, the cluster loop
    records as best match the most frequent of the per-event best labels of
    the unit's events, the first one met in event order among the most
    frequent, and as score the number of the unit's events that voted for
    it divided by the number of the unit's events.  The statement covers
    both directions: [labels_src] is the recording of the unit. *)
Theorem cluster_level_consensus nearest labels_src labels_ref max_label bm ms k :
  Np.max labels_src = Ok max_label ->
  best_matches_loop nearest labels_src labels_ref max_label = Ok (bm, ms) ->
  0 < k -> In k labels_src ->
  exists cm w,
    Forall2 (fun i v => labels_src !! i = Some k /\ votes_for nearest labels_ref i v)
            (Np.where_eq labels_src k) cm /\
    (forall i, labels_src !! i = Some k -> In i (Np.where_eq labels_src k)) /\
    first_most_frequent cm w /\
    best_match bm k = Some (Np.wrap32 w) /\
    (forallb Np.is_int32 labels_ref = true -> Np.wrap32 w = w) /\
    match_score ms k
    = Some (inject_Z (Z.of_nat (list_count cm w)) / inject_Z (Z.of_nat (length cm)))%Q.
Proof.
  intros Hmax Hloop Hk Hin.
  apply np_max_spec in Hmax. destruct Hmax as [_ Hmax].
  apply best_matches_loop_spec in Hloop. destruct Hloop as (_ & _ & _ & Hslot & _).
  destruct (Hslot k) as (best & score & (cm & w & Hcm & Hw & -> & ->) & Hb & Hs).
  { split; [lia|auto]. }
  { apply where_eq_nonempty. assumption. }
  exists cm, w. pose proof Hcm as Hcm'. split.
  { apply Forall2_same_length_lookup. split; [eapply Forall2_length; eassumption|].
    intros j i v Hi Hv. split.
    - apply where_eq_spec, list_elem_of_In. eapply list_elem_of_lookup_2. eassumption.
    - apply votes_for_best_label.
      apply Forall2_same_length_lookup in Hcm. destruct Hcm as [_ Hcm]. eauto. }
  split; [intros i; apply where_eq_spec|].
  split; [assumption|].
  unfold best_match, match_score. destruct (Z.ltb_spec k 0); [lia|].
  split; [assumption|]. split.
  - intros Hint. eapply forallb_int32; [eassumption|].
    destruct Hw as (j & Hj & _).
    destruct (Forall2_lookup_r _ _ _ _ _ Hcm' Hj) as (i & _ & Hi).
    eapply event_best_label_in. eassumption.
  - rewrite (Forall2_length _ _ _ Hcm') in Hs. assumption.
Qed.

Lemma cluster_level_consensus_witness :
  exists cm w,
    Forall2 (fun i v => Recordings.labels !! i = Some 2 /\
                        votes_for [[0%nat]; [1%nat]; [2%nat]] Recordings.labels i v)
            (Np.where_eq Recordings.labels 2) cm /\
    (forall i, Recordings.labels !! i = Some 2 -> In i (Np.where_eq Recordings.labels 2)) /\
    first_most_frequent cm w /\
    best_match [0; 1; 2] 2 = Some (Np.wrap32 w) /\
    (forallb Np.is_int32 Recordings.labels = true -> Np.wrap32 w = w) /\
    match_score [0%Q; 1%Q; (2 # 2)%Q] 2
    = Some (inject_Z (Z.of_nat (list_count cm w)) / inject_Z (Z.of_nat (length cm)))%Q.
Proof.
  apply (cluster_level_consensus [[0%nat]; [1%nat]; [2%nat]]
           Recordings.labels Recordings.labels 2).
  - reflexivity.
  - vm_compute. reflexivity.
  - lia.
  - simpl. auto.
Defined.

Lemma find_mutual_matches_spec bxy sxy byx syx max_label_x mm :
  find_mutual_matches bxy sxy byx syx max_label_x = Ok mm ->
  (forall m, In m mm ->
             exists kx, 1 <= kx <= max_label_x /\ mutual_pair bxy sxy byx syx kx m) /\
  (forall kx ky, 1 <= kx <= max_label_x ->
                 best_match bxy kx = Some ky -> 0 < ky -> best_match byx ky = Some kx ->
                 exists m, In m mm /\ mutual_pair bxy sxy byx syx kx m).
Proof.
  unfold find_mutual_matches. intros H.
  apply mutual_loop_spec in H.
  - destruct H as (H1 & _ & H3). split.
    + intros m Hm. destruct (H1 m Hm) as [[]|(kx & Hkx & Hp)].
      exists kx. split; [|assumption]. apply list_elem_of_In, elem_of_seqZ in Hkx. lia.
    + intros kx ky Hkx. apply H3. apply list_elem_of_In, elem_of_seqZ. lia.
  - apply Forall_forall. intros k Hk. apply elem_of_seqZ in Hk. lia.
Qed.

(** C6.  A pair ([kx], [ky]) is in [mutual_matches] exactly when the best
    match recorded for [kx] is [ky], the best match recorded for [ky] is
    [kx], and [ky > 0]; both units of an emitted pair are positive, its two
    scores are the ones recorded for them, and its overall score is their
    arithmetic mean. *)
Theorem mutual_matches_characterised kneighbors frames_x labels_x frames_y labels_y
    n_neighbors out :
  compute_unit_matches kneighbors frames_x labels_x frames_y labels_y n_neighbors = Ok out ->
  exists nearest_y_to_x nearest_x_to_y max_label_y max_label_x
         best_matches_y_to_x match_scores_y_to_x best_matches_x_to_y match_scores_x_to_y,
    nearest_neighbors kneighbors frames_x frames_y n_neighbors = Ok nearest_y_to_x /\
    nearest_neighbors kneighbors frames_y frames_x n_neighbors = Ok nearest_x_to_y /\
    Np.max labels_y = Ok max_label_y /\
    Np.max labels_x = Ok max_label_x /\
    best_matches_loop nearest_y_to_x labels_y labels_x max_label_y
    = Ok (best_matches_y_to_x, match_scores_y_to_x) /\
    best_matches_loop nearest_x_to_y labels_x labels_y max_label_x
    = Ok (best_matches_x_to_y, match_scores_x_to_y) /\
    (forall kx ky,
        (exists m, In m (mutual_matches out) /\ unit_x m = kx /\ unit_y m = ky) <->
        (best_match best_matches_x_to_y kx = Some ky /\
         best_match best_matches_y_to_x ky = Some kx /\ 0 < ky)) /\
    (forall m, In m (mutual_matches out) ->
        0 < unit_x m /\ 0 < unit_y m /\
        match_score match_scores_x_to_y (unit_x m) = Some (score_x_to_y m) /\
        match_score match_scores_y_to_x (unit_y m) = Some (score_y_to_x m) /\
        overall_score m = ((score_x_to_y m + score_y_to_x m) / 2)%Q).
Proof.
  intros H. apply compute_unit_matches_inv in H.
  destruct H as (nyx & nxy & my & mx & byx & syx & bxy & sxy &
                 Hnyx & Hnxy & Hmy & Hly & Hmx & Hlx & Hmut & _ & _).
  exists nyx, nxy, my, mx, byx, syx, bxy, sxy. rewrite !nearest_neighbors_eq.
  repeat (split; [assumption|]).
  apply find_mutual_matches_spec in Hmut. destruct Hmut as [Hm1 Hm2].
  split.
  - intros kx ky. split.
    + intros (m & Hm & <- & <-).
      destruct (Hm1 m Hm) as (kx & Hkx & ky & s1 & s2 & E1 & Hpos & E2 & _ & _ & ->).
      simpl. auto.
    + intros (E1 & E2 & Hpos).
      assert (Hkx : 1 <= kx <= mx).
      { apply (best_matches_loop_spec nxy labels_x labels_y) in Hlx.
        destruct Hlx as (Hmx0 & Hlen & _ & _ & Hzero).
        unfold best_match in E1. destruct (Z.ltb_spec kx 0); [discriminate|].
        pose proof (lookup_lt_Some _ _ _ E1) as Hlt. rewrite Hlen in Hlt.
        destruct (Z.eq_dec kx 0) as [->|Hne]; [|lia].
        destruct (Hzero 0) as [E0 _]; [lia|auto|].
        rewrite E0 in E1. injection E1 as <-. lia. }
      destruct (Hm2 kx ky Hkx E1 Hpos E2) as (m & Hm & ky' & s1 & s2 & E1' & _ & _ & _ & _ & ->).
      exists {| unit_x := kx; unit_y := ky'; score_x_to_y := s1; score_y_to_x := s2;
                overall_score := ((s1 + s2) / 2)%Q |}.
      simpl. split; [assumption|]. split; [reflexivity|congruence].
  - intros m Hm.
    destruct (Hm1 m Hm) as (kx & Hkx & ky & s1 & s2 & E1 & Hpos & E2 & Es1 & Es2 & ->).
    simpl. split; [lia|]. auto.
Qed.

Lemma mutual_matches_characterised_witness :
  exists nearest_y_to_x nearest_x_to_y max_label_y max_label_x
         best_matches_y_to_x match_scores_y_to_x best_matches_x_to_y match_scores_x_to_y,
    nearest_neighbors Sklearn.sk_kneighbors Recordings.frames Recordings.frames 1
    = Ok nearest_y_to_x /\
    nearest_neighbors Sklearn.sk_kneighbors Recordings.frames Recordings.frames 1
    = Ok nearest_x_to_y /\
    Np.max Recordings.labels = Ok max_label_y /\
    Np.max Recordings.labels = Ok max_label_x /\
    best_matches_loop nearest_y_to_x Recordings.labels Recordings.labels max_label_y
    = Ok (best_matches_y_to_x, match_scores_y_to_x) /\
    best_matches_loop nearest_x_to_y Recordings.labels Recordings.labels max_label_x
    = Ok (best_matches_x_to_y, match_scores_x_to_y) /\
    (forall kx ky,
        (exists m, In m (mutual_matches Recordings.copy_k1) /\ unit_x m = kx /\ unit_y m = ky) <->
        (best_match best_matches_x_to_y kx = Some ky /\
         best_match best_matches_y_to_x ky = Some kx /\ 0 < ky)) /\
    (forall m, In m (mutual_matches Recordings.copy_k1) ->
        0 < unit_x m /\ 0 < unit_y m /\
        match_score match_scores_x_to_y (unit_x m) = Some (score_x_to_y m) /\
        match_score match_scores_y_to_x (unit_y m) = Some (score_y_to_x m) /\
        overall_score m = ((score_x_to_y m + score_y_to_x m) / 2)%Q).
Proof.
  apply (mutual_matches_characterised Sklearn.sk_kneighbors
           Recordings.frames Recordings.labels Recordings.frames Recordings.labels 1).
  vm_compute. reflexivity.
Defined.

(** ** The model of the library's neighbor search *)

Section SklearnModel.

Import Sklearn.

Lemma insert_by_dist_perm (d : Z) (j : nat) (l : list (Z * nat)) :
  map snd (insert_by_dist d j l) ≡ₚ j :: map snd l.
Proof.
  induction l as [|[d' j'] l IH]; simpl; [reflexivity|].
  destruct (d <=? d'); simpl; [reflexivity|].
  rewrite IH. apply Permutation_swap.
Qed.

Lemma by_distance_from_perm (data1 : list frame) (q : frame) (j : nat) :
  map snd (by_distance_from j data1 q) ≡ₚ seq j (length data1).
Proof.
  revert j. induction data1 as [|p data1 IH]; intros j; simpl; [reflexivity|].
  rewrite insert_by_dist_perm, IH. reflexivity.
Qed.

Lemma nearest_order_perm (data1 : list frame) (q : frame) :
  nearest_order data1 q ≡ₚ seq 0 (length data1).
Proof. apply by_distance_from_perm. Qed.

Lemma insert_by_dist_sorted (d : Z) (j : nat) (l : list (Z * nat)) :
  StronglySorted Z.le (map fst l) -> StronglySorted Z.le (map fst (insert_by_dist d j l)).
Proof.
  induction l as [|[d' j'] l IH]; simpl; intros Hs; [repeat constructor|].
  apply StronglySorted_inv in Hs. destruct Hs as [Hs Hall].
  destruct (Z.leb_spec d d'); simpl.
  - constructor; [constructor; assumption|].
    constructor; [assumption|]. eapply Forall_impl; [eassumption|]. simpl. intros; lia.
  - constructor; [auto|].
    assert (Hin : forall x, In x (map fst (insert_by_dist d j l)) -> x = d \/ In x (map fst l)).
    { clear. induction l as [|[d1 j1] l IH]; simpl; intros x.
      - intros [<-|[]]. left. reflexivity.
      - destruct (d <=? d1); simpl.
        + intros [<-|Hx]; auto.
        + intros [<-|Hx]; [auto|]. destruct (IH x Hx); auto. }
    rewrite Forall_forall in Hall |- *. intros x Hx.
    apply list_elem_of_In, Hin in Hx. destruct Hx as [->|Hx]; [lia|].
    apply Hall, list_elem_of_In. assumption.
Qed.

(** The order of a row is by distance to the query, nearest first. *)
Lemma by_distance_from_sorted (data1 : list frame) (q : frame) (j : nat) :
  StronglySorted Z.le (map fst (by_distance_from j data1 q)).
Proof.
  revert j. induction data1 as [|p data1 IH]; intros j; simpl; [constructor|].
  apply insert_by_dist_sorted, IH.
Qed.

Lemma sk_kneighbors_Ok_inv (data1 data2 : list frame) (n_neighbors : Z) rows :
  sk_kneighbors data1 data2 n_neighbors = Ok rows ->
  1 <= n_neighbors <= Z.of_nat (length data1) /\
  rows = map (fun q => take (Z.to_nat n_neighbors) (nearest_order data1 q)) data2.
Proof.
  unfold sk_kneighbors. destruct data1 as [|p data1]; [discriminate|].
  destruct data2 as [|q data2]; [discriminate|].
  destruct (length p =? 0)%nat; [discriminate|].
  destruct (negb _); [discriminate|].
  destruct (Z.leb_spec n_neighbors 0); [discriminate|].
  destruct (Z.ltb_spec (Z.of_nat (length (p :: data1))) n_neighbors); [discriminate|].
  intros [= <-]. split; [lia|reflexivity].
Qed.

Lemma sk_kneighbors_raises (data1 data2 : list frame) (n_neighbors : Z) (e : exn) :
  sk_kneighbors data1 data2 n_neighbors = Raise e -> e = ValueError.
Proof.
  unfold sk_kneighbors. destruct data1 as [|p data1]; [congruence|].
  destruct data2 as [|q data2]; [congruence|].
  destruct (length p =? 0)%nat; [congruence|].
  destruct (negb _); [congruence|].
  destruct (n_neighbors <=? 0); [congruence|].
  destruct (Z.of_nat (length (p :: data1)) <? n_neighbors); [congruence|discriminate].
Qed.

(** No clamping in the library either: more neighbors than reference
    events is rejected. *)
Lemma sk_kneighbors_too_many (data1 data2 : list frame) (n_neighbors : Z) :
  Z.of_nat (length data1) < n_neighbors ->
  sk_kneighbors data1 data2 n_neighbors = Raise ValueError.
Proof.
  intros Hk. destruct (sk_kneighbors data1 data2 n_neighbors) as [rows|e] eqn:E.
  - apply sk_kneighbors_Ok_inv in E. lia.
  - apply sk_kneighbors_raises in E. congruence.
Qed.

Lemma sk_kneighbors_rows_ok (data1 data2 : list frame) (n_neighbors : Z) rows :
  sk_kneighbors data1 data2 n_neighbors = Ok rows ->
  rows_ok (length data1) (length data2) rows = true.
Proof.
  intros H. apply sk_kneighbors_Ok_inv in H. destruct H as [Hk ->].
  unfold rows_ok. apply andb_true_intro. split.
  - rewrite length_map. apply Nat.eqb_refl.
  - apply forallb_forall. intros row Hrow. apply in_map_iff in Hrow.
    destruct Hrow as (q & <- & _).
    pose proof (nearest_order_perm data1 q) as Hperm.
    apply andb_true_intro. split.
    + rewrite length_take, (Permutation_length Hperm), length_seq.
      apply negb_true_iff, Nat.eqb_neq. lia.
    + apply forallb_forall. intros j Hj. apply Nat.ltb_lt.
      apply list_elem_of_In, elem_of_take in Hj. destruct Hj as (i & Hi & _).
      apply list_elem_of_lookup_2 in Hi. rewrite Hperm in Hi.
      apply elem_of_seq in Hi. lia.
Qed.

Lemma insert_by_dist_In (d : Z) (j : nat) (l : list (Z * nat)) (x : Z * nat) :
  In x (insert_by_dist d j l) -> x = (d, j) \/ In x l.
Proof.
  induction l as [|[d' j'] l IH]; simpl.
  - intros [<-|[]]. left. reflexivity.
  - destruct (d <=? d'); simpl.
    + intros [<-|H]; auto.
    + intros [<-|H]; [auto|]. destruct (IH H); auto.
Qed.

(** Every entry of the distance table is an event of [data1] with its
    squared distance to the query. *)
Lemma by_distance_from_entries (data1 : list frame) (q : frame) (j0 : nat) (d : Z) (j : nat) :
  In (d, j) (by_distance_from j0 data1 q) ->
  exists p, (j0 <= j)%nat /\ data1 !! (j - j0)%nat = Some p /\ d = sq_dist p q.
Proof.
  revert j0. induction data1 as [|p data1 IH]; intros j0; simpl; [intros []|].
  intros H. apply insert_by_dist_In in H. destruct H as [E|H].
  - injection E as -> ->. exists p. rewrite Nat.sub_diag. auto.
  - destruct (IH _ H) as (p' & Hj & Hp & Hd). exists p'.
    split; [lia|]. split; [|assumption].
    replace (j - j0)%nat with (S (j - S j0)) by lia. exact Hp.
Qed.

(** The rows the search returns are the [n_neighbors] nearest reference
    events of each query. *)
Lemma sk_rows_k_nearest (data1 data2 : list frame) (n_neighbors : Z) rows :
  sk_kneighbors data1 data2 n_neighbors = Ok rows ->
  length rows = length data2 /\
  forall i q, data2 !! i = Some q ->
    exists row, rows !! i = Some row /\ k_nearest data1 q n_neighbors row.
Proof.
  intros H. apply sk_kneighbors_Ok_inv in H. destruct H as [Hk ->].
  split; [apply length_map|]. intros i q Hq.
  exists (take (Z.to_nat n_neighbors) (nearest_order data1 q)). split.
  { change (map ?f ?l) with (f <$> l). rewrite list_lookup_fmap, Hq. reflexivity. }
  pose proof (nearest_order_perm data1 q) as Hperm.
  assert (Hnd : NoDup (nearest_order data1 q)).
  { rewrite Hperm. apply NoDup_seq. }
  set (K := Z.to_nat n_neighbors).
  set (L := by_distance_from 0 data1 q).
  assert (Hsplit : L = take K L ++ drop K L) by (symmetry; apply take_drop).
  assert (Htake : take K (nearest_order data1 q) = map snd (take K L)).
  { unfold nearest_order. apply firstn_map. }
  assert (Hdrop : drop K (nearest_order data1 q) = map snd (drop K L)).
  { unfold nearest_order. apply skipn_map. }
  split; [|split; [|split]].
  - rewrite length_take, (Permutation_length Hperm), length_seq. lia.
  - eapply sublist_NoDup; [eassumption|apply sublist_take].
  - intros j Hj. apply lookup_lt_is_Some.
    apply list_elem_of_In, elem_of_take in Hj. destruct Hj as (n & Hn & _).
    apply list_elem_of_lookup_2 in Hn. rewrite Hperm in Hn.
    apply elem_of_seq in Hn. lia.
  - intros j j' p p' Hj Hj' Hp Hp'.
    rewrite Htake in Hj. apply in_map_iff in Hj. destruct Hj as ([d j1] & Ej & Hin).
    simpl in Ej. subst j1.
    assert (Hin' : In j' (drop K (nearest_order data1 q))).
    { assert (Hall : In j' (nearest_order data1 q)).
      { apply list_elem_of_In. rewrite Hperm. apply elem_of_seq.
        apply lookup_lt_Some in Hp'. lia. }
      rewrite <- (take_drop K (nearest_order data1 q)) in Hall.
      apply in_app_iff in Hall. destruct Hall; [contradiction|assumption]. }
    rewrite Hdrop in Hin'. apply in_map_iff in Hin'. destruct Hin' as ([d' j1] & Ej & Hin').
    simpl in Ej. subst j1.
    assert (Hle : d <= d').
    { pose proof (by_distance_from_sorted data1 q 0) as Hs. fold L in Hs.
      rewrite Hsplit, map_app in Hs.
      apply (StronglySorted_app_1_elem_of Z.le _ _ d d' Hs).
      - apply list_elem_of_In. apply (in_map fst _ _ Hin).
      - apply list_elem_of_In. apply (in_map fst _ _ Hin'). }
    assert (Hd : d = sq_dist p q).
    { destruct (by_distance_from_entries data1 q 0 d j) as (p0 & _ & Hp0 & ->).
      - fold L. rewrite Hsplit. apply in_app_iff. left. assumption.
      - rewrite Nat.sub_0_r in Hp0. congruence. }
    assert (Hd' : d' = sq_dist p' q).
    { destruct (by_distance_from_entries data1 q 0 d' j') as (p0 & _ & Hp0 & ->).
      - fold L. rewrite Hsplit. apply in_app_iff. right. assumption.
      - rewrite Nat.sub_0_r in Hp0. congruence. }
    lia.
Qed.

(** A vote taken over the rows of the search is a vote among the nearest
    reference events of the voting event. *)
Lemma sk_event_vote (data_ref data_q : list frame) (labels_ref : list Z)
    (n_neighbors : Z) rows (i : nat) (b : Z) :
  sk_kneighbors data_ref data_q n_neighbors = Ok rows ->
  event_best_label rows labels_ref i = Ok b ->
  exists q row nl,
    data_q !! i = Some q /\ rows !! i = Some row /\
    k_nearest data_ref q n_neighbors row /\
    Forall2 (fun j l => labels_ref !! j = Some l) row nl /\
    most_frequent_smallest nl b.
Proof.
  intros Hsk Hb. apply event_best_label_spec in Hb.
  destruct Hb as (row & nl & Hrow & Hnl & Hvote).
  apply sk_rows_k_nearest in Hsk. destruct Hsk as [Hlen Hrows].
  destruct (lookup_lt_is_Some_2 data_q i) as [q Hq].
  { rewrite <- Hlen. eapply lookup_lt_Some. eassumption. }
  destruct (Hrows i q Hq) as (row' & Hrow' & Hnear).
  assert (row' = row) as -> by congruence.
  exists q, row, nl. auto.
Qed.

End SklearnModel.

(** ** The event-level votes *)

Lemma most_frequent_smallest_unique (labels : list Z) (b b' : Z) :
  most_frequent_smallest labels b -> most_frequent_smallest labels b' -> b = b'.
Proof.
  intros (_ & Hb) (_ & Hb').
  destruct (Hb b') as [L1 T1]. destruct (Hb' b) as [L2 T2].
  assert (E : list_count labels b = list_count labels b') by lia.
  specialize (T1 (eq_sym E)). specialize (T2 E). lia.
Qed.

(** The slots of an event-level array, for any neighbor search. *)
Lemma event_slots_voted (nearest : list (list nat)) (labels_src labels_ref ev : list Z) :
  event_matches nearest labels_src labels_ref = Ok ev ->
  length ev = length labels_src /\
  forall i, (i < length labels_src)%nat ->
    exists row nl b,
      nearest !! i = Some row /\
      Forall2 (fun j l => labels_ref !! j = Some l) row nl /\
      most_frequent_smallest nl b /\
      event_best_label nearest labels_ref i = Ok b /\
      ev !! i = Some (Np.wrap32 b).
Proof.
  intros H. apply event_matches_spec in H. destruct H as [Hlen H].
  split; [assumption|]. intros i Hi.
  destruct (H i Hi) as (b & Hb & Hslot).
  destruct (event_best_label_spec _ _ _ _ Hb) as (row & nl & Hrow & Hnl & Hvote).
  exists row, nl, b. auto.
Qed.

(** C4.  Every slot of the two event-level arrays holds the most frequent
    label among the labels of the event's neighbors in the other recording,
    the smallest such label on a tie (as an [int32]: the label itself when
    the labels are [int32] values).  The neighbors of an event of Y are the
    row the search, fitted on all of [frames_x] and asked for [n_neighbors]
    neighbors, returns for it, and the other way round; with the library's
    search that row is made of the [n_neighbors] events of the other
    recording that are nearest to the event. *)
Theorem event_level_majority_vote :
  (forall kneighbors frames_x labels_x frames_y labels_y n_neighbors out,
      compute_unit_matches kneighbors frames_x labels_x frames_y labels_y n_neighbors = Ok out ->
      exists nearest_y_to_x nearest_x_to_y,
        kneighbors frames_x frames_y n_neighbors = Ok nearest_y_to_x /\
        kneighbors frames_y frames_x n_neighbors = Ok nearest_x_to_y /\
        length (event_matches_y_to_x out) = length labels_y /\
        length (event_matches_x_to_y out) = length labels_x /\
        (forall i, (i < length labels_y)%nat ->
           exists b, votes_for nearest_y_to_x labels_x i b /\
                     event_matches_y_to_x out !! i = Some (Np.wrap32 b) /\
                     (forallb Np.is_int32 labels_x = true -> Np.wrap32 b = b)) /\
        (forall i, (i < length labels_x)%nat ->
           exists b, votes_for nearest_x_to_y labels_y i b /\
                     event_matches_x_to_y out !! i = Some (Np.wrap32 b) /\
                     (forallb Np.is_int32 labels_y = true -> Np.wrap32 b = b))) /\
  (forall frames_x labels_x frames_y labels_y n_neighbors out,
      compute_unit_matches Sklearn.sk_kneighbors
        frames_x labels_x frames_y labels_y n_neighbors = Ok out ->
      (forall i, (i < length labels_y)%nat ->
         exists q row nl b,
           frames_y !! i = Some q /\ k_nearest frames_x q n_neighbors row /\
           Forall2 (fun j l => labels_x !! j = Some l) row nl /\
           most_frequent_smallest nl b /\
           event_matches_y_to_x out !! i = Some (Np.wrap32 b)) /\
      (forall i, (i < length labels_x)%nat ->
         exists q row nl b,
           frames_x !! i = Some q /\ k_nearest frames_y q n_neighbors row /\
           Forall2 (fun j l => labels_y !! j = Some l) row nl /\
           most_frequent_smallest nl b /\
           event_matches_x_to_y out !! i = Some (Np.wrap32 b))).
Proof.
  split.
  - intros kneighbors frames_x labels_x frames_y labels_y n_neighbors out H.
    apply compute_unit_matches_inv in H.
    destruct H as (nyx & nxy & my & mx & byx & syx & bxy & sxy &
                   Hnyx & Hnxy & _ & _ & _ & _ & _ & Hex & Hey).
    exists nyx, nxy.
    apply event_slots_voted in Hex, Hey.
    destruct Hex as [Hlx Hex], Hey as [Hly Hey].
    repeat (split; [assumption|]). split.
    + intros i Hi. destruct (Hey i Hi) as (row & nl & b & Hrow & Hnl & Hvote & Hb & Hs).
      exists b. split; [exists row, nl; auto|]. split; [assumption|].
      intros Hint. eapply forallb_int32; [eassumption|].
      eapply event_best_label_in. eassumption.
    + intros i Hi. destruct (Hex i Hi) as (row & nl & b & Hrow & Hnl & Hvote & Hb & Hs).
      exists b. split; [exists row, nl; auto|]. split; [assumption|].
      intros Hint. eapply forallb_int32; [eassumption|].
      eapply event_best_label_in. eassumption.
  - intros frames_x labels_x frames_y labels_y n_neighbors out H.
    apply compute_unit_matches_inv in H.
    destruct H as (nyx & nxy & my & mx & byx & syx & bxy & sxy &
                   Hnyx & Hnxy & _ & _ & _ & _ & _ & Hex & Hey).
    apply event_slots_voted in Hex, Hey.
    destruct Hex as [_ Hex], Hey as [_ Hey]. split.
    + intros i Hi. destruct (Hey i Hi) as (_ & _ & b & _ & _ & _ & Hb & Hs).
      destruct (sk_event_vote _ _ _ _ _ _ _ Hnyx Hb) as (q & row & nl & Hq & _ & Hk & Hnl & Hv).
      exists q, row, nl, b. auto.
    + intros i Hi. destruct (Hex i Hi) as (_ & _ & b & _ & _ & _ & Hb & Hs).
      destruct (sk_event_vote _ _ _ _ _ _ _ Hnxy Hb) as (q & row & nl & Hq & _ & Hk & Hnl & Hv).
      exists q, row, nl, b. auto.
Qed.

Lemma event_level_majority_vote_witness :
  compute_unit_matches Sklearn.sk_kneighbors
    Votes.frames_x Votes.labels_x Votes.frames_y Votes.labels_y 3 = Ok Votes.result /\
  Sklearn.sk_kneighbors Votes.frames_x Votes.frames_y 3 = Ok Votes.rows_y_to_x /\
  (exists nearest_y_to_x nearest_x_to_y,
      Sklearn.sk_kneighbors Votes.frames_x Votes.frames_y 3 = Ok nearest_y_to_x /\
      Sklearn.sk_kneighbors Votes.frames_y Votes.frames_x 3 = Ok nearest_x_to_y /\
      length (event_matches_y_to_x Votes.result) = length Votes.labels_y /\
      length (event_matches_x_to_y Votes.result) = length Votes.labels_x /\
      (forall i, (i < length Votes.labels_y)%nat ->
         exists b, votes_for nearest_y_to_x Votes.labels_x i b /\
                   event_matches_y_to_x Votes.result !! i = Some (Np.wrap32 b) /\
                   (forallb Np.is_int32 Votes.labels_x = true -> Np.wrap32 b = b)) /\
      (forall i, (i < length Votes.labels_x)%nat ->
         exists b, votes_for nearest_x_to_y Votes.labels_y i b /\
                   event_matches_x_to_y Votes.result !! i = Some (Np.wrap32 b) /\
                   (forallb Np.is_int32 Votes.labels_y = true -> Np.wrap32 b = b))) /\
  (forall i, (i < length Votes.labels_y)%nat ->
     exists q row nl b,
       Votes.frames_y !! i = Some q /\ k_nearest Votes.frames_x q 3 row /\
       Forall2 (fun j l => Votes.labels_x !! j = Some l) row nl /\
       most_frequent_smallest nl b /\
       event_matches_y_to_x Votes.result !! i = Some (Np.wrap32 b)) /\
  (forall i, (i < length Votes.labels_x)%nat ->
     exists q row nl b,
       Votes.frames_x !! i = Some q /\ k_nearest Votes.frames_y q 3 row /\
       Forall2 (fun j l => Votes.labels_y !! j = Some l) row nl /\
       most_frequent_smallest nl b /\
       event_matches_x_to_y Votes.result !! i = Some (Np.wrap32 b)).
Proof.
  split; [vm_compute; reflexivity|]. split; [vm_compute; reflexivity|]. split.
  - apply (proj1 event_level_majority_vote Sklearn.sk_kneighbors
             Votes.frames_x Votes.labels_x Votes.frames_y Votes.labels_y 3).
    vm_compute. reflexivity.
  - apply (proj2 event_level_majority_vote
             Votes.frames_x Votes.labels_x Votes.frames_y Votes.labels_y 3).
    vm_compute. reflexivity.
Defined.

(** C10.  Nothing filters the events of label 0 before the neighbor search
    or before a vote.  Both searches are run on the whole of [frames_x] and
    [frames_y]; the vote of an event counts the label of every entry of its
    row, label 0 like any other: the winner has at least as many votes as
    label 0, and where 0 is the most frequent label (the smallest on a tie)
    the slot holds 0.  With the library's search an event of label 0 that
    is closer to the voting event than some member of the row is in the row.
    So the event-level arrays can hold 0: in the noisy recording the event
    of unit 3 has an event of label 0 in its row and gets 0.  Label 0 leaves
    the picture only afterwards: the cluster loop gives unit 0 no candidate,
    and the mutual pairs have positive units. *)
Theorem label_zero_takes_part_in_votes :
  (forall kneighbors frames_x labels_x frames_y labels_y n_neighbors out,
      compute_unit_matches kneighbors frames_x labels_x frames_y labels_y n_neighbors = Ok out ->
      exists nearest_y_to_x nearest_x_to_y,
        kneighbors frames_x frames_y n_neighbors = Ok nearest_y_to_x /\
        kneighbors frames_y frames_x n_neighbors = Ok nearest_x_to_y /\
        (forall i, (i < length labels_x)%nat ->
           exists row nl b,
             nearest_x_to_y !! i = Some row /\
             Forall2 (fun j l => labels_y !! j = Some l) row nl /\
             most_frequent_smallest nl b /\
             (list_count nl 0 <= list_count nl b)%nat /\
             event_matches_x_to_y out !! i = Some (Np.wrap32 b) /\
             (most_frequent_smallest nl 0 -> event_matches_x_to_y out !! i = Some 0)) /\
        (forall i, (i < length labels_y)%nat ->
           exists row nl b,
             nearest_y_to_x !! i = Some row /\
             Forall2 (fun j l => labels_x !! j = Some l) row nl /\
             most_frequent_smallest nl b /\
             (list_count nl 0 <= list_count nl b)%nat /\
             event_matches_y_to_x out !! i = Some (Np.wrap32 b) /\
             (most_frequent_smallest nl 0 -> event_matches_y_to_x out !! i = Some 0)) /\
        (forall m, In m (mutual_matches out) -> 0 < unit_x m /\ 0 < unit_y m)) /\
  (forall data_ref (labels_ref : list Z) data_q n_neighbors rows,
      Sklearn.sk_kneighbors data_ref data_q n_neighbors = Ok rows ->
      forall i q, data_q !! i = Some q ->
        exists row,
          rows !! i = Some row /\
          forall j p j' p',
            labels_ref !! j = Some 0 -> data_ref !! j = Some p ->
            In j' row -> data_ref !! j' = Some p' ->
            Sklearn.sq_dist p q < Sklearn.sq_dist p' q ->
            In j row) /\
  (compute_unit_matches Sklearn.sk_kneighbors
     Recordings.noisy_frames Recordings.noisy_labels
     Recordings.noisy_frames Recordings.noisy_labels 2 = Ok Recordings.noisy_k2 /\
   Sklearn.sk_kneighbors Recordings.noisy_frames Recordings.noisy_frames 2
   = Ok [[0; 1]; [1; 0]; [2; 1]]%nat /\
   Recordings.noisy_labels !! 2%nat = Some 3 /\
   Recordings.noisy_labels !! 1%nat = Some 0 /\
   event_matches_x_to_y Recordings.noisy_k2 !! 2%nat = Some 0 /\
   event_matches_y_to_x Recordings.noisy_k2 !! 2%nat = Some 0) /\
  (forall nearest labels_src labels_ref max_label bm ms,
      best_matches_loop nearest labels_src labels_ref max_label = Ok (bm, ms) ->
      0 <= max_label ->
      best_match bm 0 = Some 0 /\ match_score ms 0 = Some 0%Q).
Proof.
  split; [|split; [|split]].
  - intros kneighbors frames_x labels_x frames_y labels_y n_neighbors out H.
    apply compute_unit_matches_inv in H.
    destruct H as (nyx & nxy & my & mx & byx & syx & bxy & sxy &
                   Hnyx & Hnxy & _ & _ & _ & _ & Hmut & Hex & Hey).
    exists nyx, nxy. repeat (split; [assumption|]).
    apply event_slots_voted in Hex, Hey. destruct Hex as [_ Hex], Hey as [_ Hey].
    assert (Hzero : forall nl b (slot : option Z),
               most_frequent_smallest nl b -> slot = Some (Np.wrap32 b) ->
               (list_count nl 0 <= list_count nl b)%nat /\
               (most_frequent_smallest nl 0 -> slot = Some 0)).
    { intros nl b slot Hvote ->. split; [apply Hvote|].
      intros H0. rewrite (most_frequent_smallest_unique nl b 0 Hvote H0). reflexivity. }
    split; [|split].
    + intros i Hi. destruct (Hex i Hi) as (row & nl & b & Hrow & Hnl & Hvote & _ & Hs).
      destruct (Hzero nl b _ Hvote Hs) as [Hc H0]. exists row, nl, b. auto 7.
    + intros i Hi. destruct (Hey i Hi) as (row & nl & b & Hrow & Hnl & Hvote & _ & Hs).
      destruct (Hzero nl b _ Hvote Hs) as [Hc H0]. exists row, nl, b. auto 7.
    + intros m Hm. apply find_mutual_matches_spec in Hmut. destruct Hmut as [Hm1 _].
      destruct (Hm1 m Hm) as (kx & Hkx & ky & s1 & s2 & _ & Hpos & _ & _ & _ & ->).
      simpl. lia.
  - intros data_ref labels_ref data_q n_neighbors rows Hsk i q Hq.
    apply sk_rows_k_nearest in Hsk. destruct Hsk as [_ Hrows].
    destruct (Hrows i q Hq) as (row & Hrow & _ & _ & _ & Hnear).
    exists row. split; [assumption|].
    intros j p j' p' _ Hp Hj' Hp' Hlt.
    destruct (in_dec Nat.eq_dec j row) as [Hin|Hout]; [assumption|].
    specialize (Hnear j' j p' p Hj' Hout Hp' Hp). lia.
  - repeat split; vm_compute; reflexivity.
  - intros nearest labels_src labels_ref max_label bm ms H Hmax.
    apply best_matches_loop_spec in H. destruct H as (_ & _ & _ & _ & Hzero).
    destruct (Hzero 0) as [Hb Hs]; [lia|left; reflexivity|].
    unfold best_match, match_score. simpl. auto.
Qed.

Lemma label_zero_takes_part_in_votes_witness :
  exists nearest_y_to_x nearest_x_to_y,
    Sklearn.sk_kneighbors Recordings.noisy_frames Recordings.noisy_frames 2
    = Ok nearest_y_to_x /\
    Sklearn.sk_kneighbors Recordings.noisy_frames Recordings.noisy_frames 2
    = Ok nearest_x_to_y /\
    (forall i, (i < length Recordings.noisy_labels)%nat ->
       exists row nl b,
         nearest_x_to_y !! i = Some row /\
         Forall2 (fun j l => Recordings.noisy_labels !! j = Some l) row nl /\
         most_frequent_smallest nl b /\
         (list_count nl 0 <= list_count nl b)%nat /\
         event_matches_x_to_y Recordings.noisy_k2 !! i = Some (Np.wrap32 b) /\
         (most_frequent_smallest nl 0 ->
          event_matches_x_to_y Recordings.noisy_k2 !! i = Some 0)) /\
    (forall i, (i < length Recordings.noisy_labels)%nat ->
       exists row nl b,
         nearest_y_to_x !! i = Some row /\
         Forall2 (fun j l => Recordings.noisy_labels !! j = Some l) row nl /\
         most_frequent_smallest nl b /\
         (list_count nl 0 <= list_count nl b)%nat /\
         event_matches_y_to_x Recordings.noisy_k2 !! i = Some (Np.wrap32 b) /\
         (most_frequent_smallest nl 0 ->
          event_matches_y_to_x Recordings.noisy_k2 !! i = Some 0)) /\
    (forall m, In m (mutual_matches Recordings.noisy_k2) -> 0 < unit_x m /\ 0 < unit_y m).
Proof.
  apply (proj1 label_zero_takes_part_in_votes Sklearn.sk_kneighbors
           Recordings.noisy_frames Recordings.noisy_labels
           Recordings.noisy_frames Recordings.noisy_labels 2).
  vm_compute. reflexivity.
Defined.

(** ** A recording matched against a copy of itself *)

Lemma list_count_all (l : list Z) (u : Z) :
  (forall v, In v l -> v = u) -> list_count l u = length l.
Proof.
  unfold list_count. induction l as [|x l IH]; intros H; simpl; [reflexivity|].
  rewrite (H x) by (left; reflexivity).
  destruct (Z.eq_dec u u); [|congruence]. rewrite IH; [reflexivity|].
  intros v Hv. apply H. right. assumption.
Qed.

Lemma ratio_one (n : nat) :
  (0 < n)%nat -> (inject_Z (Z.of_nat n) / inject_Z (Z.of_nat n) == 1)%Q.
Proof.
  intros Hn. apply Qmult_inv_r. unfold Qeq, inject_Z. simpl. lia.
Qed.

(** C3, as stated, fails: three events, unit 1 at 0 and unit 2 at 10 and
    11, matched against their own copy with three neighbors.  Every event
    sees all three events, unit 2 wins every vote, and unit 1 has no mutual
    match. *)
Lemma copy_self_match_counterexample :
  compute_unit_matches Sklearn.sk_kneighbors
    Recordings.frames Recordings.labels Recordings.frames Recordings.labels 3
  = Ok Recordings.copy_k3 /\
  In 1 Recordings.labels /\
  ~ (exists m, In m (mutual_matches Recordings.copy_k3) /\ unit_x m = 1 /\ unit_y m = 1).
Proof.
  split; [vm_compute; reflexivity|]. split; [left; reflexivity|].
  intros (m & [<-|[]] & Hx & _). discriminate.
Qed.

(** C3, amended.  When recording Y is an exact copy of recording X, a unit
    [u > 0] with at least one event, all of whose events have [u] as their
    event-level best match, is reported as a mutual match with itself, with
    both directional scores and the overall score equal to 1. *)
Theorem copy_units_match_themselves kneighbors frames labels n_neighbors out u :
  compute_unit_matches kneighbors frames labels frames labels n_neighbors = Ok out ->
  forallb Np.is_int32 labels = true ->
  0 < u -> In u labels ->
  (forall i, labels !! i = Some u -> event_matches_x_to_y out !! i = Some u) ->
  exists m, In m (mutual_matches out) /\
            unit_x m = u /\ unit_y m = u /\
            (score_x_to_y m == 1)%Q /\ (score_y_to_x m == 1)%Q /\
            (overall_score m == 1)%Q.
Proof.
  intros H Hint Hu Hin Hvotes. apply compute_unit_matches_inv in H.
  destruct H as (nyx & nxy & my & mx & byx & syx & bxy & sxy &
                 Hnyx & Hnxy & Hmy & Hly & Hmx & Hlx & Hmut & Hex & _).
  assert (nyx = nxy) as -> by congruence.
  assert (my = mx) as -> by congruence.
  assert (byx = bxy /\ syx = sxy) as [-> ->] by (split; congruence).
  clear Hnyx Hmy Hly.
  pose proof (np_max_spec _ _ Hmx) as [_ Hmax].
  pose proof (best_matches_loop_spec _ _ _ _ _ _ Hlx) as (_ & _ & _ & Hslot & _).
  destruct (Hslot u) as (best & score & (cm & w & Hcm & Hw & -> & ->) & Hb & Hs).
  { split; [lia|auto]. }
  { apply where_eq_nonempty. assumption. }
  apply event_matches_spec in Hex. destruct Hex as [Hlen Hex].
  assert (Hall : forall v, In v cm -> v = u).
  { intros v Hv. apply list_elem_of_In, list_elem_of_lookup in Hv. destruct Hv as [j Hj].
    destruct (Forall2_lookup_r _ _ _ _ _ Hcm Hj) as (i & Hi & Hbest).
    assert (Hlab : labels !! i = Some u).
    { apply where_eq_spec, list_elem_of_In. eapply list_elem_of_lookup_2. eassumption. }
    destruct (Hex i) as (b & Hb' & Hslot').
    { eapply lookup_lt_Some. eassumption. }
    assert (b = v) as -> by congruence.
    rewrite (Hvotes i Hlab) in Hslot'. injection Hslot' as Hslot'.
    rewrite (forallb_int32 labels v Hint) in Hslot'; [auto|].
    eapply event_best_label_in. eassumption. }
  assert (w = u) as ->.
  { destruct Hw as (j & Hj & _). apply Hall, list_elem_of_In.
    eapply list_elem_of_lookup_2. eassumption. }
  rewrite (forallb_int32 labels u Hint Hin) in Hb.
  rewrite (list_count_all cm u Hall), <- (Forall2_length _ _ _ Hcm) in Hs.
  assert (Hpos : (0 < length (Np.where_eq labels u))%nat).
  { pose proof (where_eq_nonempty labels u Hin).
    destruct (Np.where_eq labels u); [congruence|simpl; lia]. }
  apply find_mutual_matches_spec in Hmut. destruct Hmut as [_ Hm2].
  assert (Hbm : best_match bxy u = Some u).
  { unfold best_match. destruct (Z.ltb_spec u 0); [lia|assumption]. }
  destruct (Hm2 u u) as (m & Hm & ky & s1 & s2 & E1 & _ & _ & Es1 & Es2 & ->); auto.
  { split; [lia|auto]. }
  assert (ky = u) as -> by congruence.
  unfold match_score in Es1, Es2. destruct (Z.ltb_spec u 0); [lia|].
  assert (s1 = s2) as -> by congruence.
  rewrite Hs in Es2. injection Es2 as <-.
  eexists. split; [eassumption|]. simpl.
  split; [reflexivity|]. split; [reflexivity|].
  pose proof (ratio_one _ Hpos) as Hone.
  split; [assumption|]. split; [assumption|].
  rewrite Hone. reflexivity.
Qed.

Lemma copy_units_match_themselves_witness :
  exists m, In m (mutual_matches Recordings.copy_k1) /\
            unit_x m = 2 /\ unit_y m = 2 /\
            (score_x_to_y m == 1)%Q /\ (score_y_to_x m == 1)%Q /\
            (overall_score m == 1)%Q.
Proof.
  apply (copy_units_match_themselves Sklearn.sk_kneighbors
           Recordings.frames Recordings.labels 1 Recordings.copy_k1 2).
  - vm_compute. reflexivity.
  - reflexivity.
  - lia.
  - simpl. auto.
  - intros [|[|[|i]]]; simpl; intros E; try discriminate; reflexivity.
Defined.

(** ** Degenerate inputs *)

Lemma take_at_returns (labels : list Z) (row : list nat) :
  Forall (fun j => (j < length labels)%nat) row ->
  exists nl, Np.take_at labels row = Ok nl /\ length nl = length row.
Proof.
  unfold Np.take_at. induction row as [|j row IH]; intros Hall; simpl.
  - exists []. auto.
  - inversion Hall as [|? ? Hj Hall']; subst.
    destruct (IH Hall') as (nl & -> & Hlen).
    destruct (lookup_lt_is_Some_2 labels j Hj) as [l Hl].
    unfold at_index. rewrite Hl. simpl. exists (l :: nl). simpl. auto.
Qed.

Lemma event_best_label_returns (nearest : list (list nat)) (labels : list Z)
    (i : nat) (row : list nat) :
  nearest !! i = Some row -> row <> [] ->
  Forall (fun j => (j < length labels)%nat) row ->
  returns (event_best_label nearest labels i).
Proof.
  intros Hrow Hne Hall. unfold event_best_label, neighbor_labels_of, at_index.
  rewrite Hrow. simpl.
  destruct (take_at_returns labels row Hall) as (nl & -> & Hlen). simpl.
  apply majority_label_returns. destruct nl; [destruct row; simpl in *; congruence|discriminate].
Qed.

Lemma mapM_const {A B : Type} (f : A -> result B) (l : list A) (c : B) :
  (forall x, In x l -> f x = Ok c) -> mapM f l = Ok (replicate (length l) c).
Proof.
  induction l as [|x l IH]; intros H; simpl; [reflexivity|].
  rewrite (H x) by (left; reflexivity). simpl.
  rewrite IH by (intros y Hy; apply H; right; assumption). reflexivity.
Qed.

Lemma rows_ok_lookup (n_ref n_query : nat) (nearest : list (list nat)) (i : nat) :
  rows_ok n_ref n_query nearest = true -> (i < n_query)%nat ->
  exists row, nearest !! i = Some row /\ row <> [] /\
              Forall (fun j => (j < n_ref)%nat) row.
Proof.
  unfold rows_ok. intros H Hi. apply andb_prop in H. destruct H as [Hlen Hrows].
  apply Nat.eqb_eq in Hlen. rewrite <- Hlen in Hi.
  destruct (lookup_lt_is_Some_2 nearest i Hi) as [row Hrow].
  exists row. split; [assumption|].
  rewrite forallb_forall in Hrows.
  specialize (Hrows row (proj1 (list_elem_of_In _ _) (list_elem_of_lookup_2 _ _ _ Hrow))).
  apply andb_prop in Hrows. destruct Hrows as [Hne Hall]. split.
  - intros ->. discriminate.
  - apply Forall_forall. intros j Hj. rewrite forallb_forall in Hall.
    apply Nat.ltb_lt, Hall, list_elem_of_In. assumption.
Qed.

Lemma event_matches_all_zero (nearest : list (list nat)) (labels_src labels_ref : list Z) :
  rows_ok (length labels_ref) (length labels_src) nearest = true ->
  forallb (Z.eqb 0) labels_ref = true ->
  event_matches nearest labels_src labels_ref = Ok (replicate (length labels_src) 0).
Proof.
  intros Hrows Hzero. unfold event_matches.
  replace (replicate (length labels_src) 0)
    with (replicate (length (seq 0 (length labels_src))) 0)
    by (rewrite length_seq; reflexivity).
  apply mapM_const. intros i Hi. apply in_seq in Hi.
  destruct (rows_ok_lookup _ _ _ i Hrows) as (row & Hrow & Hne & Hall); [lia|].
  destruct (event_best_label_returns nearest labels_ref i row Hrow Hne Hall) as [b Hb].
  rewrite Hb. simpl. apply event_best_label_in in Hb.
  rewrite forallb_forall in Hzero. apply Hzero, Z.eqb_eq in Hb. subst b. reflexivity.
Qed.

Lemma np_max_all_zero (labels : list Z) :
  labels <> [] -> forallb (Z.eqb 0) labels = true -> Np.max labels = Ok 0.
Proof.
  intros Hne Hzero. destruct (Np.max labels) as [m|e] eqn:E.
  - apply np_max_spec in E. destruct E as [Hin _].
    rewrite forallb_forall in Hzero. apply Hzero, Z.eqb_eq in Hin. congruence.
  - destruct labels; [congruence|discriminate].
Qed.

(** All labels 0: no unit to match, every event-level slot is 0. *)
Lemma all_zero_labels_no_matches kneighbors frames_x labels_x frames_y labels_y n_neighbors
    nearest_y_to_x nearest_x_to_y :
  kneighbors frames_x frames_y n_neighbors = Ok nearest_y_to_x ->
  kneighbors frames_y frames_x n_neighbors = Ok nearest_x_to_y ->
  rows_ok (length labels_x) (length labels_y) nearest_y_to_x = true ->
  rows_ok (length labels_y) (length labels_x) nearest_x_to_y = true ->
  labels_x <> [] -> labels_y <> [] ->
  forallb (Z.eqb 0) labels_x = true -> forallb (Z.eqb 0) labels_y = true ->
  compute_unit_matches kneighbors frames_x labels_x frames_y labels_y n_neighbors
  = Ok {| mutual_matches := [];
          event_matches_x_to_y := replicate (length labels_x) 0;
          event_matches_y_to_x := replicate (length labels_y) 0 |}.
Proof.
  intros Hnyx Hnxy Hryx Hrxy Hnex Hney Hzx Hzy.
  unfold compute_unit_matches. rewrite !nearest_neighbors_eq, Hnyx, Hnxy. simpl.
  rewrite (np_max_all_zero labels_y Hney Hzy). simpl.
  change (best_matches_loop nearest_y_to_x labels_y labels_x 0) with (Ok ([0], [0%Q])).
  simpl.
  rewrite (np_max_all_zero labels_x Hnex Hzx). simpl.
  change (best_matches_loop nearest_x_to_y labels_x labels_y 0) with (Ok ([0], [0%Q])).
  simpl.
  change (find_mutual_matches [0] [0%Q] [0] [0%Q] 0) with (Ok (@nil mutual_match)).
  simpl.
  rewrite (event_matches_all_zero _ _ _ Hrxy Hzy). simpl.
  rewrite (event_matches_all_zero _ _ _ Hryx Hzx). simpl.
  reflexivity.
Qed.

(** An empty label array always ends in an exception. *)
Lemma empty_labels_raise kneighbors frames_x labels_x frames_y labels_y n_neighbors :
  labels_x = [] \/ labels_y = [] ->
  raises (compute_unit_matches kneighbors frames_x labels_x frames_y labels_y n_neighbors).
Proof.
  intros Hempty.
  destruct (compute_unit_matches kneighbors frames_x labels_x frames_y labels_y n_neighbors)
    as [out|e] eqn:E; [|unfold raises; eauto].
  apply compute_unit_matches_inv in E.
  destruct E as (nyx & nxy & my & mx & byx & syx & bxy & sxy &
                 _ & _ & Hmy & _ & Hmx & _).
  destruct Hempty as [-> | ->]; discriminate.
Qed.

(** C1, as stated, fails: the default of ten neighbors against a reference
    set of one event is not clamped, the search raises; and empty inputs
    raise as well. *)
Lemma degenerate_inputs_counterexample :
  compute_unit_matches Sklearn.sk_kneighbors [[0]] [1] [[0]] [1] 10 = Raise ValueError /\
  compute_unit_matches Sklearn.sk_kneighbors [] [] [] [] 10 = Raise ValueError.
Proof. split; vm_compute; reflexivity. Qed.

(** C1, amended.  [nearest_neighbors] hands [n_neighbors] to the library
    unchanged; when it exceeds the size of either reference set the search,
    and with it [compute_unit_matches], raises [ValueError]; an empty label
    array makes [compute_unit_matches] raise; all-zero label arrays on
    inputs the search accepts give an empty list of mutual matches (and
    all-zero event-level arrays) without raising. *)
Theorem degenerate_inputs_not_clamped :
  (forall kneighbors data1 data2 n_neighbors,
      nearest_neighbors kneighbors data1 data2 n_neighbors
      = kneighbors data1 data2 n_neighbors) /\
  (forall frames_x labels_x frames_y labels_y n_neighbors,
      Z.of_nat (length frames_x) < n_neighbors \/ Z.of_nat (length frames_y) < n_neighbors ->
      compute_unit_matches Sklearn.sk_kneighbors frames_x labels_x frames_y labels_y n_neighbors
      = Raise ValueError) /\
  (forall kneighbors frames_x labels_x frames_y labels_y n_neighbors,
      labels_x = [] \/ labels_y = [] ->
      raises (compute_unit_matches kneighbors frames_x labels_x frames_y labels_y n_neighbors)) /\
  (forall frames_x labels_x frames_y labels_y n_neighbors,
      length labels_x = length frames_x -> length labels_y = length frames_y ->
      is_ok (Sklearn.sk_kneighbors frames_x frames_y n_neighbors) = true ->
      is_ok (Sklearn.sk_kneighbors frames_y frames_x n_neighbors) = true ->
      forallb (Z.eqb 0) labels_x = true -> forallb (Z.eqb 0) labels_y = true ->
      compute_unit_matches Sklearn.sk_kneighbors frames_x labels_x frames_y labels_y n_neighbors
      = Ok {| mutual_matches := [];
              event_matches_x_to_y := replicate (length labels_x) 0;
              event_matches_y_to_x := replicate (length labels_y) 0 |}).
Proof.
  split; [apply nearest_neighbors_eq|]. split; [|split; [apply empty_labels_raise|]].
  - intros frames_x labels_x frames_y labels_y n_neighbors Hk.
    unfold compute_unit_matches. rewrite !nearest_neighbors_eq.
    destruct (Sklearn.sk_kneighbors frames_x frames_y n_neighbors) as [nyx|e] eqn:E1; simpl.
    + destruct Hk as [Hk|Hk].
      * rewrite (sk_kneighbors_too_many _ _ _ Hk) in E1. discriminate.
      * rewrite (sk_kneighbors_too_many _ _ _ Hk). reflexivity.
    + apply sk_kneighbors_raises in E1. congruence.
  - intros frames_x labels_x frames_y labels_y n_neighbors Hlx Hly Hok1 Hok2 Hzx Hzy.
    destruct (Sklearn.sk_kneighbors frames_x frames_y n_neighbors) as [nyx|] eqn:E1;
      [|discriminate].
    destruct (Sklearn.sk_kneighbors frames_y frames_x n_neighbors) as [nxy|] eqn:E2;
      [|discriminate].
    pose proof (sk_kneighbors_rows_ok _ _ _ _ E1) as R1.
    pose proof (sk_kneighbors_rows_ok _ _ _ _ E2) as R2.
    rewrite <- Hlx, <- Hly in R1. rewrite <- Hlx, <- Hly in R2.
    apply sk_kneighbors_Ok_inv in E1 as E1'. apply sk_kneighbors_Ok_inv in E2 as E2'.
    eapply all_zero_labels_no_matches; try eassumption.
    + intros ->. simpl in Hlx. destruct E1' as [E1' _]. rewrite <- Hlx in E1'. simpl in E1'. lia.
    + intros ->. simpl in Hly. destruct E2' as [E2' _]. rewrite <- Hly in E2'. simpl in E2'. lia.
Qed.

Lemma degenerate_inputs_not_clamped_witness :
  compute_unit_matches Sklearn.sk_kneighbors [[0]; [1]] [0; 0] [[0]; [5]; [7]] [0; 0; 0] 2
  = Ok {| mutual_matches := [];
          event_matches_x_to_y := replicate (length [0; 0]) 0;
          event_matches_y_to_x := replicate (length [0; 0; 0]) 0 |} /\
  compute_unit_matches Sklearn.sk_kneighbors [[0]; [1]] [0; 0] [[0]; [5]; [7]] [0; 0; 0] 3
  = Raise ValueError.
Proof.
  destruct degenerate_inputs_not_clamped as (_ & Hmany & _ & Hzero). split.
  - apply Hzero; reflexivity.
  - apply Hmany. left. simpl. lia.
Defined.

(** * Further properties of the assembler *)

Lemma foldM_app {S A : Type} (f : S -> A -> result S) (l1 l2 : list A) (s : S) :
  foldM f (l1 ++ l2) s = (let* s1 := foldM f l1 s in foldM f l2 s1).
Proof.
  revert s; induction l1 as [|x l1 IH]; intros s; simpl; [reflexivity|].
  destruct (f s x) as [s'|e]; simpl; [apply IH | reflexivity].
Qed.

Lemma walk_segments focus m n_channels sampling_frequency o files segs o' :
  walk focus m n_channels sampling_frequency o files segs o' ->
  Forall (fun s => exists f a e, In f files /\ raw_exists f = true /\ emits focus m f a e s) segs.
Proof.
  induction 1 as [o | o f files segs o' Hex _ IH | o f files s segs o' d Hex Hd Hemit _ IH].
  - constructor.
  - eapply Forall_impl; [eassumption|]. intros s (f' & a & e & Hin & ? & ?).
    exists f', a, e. split; [right; assumption|auto].
  - constructor.
    + exists f, o, (o + d)%Q. split; [left; reflexivity|auto].
    + eapply Forall_impl; [eassumption|]. intros s' (f' & a & e & Hin & ? & ?).
      exists f', a, e. split; [right; assumption|auto].
Qed.

(** X1.  The reported [total_spikes] is the sum of the segments' spike
    counts; a segment's count is the number of spike times it carries, and
    a gap segment carries none and has no unit. *)
Theorem total_spikes_is_sum focus m n_channels sampling_frequency files r :
  assemble_spike_train focus m n_channels sampling_frequency files = Ok r ->
  total_spikes r = sum_list (num_spikes <$> segments r) /\
  Forall (fun s => num_spikes s = length (spike_times s) /\
                   (is_gap s = true ->
                    num_spikes s = 0%nat /\ unit_id s = None /\ is_focus_unit s = false) /\
                   (is_gap s = false -> is_Some (unit_id s)))
         (segments r).
Proof.
  intros H. apply assemble_walk in H. destruct H as [Hw Htot]. split; [assumption|].
  eapply Forall_impl; [eapply walk_segments; eassumption|].
  intros s (f & a & e & _ & _ & Hemit). simpl.
  destruct Hemit; simpl.
  - rewrite length_map. split; [reflexivity|]. split; [discriminate|eauto].
  - split; [reflexivity|]. split; [auto|discriminate].
  - split; [reflexivity|]. split; [auto|discriminate].
Qed.

Lemma total_spikes_is_sum_witness :
  total_spikes Session.train = sum_list (num_spikes <$> segments Session.train) /\
  Forall (fun s => num_spikes s = length (spike_times s) /\
                   (is_gap s = true ->
                    num_spikes s = 0%nat /\ unit_id s = None /\ is_focus_unit s = false) /\
                   (is_gap s = false -> is_Some (unit_id s)))
         (segments Session.train).
Proof.
  apply (total_spikes_is_sum Session.focus Session.matches_map 2 1 Session.bin_files).
  vm_compute. reflexivity.
Defined.

(** X2.  [is_focus_unit] is set exactly on the non-gap segment of the
    anchor file.  That segment carries the focus unit's own id, whatever
    the match map says about the anchor file; a non-gap segment of another
    file carries the unit the map gives for that file. *)
Theorem anchor_segment_marked focus m n_channels sampling_frequency files r :
  assemble_spike_train focus m n_channels sampling_frequency files = Ok r ->
  Forall2 (fun f s =>
             (is_focus_unit s = true <->
              name f = FocusUnit.bin_filename focus /\ is_gap s = false) /\
             (name f = FocusUnit.bin_filename focus -> is_gap s = false ->
              unit_id s = Some (FocusUnit.unit_id focus)) /\
             (name f <> FocusUnit.bin_filename focus -> is_gap s = false ->
              unit_id s = m !! name f))
          (List.filter raw_exists files) (segments r).
Proof.
  intros H. apply assemble_walk in H. destruct H as [Hw _].
  eapply Forall2_impl; [eapply walk_Forall2; eassumption|].
  intros f s (d & _ & Hemit). simpl.
  inversion Hemit as [u times labels sel Hu Et El Hsel Hs | u Hu Hmiss Hs | Hu Hs]; simpl.
  - unfold resolved_unit in Hu.
    destruct (bool_decide_reflect (name f = FocusUnit.bin_filename focus)) as [E|E].
    + injection Hu as <-. split; [tauto|]. split; [auto|]. intros; contradiction.
    + split; [split; [discriminate|tauto]|]. split; [intros; contradiction|auto].
  - split; [split; [discriminate|intros [_ ?]; discriminate]|]. split; discriminate.
  - split; [split; [discriminate|intros [_ ?]; discriminate]|]. split; discriminate.
Qed.

Lemma anchor_segment_marked_witness :
  Forall2 (fun f s =>
             (is_focus_unit s = true <->
              name f = FocusUnit.bin_filename Session.focus /\ is_gap s = false) /\
             (name f = FocusUnit.bin_filename Session.focus -> is_gap s = false ->
              unit_id s = Some (FocusUnit.unit_id Session.focus)) /\
             (name f <> FocusUnit.bin_filename Session.focus -> is_gap s = false ->
              unit_id s = Session.matches_map !! name f))
          (List.filter raw_exists Session.bin_files) (segments Session.train).
Proof.
  apply (anchor_segment_marked Session.focus Session.matches_map 2 1 Session.bin_files).
  vm_compute. reflexivity.
Defined.

Lemma file_duration_zero_config (n_channels sampling_frequency size : Z) :
  n_channels = 0 \/ sampling_frequency = 0 ->
  file_duration n_channels sampling_frequency size = Raise ZeroDivisionError.
Proof.
  unfold file_duration, py_floordiv, py_truediv. intros [-> | ->].
  - reflexivity.
  - destruct (2 * n_channels =? 0); reflexivity.
Qed.

Lemma walk_raises_on_zero_config focus m n_channels sampling_frequency files st :
  n_channels = 0 \/ sampling_frequency = 0 ->
  existsb raw_exists files = true ->
  foldM (segment_step focus m n_channels sampling_frequency) files st
  = Raise ZeroDivisionError.
Proof.
  intros Hz Hex. revert st. induction files as [|f files IH]; intros [[segs o] tot];
    [discriminate|].
  simpl in Hex |- *. destruct (raw_exists f); simpl.
  - rewrite (file_duration_zero_config _ _ _ Hz). reflexivity.
  - apply IH. assumption.
Qed.

Lemma walk_skips_absent_files focus m n_channels sampling_frequency files st :
  existsb raw_exists files = false ->
  foldM (segment_step focus m n_channels sampling_frequency) files st = Ok st.
Proof.
  intros Hex. revert st. induction files as [|f files IH]; intros [[segs o] tot];
    [reflexivity|].
  simpl in Hex |- *. apply orb_false_elim in Hex. destruct Hex as [-> Hex]. simpl.
  apply IH. assumption.
Qed.

(** X3.  The configuration is only used once a raw file is met: with a
    channel count or a sampling frequency of 0 the walk raises
    [ZeroDivisionError] as soon as the listing holds one existing file, and
    a listing without existing files gives the empty timeline of duration 0
    under any configuration. *)
Theorem zero_configuration_raises focus m n_channels sampling_frequency files :
  (n_channels = 0 \/ sampling_frequency = 0 ->
   existsb raw_exists files = true ->
   assemble_spike_train focus m n_channels sampling_frequency files
   = Raise ZeroDivisionError) /\
  (existsb raw_exists files = false ->
   assemble_spike_train focus m n_channels sampling_frequency files
   = Ok {| total_spikes := 0; total_duration_sec := 0%Q; segments := [] |}).
Proof.
  unfold assemble_spike_train. split.
  - intros Hz Hex. rewrite walk_raises_on_zero_config by assumption. reflexivity.
  - intros Hex. rewrite walk_skips_absent_files by assumption. reflexivity.
Qed.

Lemma zero_configuration_raises_witness :
  assemble_spike_train Session.focus Session.matches_map 0 20000 Session.bin_files
  = Raise ZeroDivisionError /\
  assemble_spike_train Session.focus Session.matches_map 0 0 []
  = Ok {| total_spikes := 0; total_duration_sec := 0%Q; segments := [] |}.
Proof.
  split.
  - apply (proj1 (zero_configuration_raises Session.focus Session.matches_map 0 20000
                    Session.bin_files)); [left; reflexivity | reflexivity].
  - apply (proj2 (zero_configuration_raises Session.focus Session.matches_map 0 0 [])).
    reflexivity.
Defined.

Lemma select_mask_mismatch (a : list Q) (mask : list bool) :
  length a <> length mask -> select_mask a mask = Raise IndexError.
Proof.
  revert mask. induction a as [|x a IH]; intros [|b mask] Hlen; simpl in *;
    try congruence.
  rewrite IH by congruence. reflexivity.
Qed.

(** X4.  Arrays that are present but unusable are not downgraded to a gap:
    when a file that should carry the unit has spike times and spike labels
    of different lengths, and the files before it went through, the walk
    raises [IndexError] and no timeline is returned. *)
Theorem mismatched_arrays_raise focus m n_channels sampling_frequency
    pre f post times labels :
  n_channels <> 0 -> sampling_frequency <> 0 ->
  forallb sorting_well_formed pre = true ->
  raw_exists f = true ->
  is_Some (resolved_unit focus m f) ->
  spike_times_npy f = Some times -> spike_labels_npy f = Some labels ->
  length times <> length labels ->
  assemble_spike_train focus m n_channels sampling_frequency (pre ++ f :: post)
  = Raise IndexError.
Proof.
  intros Hn Hf Hpre Hex [u Hu] Et El Hlen. unfold assemble_spike_train.
  rewrite foldM_app.
  assert (Hret : forall st,
             returns (foldM (segment_step focus m n_channels sampling_frequency) pre st)).
  { clear -Hn Hf Hpre. induction pre as [|g pre IH]; intros st; simpl;
      [unfold returns; eauto|].
    simpl in Hpre. apply andb_prop in Hpre. destruct Hpre as [Hg Hpre].
    destruct (segment_step_returns focus m n_channels sampling_frequency st g Hn Hf Hg)
      as [st' ->]. simpl. apply IH. assumption. }
  destruct (Hret ([], 0%Q, 0%nat)) as [[[segs o] tot] ->]. simpl.
  unfold segment_step. rewrite Hex. simpl.
  rewrite (file_duration_Ok _ _ _ Hn Hf). simpl.
  unfold resolved_unit in Hu.
  assert (Hmask : forall v : Z,
             select_mask times (map (fun l => l =? v) labels) = Raise IndexError).
  { intros v. apply select_mask_mismatch. rewrite length_map. assumption. }
  destruct (bool_decide (name f = FocusUnit.bin_filename focus)); simpl.
  - rewrite Et, El, Hmask. reflexivity.
  - rewrite bool_decide_eq_true_2 by eauto.
    unfold dict_getitem. rewrite Hu. simpl. rewrite Et, El, Hmask. reflexivity.
Qed.

Lemma mismatched_arrays_raise_witness :
  assemble_spike_train Session.focus Session.matches_map 2 1
    ([Session.file_A; Session.file_B] ++ TornSession.torn_file :: [Session.file_D])
  = Raise IndexError.
Proof.
  apply (mismatched_arrays_raise Session.focus Session.matches_map 2 1
           [Session.file_A; Session.file_B] TornSession.torn_file [Session.file_D]
           [1%Q; 2%Q] [7; 7; 1]).
  - lia.
  - lia.
  - reflexivity.
  - reflexivity.
  - vm_compute. eauto.
  - reflexivity.
  - reflexivity.
  - simpl. lia.
Defined.

Lemma duration_nonneg (n_channels sampling_frequency size : Z) :
  0 < n_channels -> 0 < sampling_frequency -> 0 <= size ->
  (0 <= inject_Z (size / (2 * n_channels)) / inject_Z sampling_frequency)%Q.
Proof.
  intros Hn Hf Hs. unfold Qdiv. apply Qmult_le_0_compat.
  - unfold Qle, inject_Z. simpl. pose proof (Z.div_pos size (2 * n_channels)). lia.
  - apply Qinv_le_0_compat. unfold Qle, inject_Z. simpl. lia.
Qed.

Lemma walk_nonneg focus m n_channels sampling_frequency o files segs o' :
  0 < n_channels -> 0 < sampling_frequency ->
  walk focus m n_channels sampling_frequency o files segs o' ->
  forallb (fun f => 0 <=? file_size f) files = true ->
  (0 <= o)%Q ->
  Forall (fun s => (0 <= start_time_offset s)%Q /\
                   (start_time_offset s <= end_time_offset s)%Q) segs /\
  (0 <= o')%Q.
Proof.
  intros Hn Hf.
  induction 1 as [o | o f files segs o' Hex _ IH | o f files s segs o' d Hex Hd Hemit _ IH];
    intros Hsizes Ho.
  - split; [constructor|assumption].
  - simpl in Hsizes. apply andb_prop in Hsizes. apply IH; tauto.
  - simpl in Hsizes. apply andb_prop in Hsizes. destruct Hsizes as [Hsz Hsizes].
    apply Z.leb_le in Hsz.
    apply file_duration_Ok_inv in Hd. destruct Hd as (_ & _ & ->).
    pose proof (duration_nonneg n_channels sampling_frequency (file_size f) Hn Hf Hsz) as Hd.
    apply emits_fields in Hemit. destruct Hemit as (_ & Hs & He).
    assert (Hoe : (o <= o + inject_Z (file_size f / (2 * n_channels))
                            / inject_Z sampling_frequency)%Q).
    { rewrite <- (Qplus_0_r o) at 1. apply Qplus_le_compat; [apply Qle_refl|assumption]. }
    destruct IH as [IH1 IH2]; [assumption | apply (Qle_trans _ o); assumption |].
    split; [|assumption]. constructor; [|assumption].
    rewrite Hs, He. split; assumption.
Qed.

(** X5.  With a positive channel count and sampling frequency (raw sizes
    are never negative) time does not run backwards: every segment starts
    at or after 0 and ends at or after its start, and the total duration is
    not negative. *)
Theorem offsets_never_decrease focus m n_channels sampling_frequency files r :
  0 < n_channels -> 0 < sampling_frequency ->
  forallb (fun f => 0 <=? file_size f) files = true ->
  assemble_spike_train focus m n_channels sampling_frequency files = Ok r ->
  Forall (fun s => (0 <= start_time_offset s)%Q /\
                   (start_time_offset s <= end_time_offset s)%Q) (segments r) /\
  (0 <= total_duration_sec r)%Q.
Proof.
  intros Hn Hf Hsizes H. apply assemble_walk in H. destruct H as [Hw _].
  apply (walk_nonneg focus m n_channels sampling_frequency 0%Q files _ _ Hn Hf Hw Hsizes).
  apply Qle_refl.
Qed.

Lemma offsets_never_decrease_witness :
  Forall (fun s => (0 <= start_time_offset s)%Q /\
                   (start_time_offset s <= end_time_offset s)%Q) (segments Session.train) /\
  (0 <= total_duration_sec Session.train)%Q.
Proof.
  apply (offsets_never_decrease Session.focus Session.matches_map 2 1 Session.bin_files).
  - lia.
  - lia.
  - reflexivity.
  - vm_compute. reflexivity.
Defined.

(** ** The match map *)

Lemma scan_match_lookup focus fname_x fname_y (m : gmap string Z) mt f u :
  scan_match focus fname_x fname_y m mt !! f = Some u ->
  m !! f = Some u \/ links focus fname_x fname_y mt f u.
Proof.
  unfold scan_match, links.
  destruct (bool_decide_reflect (fname_x = FocusUnit.bin_filename focus)) as [Ex|Ex];
    destruct (Z.eqb_spec (unit_x mt) (FocusUnit.unit_id focus)) as [Ux|Ux]; simpl;
    try (destruct (bool_decide_reflect (fname_y = FocusUnit.bin_filename focus)) as [Ey|Ey];
         destruct (Z.eqb_spec (unit_y mt) (FocusUnit.unit_id focus)) as [Uy|Uy]; simpl);
    try (intros H; left; exact H);
    intros H; apply lookup_insert_Some in H; destruct H as [[<- <-]|[_ H]]; auto 10.
Qed.

Lemma scan_match_keeps focus fname_x fname_y (m : gmap string Z) mt f :
  is_Some (m !! f) -> is_Some (scan_match focus fname_x fname_y m mt !! f).
Proof.
  intros Hf. unfold scan_match.
  repeat match goal with |- context [if ?b then _ else _] => destruct b end;
    try assumption; apply lookup_insert_is_Some'; auto.
Qed.

Lemma scan_match_links focus fname_x fname_y (m : gmap string Z) mt f u :
  links focus fname_x fname_y mt f u ->
  is_Some (scan_match focus fname_x fname_y m mt !! f).
Proof.
  unfold scan_match, links. intros [(Ex & Ux & -> & ->) | (Ey & Uy & -> & ->)].
  - rewrite bool_decide_eq_true_2 by assumption.
    rewrite (proj2 (Z.eqb_eq _ _) Ux). simpl. rewrite lookup_insert_eq. eauto.
  - destruct (bool_decide_reflect (fname_x = FocusUnit.bin_filename focus)) as [Ex|Ex];
      destruct (Z.eqb_spec (unit_x mt) (FocusUnit.unit_id focus)) as [Ux|Ux]; simpl;
      rewrite ?bool_decide_eq_true_2 by assumption;
      rewrite ?(proj2 (Z.eqb_eq _ _) Uy); simpl;
      try (rewrite lookup_insert_eq; eauto).
    rewrite Ex, <- Ey. rewrite lookup_insert_eq. eauto.
Qed.

Lemma scan_pair_lookup focus fname_x fname_y matches :
  forall (m : gmap string Z) f,
    (forall u, fold_left (scan_match focus fname_x fname_y) matches m !! f = Some u ->
               m !! f = Some u \/
               exists mt, In mt matches /\ links focus fname_x fname_y mt f u) /\
    (is_Some (m !! f) \/ (exists mt u, In mt matches /\ links focus fname_x fname_y mt f u) ->
     is_Some (fold_left (scan_match focus fname_x fname_y) matches m !! f)).
Proof.
  induction matches as [|mt matches IH]; intros m f; simpl.
  - split; [auto|]. intros [H|(mt & u & [] & _)]. assumption.
  - destruct (IH (scan_match focus fname_x fname_y m mt) f) as [IH1 IH2]. split.
    + intros u Hu. destruct (IH1 u Hu) as [H|(mt' & Hin & Hl)].
      * apply scan_match_lookup in H. destruct H as [H|H]; [auto|]. right. eauto.
      * right. eauto.
    + intros [H|(mt' & u & [<-|Hin] & Hl)]; apply IH2.
      * left. apply scan_match_keeps. assumption.
      * left. eapply scan_match_links. eassumption.
      * right. eauto.
Qed.

Lemma matches_map_fold focus pair_results f :
  forall (m : gmap string Z),
    (forall u,
        fold_left (fun m '(fname_x, fname_y, matches) =>
                     fold_left (scan_match focus fname_x fname_y) matches m)
                  pair_results m !! f = Some u ->
        m !! f = Some u \/
        exists fname_x fname_y matches mt,
          In (fname_x, fname_y, matches) pair_results /\ In mt matches /\
          links focus fname_x fname_y mt f u) /\
    (is_Some (m !! f) \/
     (exists fname_x fname_y matches mt u,
         In (fname_x, fname_y, matches) pair_results /\ In mt matches /\
         links focus fname_x fname_y mt f u) ->
     is_Some (fold_left (fun m '(fname_x, fname_y, matches) =>
                           fold_left (scan_match focus fname_x fname_y) matches m)
                        pair_results m !! f)).
Proof.
  induction pair_results as [|[[fx fy] ms] prs IH]; intros m; simpl.
  - split; [auto|]. intros [H|(? & ? & ? & ? & ? & [] & _)]. assumption.
  - destruct (IH (fold_left (scan_match focus fx fy) ms m)) as [IH1 IH2].
    destruct (scan_pair_lookup focus fx fy ms m f) as [P1 P2]. split.
    + intros u Hu. destruct (IH1 u Hu) as [H|(fx' & fy' & ms' & mt & Hin & Hmt & Hl)].
      * destruct (P1 u H) as [?|(mt & Hmt & Hl)]; [auto|].
        right. exists fx, fy, ms, mt. auto.
      * right. exists fx', fy', ms', mt. auto.
    + intros [H|(fx' & fy' & ms' & mt & u & [[= -> -> ->]|Hin] & Hmt & Hl)]; apply IH2.
      * left. apply P2. auto.
      * left. apply P2. right. eauto.
      * right. exists fx', fy', ms', mt, u. auto.
Qed.

(** X6.  The match map has an entry for a file exactly when some readable
    pair result holds a match with the focus unit on one side and a unit of
    that file on the other; the unit it records comes from such a match. *)
Theorem matches_map_lookup focus pair_results f :
  (forall u, build_mutual_matches_map focus pair_results !! f = Some u ->
             exists fname_x fname_y matches mt,
               In (fname_x, fname_y, matches) pair_results /\ In mt matches /\
               links focus fname_x fname_y mt f u) /\
  (is_Some (build_mutual_matches_map focus pair_results !! f) <->
   exists fname_x fname_y matches mt u,
     In (fname_x, fname_y, matches) pair_results /\ In mt matches /\
     links focus fname_x fname_y mt f u).
Proof.
  unfold build_mutual_matches_map.
  destruct (matches_map_fold focus pair_results f ∅) as [H1 H2]. split.
  - intros u Hu. destruct (H1 u Hu) as [E|?]; [|assumption].
    rewrite lookup_empty in E. discriminate.
  - split.
    + intros [u Hu]. destruct (H1 u Hu) as [E|(fx & fy & ms & mt & ?)].
      * rewrite lookup_empty in E. discriminate.
      * exists fx, fy, ms, mt, u. assumption.
    + intros Hex. apply H2. right. assumption.
Qed.

Lemma matches_map_lookup_witness :
  (forall u, Session.matches_map !! "C.bin"%string = Some u ->
             exists fname_x fname_y matches mt,
               In (fname_x, fname_y, matches) Session.pair_results /\ In mt matches /\
               links Session.focus fname_x fname_y mt "C.bin"%string u) /\
  (is_Some (Session.matches_map !! "C.bin"%string) <->
   exists fname_x fname_y matches mt u,
     In (fname_x, fname_y, matches) Session.pair_results /\ In mt matches /\
     links Session.focus fname_x fname_y mt "C.bin"%string u).
Proof.
  apply (matches_map_lookup Session.focus Session.pair_results "C.bin"%string).
Defined.

(** * Further properties of the matcher *)

Lemma ratio_bounds (c n : nat) :
  (c <= n)%nat -> (0 < n)%nat ->
  (0 <= inject_Z (Z.of_nat c) / inject_Z (Z.of_nat n) <= 1)%Q.
Proof.
  intros Hc Hn.
  assert (Hpos : (0 < inject_Z (Z.of_nat n))%Q) by (unfold Qlt, inject_Z; simpl; lia).
  split.
  - apply Qle_shift_div_l; [assumption|]. unfold Qle, inject_Z. simpl. lia.
  - apply Qle_shift_div_r; [assumption|]. unfold Qle, inject_Z. simpl. lia.
Qed.

Lemma where_eq_In (a : list Z) (k : Z) :
  Np.where_eq a k <> [] -> In k a.
Proof.
  destruct (Np.where_eq a k) as [|i l] eqn:E; [congruence|]. intros _.
  assert (Hi : In i (Np.where_eq a k)) by (rewrite E; left; reflexivity).
  apply where_eq_spec in Hi. apply list_elem_of_In. eapply list_elem_of_lookup_2. eassumption.
Qed.

(** Every slot of the two arrays of a cluster loop: the sentinel, or the
    candidate of a unit that has events. *)
Lemma best_matches_loop_slots nearest labels_src labels_ref max_label bm ms k :
  best_matches_loop nearest labels_src labels_ref max_label = Ok (bm, ms) ->
  0 <= k -> (Z.to_nat k < length bm)%nat ->
  (bm !! Z.to_nat k = Some 0 /\ ms !! Z.to_nat k = Some 0%Q) \/
  (1 <= k <= max_label /\ In k labels_src /\
   exists best score,
     unit_candidate nearest labels_src labels_ref k best score /\
     bm !! Z.to_nat k = Some best /\ ms !! Z.to_nat k = Some score).
Proof.
  intros Hloop Hk Hlt. apply best_matches_loop_spec in Hloop.
  destruct Hloop as (Hm & Hlen & _ & Hslot & Hzero). rewrite Hlen in Hlt.
  destruct (Z.eq_dec k 0) as [->|Hk0]; [left; apply Hzero; [lia|auto]|].
  destruct (Np.where_eq labels_src k) as [|i inds] eqn:E.
  - left. apply Hzero; [lia|auto].
  - right. split; [lia|]. split; [apply where_eq_In; congruence|].
    apply Hslot; [lia|congruence].
Qed.

Lemma unit_candidate_facts nearest labels_src labels_ref k best score :
  unit_candidate nearest labels_src labels_ref k best score ->
  (0 <= score <= 1)%Q /\ exists w, In w labels_ref /\ best = Np.wrap32 w.
Proof.
  intros (cm & w & Hcm & (j & Hj & _) & -> & ->).
  pose proof (Forall2_length _ _ _ Hcm) as Hlen.
  split.
  - apply ratio_bounds.
    + rewrite Hlen. unfold list_count. apply count_occ_bound.
    + apply lookup_lt_Some in Hj. lia.
  - exists w. split; [|reflexivity].
    destruct (Forall2_lookup_r _ _ _ _ _ Hcm Hj) as (i & _ & Hi).
    eapply event_best_label_in. eassumption.
Qed.

Lemma best_matches_loop_scores nearest labels_src labels_ref max_label bm ms k s :
  best_matches_loop nearest labels_src labels_ref max_label = Ok (bm, ms) ->
  match_score ms k = Some s -> (0 <= s <= 1)%Q.
Proof.
  intros Hloop Hs. unfold match_score in Hs. destruct (Z.ltb_spec k 0); [discriminate|].
  pose proof (best_matches_loop_spec _ _ _ _ _ _ Hloop) as (_ & Hlb & Hls & _).
  pose proof (lookup_lt_Some _ _ _ Hs) as Hlt. rewrite Hls, <- Hlb in Hlt.
  destruct (best_matches_loop_slots _ _ _ _ _ _ k Hloop) as
    [[_ E] | (_ & _ & best & score & Hc & _ & E)]; try assumption.
  - rewrite E in Hs. injection Hs as <-. split; [apply Qle_refl|discriminate].
  - rewrite E in Hs. injection Hs as <-. apply unit_candidate_facts in Hc. tauto.
Qed.

(** The pairs of [mutual_matches], without the range of the loop. *)
Lemma mutual_matches_exact nearest_x_to_y labels_x labels_y max_label_x
    bxy sxy byx syx mm :
  best_matches_loop nearest_x_to_y labels_x labels_y max_label_x = Ok (bxy, sxy) ->
  find_mutual_matches bxy sxy byx syx max_label_x = Ok mm ->
  forall m, In m mm <->
            exists kx, 1 <= kx <= max_label_x /\ mutual_pair bxy sxy byx syx kx m.
Proof.
  intros Hloop Hmut m. apply find_mutual_matches_spec in Hmut. destruct Hmut as [Hm1 Hm2].
  split; [apply Hm1|].
  intros (kx & Hkx & ky & s1 & s2 & E1 & Hpos & E2 & Es1 & Es2 & ->).
  destruct (Hm2 kx ky Hkx E1 Hpos E2)
    as (m' & Hm' & ky' & s1' & s2' & E1' & _ & _ & Es1' & Es2' & ->).
  assert (ky' = ky) as -> by congruence.
  assert (s1' = s1) as -> by congruence.
  assert (s2' = s2) as -> by congruence.
  assumption.
Qed.

(** X7.  Both directional scores and the overall score of every mutual
    match lie between 0 and 1. *)
Theorem scores_between_zero_and_one kneighbors frames_x labels_x frames_y labels_y
    n_neighbors out :
  compute_unit_matches kneighbors frames_x labels_x frames_y labels_y n_neighbors = Ok out ->
  Forall (fun m => (0 <= score_x_to_y m <= 1)%Q /\ (0 <= score_y_to_x m <= 1)%Q /\
                   (0 <= overall_score m <= 1)%Q)
         (mutual_matches out).
Proof.
  intros H. apply compute_unit_matches_inv in H.
  destruct H as (nyx & nxy & my & mx & byx & syx & bxy & sxy &
                 _ & _ & _ & Hly & _ & Hlx & Hmut & _ & _).
  apply Forall_forall. intros m Hm. apply list_elem_of_In in Hm.
  apply find_mutual_matches_spec in Hmut. destruct Hmut as [Hm1 _].
  destruct (Hm1 m Hm) as (kx & _ & ky & s1 & s2 & _ & _ & _ & Es1 & Es2 & ->). simpl.
  pose proof (best_matches_loop_scores _ _ _ _ _ _ _ _ Hlx Es1) as [L1 U1].
  pose proof (best_matches_loop_scores _ _ _ _ _ _ _ _ Hly Es2) as [L2 U2].
  repeat split; try assumption.
  - apply Qle_shift_div_l; [reflexivity|]. rewrite Qmult_0_l.
    rewrite <- (Qplus_0_r 0). apply Qplus_le_compat; assumption.
  - apply Qle_shift_div_r; [reflexivity|].
    apply (Qplus_le_compat _ 1 _ 1); assumption.
Qed.

Lemma scores_between_zero_and_one_witness :
  Forall (fun m => (0 <= score_x_to_y m <= 1)%Q /\ (0 <= score_y_to_x m <= 1)%Q /\
                   (0 <= overall_score m <= 1)%Q)
         (mutual_matches Recordings.copy_k1).
Proof.
  apply (scores_between_zero_and_one Sklearn.sk_kneighbors
           Recordings.frames Recordings.labels Recordings.frames Recordings.labels 1).
  vm_compute. reflexivity.
Defined.

Lemma mutual_loop_units bxy sxy byx syx (ks : list Z) :
  forall acc mm,
    foldM (mutual_step bxy sxy byx syx) ks acc = Ok mm ->
    Forall (fun k => 1 <= k) ks ->
    exists new, mm = acc ++ new /\ map unit_x new `sublist_of` ks.
Proof.
  induction ks as [|k ks IH]; intros acc mm H Hge; simpl in H.
  - injection H as <-. exists []. rewrite app_nil_r. split; [reflexivity|constructor].
  - inversion Hge as [|? ? Hk Hge']; subst.
    inv_bind H. rename a into acc1.
    destruct (IH _ _ H Hge') as (new & -> & Hsub).
    apply mutual_step_inv in Ha; [|assumption].
    destruct Ha as [[-> _] | (m0 & -> & ky & s1 & s2 & _ & _ & _ & _ & _ & ->)].
    + exists new. split; [reflexivity|]. apply sublist_cons. assumption.
    + eexists (_ :: new). rewrite <- app_assoc. split; [reflexivity|].
      simpl. apply sublist_skip. assumption.
Qed.

Lemma seqZ_strictly_ascending (m n : Z) : StronglySorted Z.lt (seqZ m n).
Proof.
  unfold seqZ. generalize (Z.to_nat n) as len. intros len.
  assert (H : forall start, StronglySorted Z.lt ((fun i => Z.of_nat i + m) <$> seq start len)).
  { induction len as [|len IH]; intros start; simpl; [constructor|].
    constructor; [apply IH|].
    apply Forall_forall. intros x Hx. apply list_elem_of_fmap in Hx.
    destruct Hx as (i & -> & Hi). apply elem_of_seq in Hi. lia. }
  apply H.
Qed.

Lemma sublist_strictly_ascending (l1 l2 : list Z) :
  l1 `sublist_of` l2 -> StronglySorted Z.lt l2 -> StronglySorted Z.lt l1.
Proof.
  induction 1 as [|x l1 l2 Hsub IH|x l1 l2 Hsub IH]; intros Hs.
  - constructor.
  - apply StronglySorted_inv in Hs. destruct Hs as [Hs Hall].
    constructor; [auto|]. rewrite Forall_forall in Hall |- *.
    intros y Hy. apply Hall. eapply elem_of_sublist; eassumption.
  - apply StronglySorted_inv in Hs. tauto.
Qed.

Lemma NoDup_by_key {A : Type} (f g : A -> Z) (l : list A) :
  NoDup (map g l) ->
  (forall a b, In a l -> In b l -> f a = f b -> g a = g b) ->
  NoDup (map f l).
Proof.
  induction l as [|a l IH]; simpl; intros Hnd Hfg; [constructor|].
  apply NoDup_cons in Hnd. destruct Hnd as [Hna Hnd]. apply NoDup_cons. split.
  - intros Hin. apply Hna. apply list_elem_of_In, in_map_iff in Hin.
    destruct Hin as (b & Hb & Hbl).
    apply list_elem_of_In, in_map_iff. exists b. split; [|assumption].
    symmetry. apply Hfg; auto.
  - apply IH; [assumption|]. intros b c Hb Hc. apply Hfg; auto.
Qed.

(** X8.  [mutual_matches] is a one-to-one pairing listed by ascending
    [unit_x]: no unit of X and no unit of Y occurs in two pairs. *)
Theorem mutual_matches_one_to_one kneighbors frames_x labels_x frames_y labels_y
    n_neighbors out :
  compute_unit_matches kneighbors frames_x labels_x frames_y labels_y n_neighbors = Ok out ->
  StronglySorted Z.lt (map unit_x (mutual_matches out)) /\
  NoDup (map unit_x (mutual_matches out)) /\
  NoDup (map unit_y (mutual_matches out)).
Proof.
  intros H. apply compute_unit_matches_inv in H.
  destruct H as (nyx & nxy & my & mx & byx & syx & bxy & sxy &
                 _ & _ & _ & _ & _ & _ & Hmut & _ & _).
  pose proof Hmut as Hmut'. unfold find_mutual_matches in Hmut'.
  assert (Hge : Forall (fun k => 1 <= k) (py_range 1 (mx + 1))).
  { apply Forall_forall. intros k Hk. apply elem_of_seqZ in Hk. lia. }
  apply find_mutual_matches_spec in Hmut. destruct Hmut as [Hm1 _].
  destruct (mutual_loop_units _ _ _ _ _ _ _ Hmut' Hge) as (new & Hnew & Hsub).
  simpl in Hnew. rewrite Hnew in *. clear Hnew.
  assert (Hnd : NoDup (map unit_x new)).
  { eapply sublist_NoDup; [apply NoDup_seqZ|eassumption]. }
  split; [|split; [assumption|]].
  - eapply sublist_strictly_ascending; [eassumption|apply seqZ_strictly_ascending].
  - eapply NoDup_by_key; [eassumption|].
    intros a b Ha Hb Hy.
    destruct (Hm1 a Ha) as (ka & _ & ya & ? & ? & _ & _ & Ea & _ & _ & ->).
    destruct (Hm1 b Hb) as (kb & _ & yb & ? & ? & _ & _ & Eb & _ & _ & ->).
    simpl in *. congruence.
Qed.

Lemma mutual_matches_one_to_one_witness :
  StronglySorted Z.lt (map unit_x (mutual_matches Recordings.copy_k1)) /\
  NoDup (map unit_x (mutual_matches Recordings.copy_k1)) /\
  NoDup (map unit_y (mutual_matches Recordings.copy_k1)).
Proof.
  apply (mutual_matches_one_to_one Sklearn.sk_kneighbors
           Recordings.frames Recordings.labels Recordings.frames Recordings.labels 1).
  vm_compute. reflexivity.
Defined.

(** X9.  Both units of a mutual match have events: [unit_x] is a label
    that occurs in [labels_x] and [unit_y] one that occurs in [labels_y].
    A label value between 1 and the largest label that no event carries is
    never an endpoint. *)
Theorem mutual_match_units_have_events kneighbors frames_x labels_x frames_y labels_y
    n_neighbors out :
  compute_unit_matches kneighbors frames_x labels_x frames_y labels_y n_neighbors = Ok out ->
  Forall (fun m => In (unit_x m) labels_x /\ In (unit_y m) labels_y) (mutual_matches out).
Proof.
  intros H. apply compute_unit_matches_inv in H.
  destruct H as (nyx & nxy & my & mx & byx & syx & bxy & sxy &
                 _ & _ & _ & Hly & _ & Hlx & Hmut & _ & _).
  apply Forall_forall. intros m Hm. apply list_elem_of_In in Hm.
  apply find_mutual_matches_spec in Hmut. destruct Hmut as [Hm1 _].
  destruct (Hm1 m Hm) as (kx & Hkx & ky & s1 & s2 & E1 & Hpos & E2 & _ & _ & ->). simpl.
  unfold best_match in E1, E2.
  destruct (Z.ltb_spec kx 0); [lia|]. destruct (Z.ltb_spec ky 0); [lia|].
  split.
  - destruct (best_matches_loop_slots _ _ _ _ _ _ kx Hlx) as [[E _] | (_ & Hin & _)];
      [lia | eapply lookup_lt_Some; eassumption | | assumption].
    rewrite E in E1. injection E1 as <-. lia.
  - destruct (best_matches_loop_slots _ _ _ _ _ _ ky Hly) as [[E _] | (_ & Hin & _)];
      [lia | eapply lookup_lt_Some; eassumption | | assumption].
    rewrite E in E2. injection E2 as <-. lia.
Qed.

Lemma mutual_match_units_have_events_witness :
  Forall (fun m => In (unit_x m) Pair.labels_x /\ In (unit_y m) Pair.labels_y)
         (mutual_matches Pair.x_to_y).
Proof.
  apply (mutual_match_units_have_events Sklearn.sk_kneighbors
           Pair.frames_x Pair.labels_x Pair.frames_y Pair.labels_y 1).
  vm_compute. reflexivity.
Defined.

(** X10.  Matching is symmetric: when both orders of the two recordings
    return, every pair ([kx], [ky]) reported for (X, Y) is reported as
    ([ky], [kx]) for (Y, X) with the two directional scores exchanged and
    an equal overall score, and the two event-level arrays are
    exchanged. *)
Theorem matching_is_symmetric kneighbors frames_x labels_x frames_y labels_y
    n_neighbors out out' :
  compute_unit_matches kneighbors frames_x labels_x frames_y labels_y n_neighbors = Ok out ->
  compute_unit_matches kneighbors frames_y labels_y frames_x labels_x n_neighbors = Ok out' ->
  event_matches_x_to_y out' = event_matches_y_to_x out /\
  event_matches_y_to_x out' = event_matches_x_to_y out /\
  forall m, In m (mutual_matches out) ->
    exists m', In m' (mutual_matches out') /\
               unit_x m' = unit_y m /\ unit_y m' = unit_x m /\
               score_x_to_y m' = score_y_to_x m /\ score_y_to_x m' = score_x_to_y m /\
               (overall_score m' == overall_score m)%Q.
Proof.
  intros H H'. apply compute_unit_matches_inv in H, H'.
  destruct H as (nyx & nxy & my & mx & byx & syx & bxy & sxy &
                 Hnyx & Hnxy & Hmy & Hly & Hmx & Hlx & Hmut & Hex & Hey).
  destruct H' as (nyx' & nxy' & my' & mx' & byx' & syx' & bxy' & sxy' &
                  Hnyx' & Hnxy' & Hmy' & Hly' & Hmx' & Hlx' & Hmut' & Hex' & Hey').
  assert (nyx' = nxy) as -> by congruence.
  assert (nxy' = nyx) as -> by congruence.
  assert (my' = mx) as -> by congruence.
  assert (mx' = my) as -> by congruence.
  assert (byx' = bxy /\ syx' = sxy) as [-> ->] by (split; congruence).
  assert (bxy' = byx /\ sxy' = syx) as [-> ->] by (split; congruence).
  split; [congruence|]. split; [congruence|].
  intros m Hm.
  apply (mutual_matches_exact _ _ _ _ _ _ _ _ _ Hlx Hmut) in Hm.
  destruct Hm as (kx & Hkx & ky & s1 & s2 & E1 & Hpos & E2 & Es1 & Es2 & ->).
  exists {| unit_x := ky; unit_y := kx; score_x_to_y := s2; score_y_to_x := s1;
            overall_score := ((s2 + s1) / 2)%Q |}.
  split.
  - apply (mutual_matches_exact _ _ _ _ _ _ _ _ _ Hly Hmut').
    exists ky. split.
    + unfold best_match in E2. destruct (Z.ltb_spec ky 0); [discriminate|].
      pose proof (best_matches_loop_spec _ _ _ _ _ _ Hly) as (_ & Hlen & _).
      apply lookup_lt_Some in E2. lia.
    + exists kx, s2, s1. repeat split; try assumption. lia.
  - simpl. repeat split; try reflexivity.
    unfold Qdiv. rewrite (Qplus_comm s2 s1). reflexivity.
Qed.

Lemma matching_is_symmetric_witness :
  event_matches_x_to_y Pair.y_to_x = event_matches_y_to_x Pair.x_to_y /\
  event_matches_y_to_x Pair.y_to_x = event_matches_x_to_y Pair.x_to_y /\
  forall m, In m (mutual_matches Pair.x_to_y) ->
    exists m', In m' (mutual_matches Pair.y_to_x) /\
               unit_x m' = unit_y m /\ unit_y m' = unit_x m /\
               score_x_to_y m' = score_y_to_x m /\ score_y_to_x m' = score_x_to_y m /\
               (overall_score m' == overall_score m)%Q.
Proof.
  apply (matching_is_symmetric Sklearn.sk_kneighbors
           Pair.frames_x Pair.labels_x Pair.frames_y Pair.labels_y 1).
  - vm_compute. reflexivity.
  - vm_compute. reflexivity.
Defined.

(** ** Votes and the order of the neighbors *)

Lemma most_frequent_smallest_perm (l l' : list Z) (b : Z) :
  l ≡ₚ l' -> most_frequent_smallest l b -> most_frequent_smallest l' b.
Proof.
  intros Hp (Hin & Hb). unfold most_frequent_smallest, list_count in *.
  assert (Hc : forall x, count_occ Z.eq_dec l x = count_occ Z.eq_dec l' x).
  { apply (Permutation_count_occ Z.eq_dec). assumption. }
  split.
  - eapply Permutation_in; eassumption.
  - intros x. rewrite <- !Hc. apply Hb.
Qed.

Lemma majority_label_perm (l l' : list Z) :
  l ≡ₚ l' -> majority_label l = majority_label l'.
Proof.
  intros Hp. destruct l as [|x l].
  - apply Permutation_nil in Hp. subst. reflexivity.
  - assert (Hne' : l' <> []).
    { intros ->. apply Permutation_sym, Permutation_nil in Hp. discriminate. }
    destruct (majority_label_returns (x :: l)) as [b Hb]; [discriminate|].
    destruct (majority_label_returns l' Hne') as [b' Hb'].
    rewrite Hb, Hb'. f_equal.
    apply majority_label_spec in Hb, Hb'.
    eapply most_frequent_smallest_unique; [|eassumption].
    eapply most_frequent_smallest_perm; eassumption.
Qed.

Lemma take_at_in_range (labels : list Z) (row : list nat) :
  Forall (fun j => (j < length labels)%nat) row ->
  Np.take_at labels row = Ok (map (fun j => nth j labels 0) row).
Proof.
  unfold Np.take_at. induction row as [|j row IH]; intros Hall; simpl; [reflexivity|].
  inversion Hall as [|? ? Hj Hall']; subst.
  destruct (lookup_lt_is_Some_2 labels j Hj) as [l Hl].
  unfold at_index at 1. rewrite nth_lookup, Hl. simpl.
  rewrite (IH Hall'). reflexivity.
Qed.

Lemma take_at_out_of_range (labels : list Z) (row : list nat) :
  ~ Forall (fun j => (j < length labels)%nat) row ->
  Np.take_at labels row = Raise IndexError.
Proof.
  unfold Np.take_at. induction row as [|j row IH]; intros Hall; simpl.
  - exfalso. apply Hall. constructor.
  - unfold at_index at 1. destruct (labels !! j) as [l|] eqn:E; simpl; [|reflexivity].
    rewrite IH; [reflexivity|]. intros Hrow. apply Hall.
    constructor; [eapply lookup_lt_Some; eassumption|assumption].
Qed.

(** X11.  A vote depends on which reference events are in the row of an
    event, not on the order in which the neighbor search lists them:
    [majority_label] gives the same label for any rearrangement of the
    neighbor labels, and two neighbor arrays whose rows for event [i] are
    rearrangements of each other give event [i] the same best label (or
    the same exception). *)
Theorem vote_ignores_neighbor_order :
  (forall l l', l ≡ₚ l' -> majority_label l = majority_label l') /\
  (forall nearest nearest' labels i row row',
      nearest !! i = Some row -> nearest' !! i = Some row' -> row ≡ₚ row' ->
      event_best_label nearest labels i = event_best_label nearest' labels i).
Proof.
  split; [apply majority_label_perm|].
  intros nearest nearest' labels i row row' Hrow Hrow' Hp.
  unfold event_best_label, neighbor_labels_of, at_index. rewrite Hrow, Hrow'. simpl.
  destruct (decide (Forall (fun j => (j < length labels)%nat) row)) as [Hall|Hall].
  - assert (Hall' : Forall (fun j => (j < length labels)%nat) row').
    { rewrite <- Hp. assumption. }
    rewrite (take_at_in_range _ _ Hall), (take_at_in_range _ _ Hall'). simpl.
    apply majority_label_perm. apply Permutation_map. assumption.
  - assert (Hall' : ~ Forall (fun j => (j < length labels)%nat) row').
    { rewrite <- Hp. assumption. }
    rewrite (take_at_out_of_range _ _ Hall), (take_at_out_of_range _ _ Hall'). reflexivity.
Qed.

Lemma vote_ignores_neighbor_order_witness :
  event_best_label [[0%nat; 1%nat; 2%nat]] Recordings.noisy_labels 0
  = event_best_label [[2%nat; 0%nat; 1%nat]] Recordings.noisy_labels 0.
Proof.
  apply (proj2 vote_ignores_neighbor_order
           [[0%nat; 1%nat; 2%nat]] [[2%nat; 0%nat; 1%nat]] Recordings.noisy_labels 0%nat
           [0%nat; 1%nat; 2%nat] [2%nat; 0%nat; 1%nat]).
  - reflexivity.
  - reflexivity.
  - change [2%nat; 0%nat; 1%nat] with ([2%nat] ++ [0%nat; 1%nat]).
    change [0%nat; 1%nat; 2%nat] with ([0%nat; 1%nat] ++ [2%nat]).
    apply Permutation_app_comm.
Defined.

(** ** Inputs on which the matcher returns *)











(** * The store of focus units *)

Lemma filter_length_eq {A : Type} (p : A -> bool) (l : list A) :
  length (List.filter p l) = length l <-> forallb p l = true.
Proof.
  induction l as [|a l IH]; simpl; [tauto|].
  pose proof (List.filter_length_le p l) as Hle.
  destruct (p a); simpl.
  - rewrite <- IH. lia.
  - split; [lia|discriminate].
Qed.

(** X13.  Deleting a focus unit answers 404 and leaves the file as it is
    exactly when no stored unit has the id; otherwise it answers 200 and
    writes back the stored units without every unit of that id, the others
    in their order.  Deleting the same id again then answers 404. *)
Theorem delete_removes_every_unit_of_the_id (file : store_file) (focus_unit_id : string) :
  let '(file', reply) := delete_focus_unit_handler file focus_unit_id in
  (status_of reply = 404 <->
   Forall (fun unit => ~ has_id focus_unit_id unit) (load_focus_units file)) /\
  (status_of reply = 404 -> file' = file) /\
  (status_of reply <> 404 ->
   status_of reply = 200 /\
   (forall unit, In unit (load_focus_units file') <->
                 In unit (load_focus_units file) /\ ~ has_id focus_unit_id unit) /\
   load_focus_units file' `sublist_of` load_focus_units file /\
   delete_focus_unit_handler file' focus_unit_id
   = (file', ErrorReply 404 (not_found_message focus_unit_id))).
Proof.
  unfold delete_focus_unit_handler.
  set (keep := fun unit => negb (String.eqb (StoredUnit.focus_unit_id unit) focus_unit_id)).
  assert (Hkeep : forall unit, keep unit = true <-> ~ has_id focus_unit_id unit).
  { intros unit. unfold keep, has_id. rewrite negb_true_iff.
    destruct (String.eqb_spec (StoredUnit.focus_unit_id unit) focus_unit_id);
      split; congruence. }
  destruct (Nat.eqb_spec (length (List.filter keep (load_focus_units file)))
                         (length (load_focus_units file))) as [E|E]; simpl.
  - split; [|split; [reflexivity|congruence]].
    split; [|reflexivity]. intros _.
    apply filter_length_eq in E. rewrite forallb_forall in E.
    apply Forall_forall. intros unit Hu. apply Hkeep, E, list_elem_of_In. assumption.
  - split; [|split; [discriminate|]].
    + split; [discriminate|]. intros Hall. exfalso. apply E.
      apply filter_length_eq, forallb_forall. intros unit Hu. apply Hkeep.
      rewrite Forall_forall in Hall. apply Hall, list_elem_of_In. assumption.
    + intros _. split; [reflexivity|]. split; [|split].
      * intros unit. rewrite filter_In, Hkeep. reflexivity.
      * clear. induction (load_focus_units file) as [|u l IH]; simpl; [constructor|].
        destruct (keep u); [apply sublist_skip | apply sublist_cons]; assumption.
      * assert (Hagain : List.filter keep (List.filter keep (load_focus_units file))
                         = List.filter keep (load_focus_units file)).
        { clear. induction (load_focus_units file) as [|u l IH]; simpl; [reflexivity|].
          destruct (keep u) eqn:Eu; simpl; [rewrite Eu, IH|]; auto. }
        fold keep. rewrite Hagain, Nat.eqb_refl. reflexivity.
Qed.

Lemma delete_removes_every_unit_of_the_id_witness :
  let '(file', reply) := delete_focus_unit_handler Shelf.file "F002" in
  (status_of reply = 404 <->
   Forall (fun unit => ~ has_id "F002" unit) (load_focus_units Shelf.file)) /\
  (status_of reply = 404 -> file' = Shelf.file) /\
  (status_of reply <> 404 ->
   status_of reply = 200 /\
   (forall unit, In unit (load_focus_units file') <->
                 In unit (load_focus_units Shelf.file) /\ ~ has_id "F002" unit) /\
   load_focus_units file' `sublist_of` load_focus_units Shelf.file /\
   delete_focus_unit_handler file' "F002"
   = (file', ErrorReply 404 (not_found_message "F002"))).
Proof. apply (delete_removes_every_unit_of_the_id Shelf.file "F002"). Defined.

Lemma set_notes_spec (focus_units : list StoredUnit.t) (focus_unit_id notes : string) :
  let '(updated, unit_found) := set_notes focus_units focus_unit_id notes in
  (unit_found = false ->
   updated = focus_units /\ Forall (fun unit => ~ has_id focus_unit_id unit) focus_units) /\
  (unit_found = true ->
   exists before unit after,
     focus_units = before ++ unit :: after /\
     Forall (fun u => ~ has_id focus_unit_id u) before /\
     has_id focus_unit_id unit /\
     updated = before ++
               {| StoredUnit.focus_unit_id := StoredUnit.focus_unit_id unit;
                  StoredUnit.bin_filename := StoredUnit.bin_filename unit;
                  StoredUnit.unit_id := StoredUnit.unit_id unit;
                  StoredUnit.notes := notes;
                  StoredUnit.spike_labels_hash := StoredUnit.spike_labels_hash unit |}
               :: after).
Proof.
  induction focus_units as [|u l IH]; simpl.
  - split; [auto|discriminate].
  - destruct (String.eqb_spec (StoredUnit.focus_unit_id u) focus_unit_id) as [E|E].
    + split; [discriminate|]. intros _. exists [], u, l. simpl. auto.
    + destruct (set_notes l focus_unit_id notes) as [l' found].
      destruct IH as [IH0 IH1]. split.
      * intros ->. destruct (IH0 eq_refl) as [-> Hall]. split; [reflexivity|].
        constructor; assumption.
      * intros ->. destruct (IH1 eq_refl) as (before & unit & after & -> & Hb & Hu & ->).
        exists (u :: before), unit, after. simpl. repeat split; auto.
Qed.

(** X14.  Updating the notes answers 400 without a [notes] field, 404 when
    no stored unit has the id, and in both cases leaves the file as it is.
    Otherwise it answers 200 and rewrites the file with the notes of the
    first unit of that id replaced; every other unit, later units of the
    same id included, and every other field stay as they were. *)
Theorem update_changes_one_note (file : store_file) (focus_unit_id : string)
    (request_notes : option string) :
  let '(file', reply) := update_focus_unit_handler file focus_unit_id request_notes in
  (request_notes = None -> file' = file /\ status_of reply = 400) /\
  (forall notes, request_notes = Some notes ->
     (status_of reply = 404 <->
      Forall (fun unit => ~ has_id focus_unit_id unit) (load_focus_units file)) /\
     (status_of reply = 404 -> file' = file) /\
     (status_of reply <> 404 ->
      status_of reply = 200 /\
      exists before unit after,
        load_focus_units file = before ++ unit :: after /\
        Forall (fun u => ~ has_id focus_unit_id u) before /\
        has_id focus_unit_id unit /\
        file' = Store (before ++
                       {| StoredUnit.focus_unit_id := StoredUnit.focus_unit_id unit;
                          StoredUnit.bin_filename := StoredUnit.bin_filename unit;
                          StoredUnit.unit_id := StoredUnit.unit_id unit;
                          StoredUnit.notes := notes;
                          StoredUnit.spike_labels_hash := StoredUnit.spike_labels_hash unit |}
                       :: after))).
Proof.
  unfold update_focus_unit_handler. destruct request_notes as [notes|].
  - pose proof (set_notes_spec (load_focus_units file) focus_unit_id notes) as Hspec.
    destruct (set_notes (load_focus_units file) focus_unit_id notes) as [data' found].
    destruct Hspec as [H0 H1]. destruct found; simpl.
    + split; [discriminate|]. intros ? [= <-].
      destruct (H1 eq_refl) as (before & unit & after & E & Hb & Hu & ->).
      split; [|split; [discriminate|]].
      * split; [discriminate|]. intros Hall. rewrite E in Hall.
        apply Forall_app in Hall. destruct Hall as [_ Hall].
        inversion Hall; subst. contradiction.
      * intros _. split; [reflexivity|]. exists before, unit, after. auto.
    + split; [discriminate|]. intros ? [= <-].
      destruct (H0 eq_refl) as [_ Hall].
      split; [tauto|]. split; [reflexivity|congruence].
  - simpl. split; [auto|]. discriminate.
Qed.

Lemma update_changes_one_note_witness :
  let '(file', reply) := update_focus_unit_handler Shelf.file "F002" (Some "noisy"%string) in
  (Some "noisy"%string = None -> file' = Shelf.file /\ status_of reply = 400) /\
  (forall notes, Some "noisy"%string = Some notes ->
     (status_of reply = 404 <->
      Forall (fun unit => ~ has_id "F002" unit) (load_focus_units Shelf.file)) /\
     (status_of reply = 404 -> file' = Shelf.file) /\
     (status_of reply <> 404 ->
      status_of reply = 200 /\
      exists before unit after,
        load_focus_units Shelf.file = before ++ unit :: after /\
        Forall (fun u => ~ has_id "F002" u) before /\
        has_id "F002" unit /\
        file' = Store (before ++
                       {| StoredUnit.focus_unit_id := StoredUnit.focus_unit_id unit;
                          StoredUnit.bin_filename := StoredUnit.bin_filename unit;
                          StoredUnit.unit_id := StoredUnit.unit_id unit;
                          StoredUnit.notes := notes;
                          StoredUnit.spike_labels_hash := StoredUnit.spike_labels_hash unit |}
                       :: after))).
Proof. apply (update_changes_one_note Shelf.file "F002" (Some "noisy"%string)). Defined.

(** ** New focus units *)

Lemma zeros_append_length (k : nat) (s : string) :
  String.length (zeros k ++ s) = (k + String.length s)%nat.
Proof. induction k as [|k IH]; simpl; [reflexivity|]. rewrite IH. reflexivity. Qed.

Lemma uint_of_zeros_append (k : nat) (s : string) :
  NilEmpty.uint_of_string (zeros k ++ s)
  = option_map (Nat.iter k Decimal.D0) (NilEmpty.uint_of_string s).
Proof.
  induction k as [|k IH].
  - change (zeros 0 ++ s)%string with s.
    destruct (NilEmpty.uint_of_string s); reflexivity.
  - change (zeros (S k) ++ s)%string with (String "0"%char (zeros k ++ s)).
    change (NilEmpty.uint_of_string (String "0"%char (zeros k ++ s)))
      with (uint_of_char "0"%char (NilEmpty.uint_of_string (zeros k ++ s))).
    rewrite IH. destruct (NilEmpty.uint_of_string s); reflexivity.
Qed.

Lemma of_uint_leading_zeros (k : nat) (d : Decimal.uint) :
  N.of_uint (Nat.iter k Decimal.D0 d) = N.of_uint d.
Proof. induction k as [|k IH]; simpl; [reflexivity|]. exact IH. Qed.

(** [ascii_int] reads back what [format_03d] prints. *)
Lemma ascii_int_format (n : Z) : 0 < n -> ascii_int (format_03d n) = Some n.
Proof.
  intros Hn. unfold format_03d. destruct (Z.ltb_spec n 0); [lia|].
  unfold ascii_int, zero_pad, digits.
  rewrite uint_of_zeros_append, NilEmpty.usu. simpl option_map. cbv iota.
  rewrite zeros_append_length.
  destruct (Nat.eqb_spec
              (3 - String.length (NilEmpty.string_of_uint (N.to_uint (Z.to_N n)))
               + String.length (NilEmpty.string_of_uint (N.to_uint (Z.to_N n)))) 0) as [E|_].
  - lia.
  - rewrite of_uint_leading_zeros, DecimalN.Unsigned.of_to. f_equal. lia.
Qed.

Section NewFocusUnitsFacts.

Variable py_int : string -> option Z.
Variable has_spike_labels : string -> bool.
Variable spike_labels_sha1 : string -> option string.

(** What is used of [int]: it reads the decimal digits of a positive
    number, zero-padded or not, as that number. *)
Hypothesis py_int_format : forall n, 0 < n -> py_int (format_03d n) = Some n.

Let bump (max_num : Z) (unit : StoredUnit.t) : Z :=
  let focus_id := StoredUnit.focus_unit_id unit in
  if String.prefix "F" focus_id then
    match py_int (string_tail focus_id) with
    | Some num => Z.max max_num num
    | None => max_num
    end
  else max_num.

Lemma max_num_bounds (units : list StoredUnit.t) (start : Z) :
  start <= fold_left bump units start /\
  forall unit num,
    In unit units ->
    String.prefix "F" (StoredUnit.focus_unit_id unit) = true ->
    py_int (string_tail (StoredUnit.focus_unit_id unit)) = Some num ->
    num <= fold_left bump units start.
Proof.
  revert start. induction units as [|u units IH]; intros start; simpl.
  - split; [lia|]. intros ? ? [].
  - destruct (IH (bump start u)) as [IH1 IH2].
    assert (Hb : start <= bump start u).
    { unfold bump. destruct (String.prefix _ _); [|lia].
      destruct (py_int _); lia. }
    split; [lia|]. intros unit num [<-|Hin] Hp Hnum.
    + assert (num <= bump start u).
      { unfold bump. rewrite Hp, Hnum. lia. }
      lia.
    + eapply IH2; eassumption.
Qed.

Lemma next_id_fresh (existing_units : list StoredUnit.t) :
  Forall (fun unit => StoredUnit.focus_unit_id unit
                      <> get_next_focus_unit_id py_int existing_units)
         existing_units.
Proof.
  apply Forall_forall. intros unit Hin Heq. apply list_elem_of_In in Hin.
  unfold get_next_focus_unit_id in Heq.
  destruct existing_units as [|u0 rest] eqn:E; [destruct Hin|].
  rewrite <- E in *. clear E.
  fold bump in Heq.
  destruct (max_num_bounds existing_units 0) as [H0 Hmax].
  specialize (Hmax unit (fold_left bump existing_units 0 + 1) Hin).
  rewrite Heq in Hmax. simpl in Hmax.
  assert (Hp : forall s, String.prefix "" s = true) by (intros []; reflexivity).
  assert (Hpos : 0 < fold_left bump existing_units 0 + 1) by lia.
  specialize (Hmax (Hp _) (py_int_format _ Hpos)). lia.
Qed.

(** X15.  The id made for a new focus unit is an [F] followed by at least
    three decimal digits, and no stored unit has it. *)
Theorem next_focus_unit_id_is_fresh (existing_units : list StoredUnit.t) :
  Forall (fun unit => StoredUnit.focus_unit_id unit
                      <> get_next_focus_unit_id py_int existing_units)
         existing_units /\
  exists n, 0 < n /\ get_next_focus_unit_id py_int existing_units = String "F" (format_03d n) /\
            (3 <= String.length (format_03d n))%nat.
Proof.
  split; [apply next_id_fresh|].
  assert (Hlen : forall n, 0 < n -> (3 <= String.length (format_03d n))%nat).
  { intros n Hn. unfold format_03d, zero_pad. destruct (Z.ltb_spec n 0); [lia|].
    rewrite zeros_append_length. lia. }
  unfold get_next_focus_unit_id. destruct existing_units as [|u0 rest] eqn:E.
  - exists 1. split; [lia|]. split; [reflexivity|]. apply Hlen. lia.
  - rewrite <- E. fold bump.
    destruct (max_num_bounds existing_units 0) as [H0 _].
    exists (fold_left bump existing_units 0 + 1).
    split; [lia|]. split; [reflexivity|]. apply Hlen. lia.
Qed.

Lemma add_units_spec (units_to_add : list unit_request) :
  forall existing_units added_units existing' added',
    add_units py_int has_spike_labels spike_labels_sha1
              units_to_add existing_units added_units = inl (existing', added') ->
    exists new,
      existing' = existing_units ++ new /\ added' = added_units ++ new /\
      Forall2 (fun request unit =>
                 req_bin_filename request = Some (StoredUnit.bin_filename unit) /\
                 req_unit_id request = Some (StoredUnit.unit_id unit) /\
                 StoredUnit.notes unit = ""%string /\
                 spike_labels_sha1 (StoredUnit.bin_filename unit)
                 = Some (StoredUnit.spike_labels_hash unit))
              units_to_add new /\
      NoDup (map StoredUnit.focus_unit_id new) /\
      (forall unit old, In unit new -> In old existing_units ->
                        StoredUnit.focus_unit_id unit <> StoredUnit.focus_unit_id old).
Proof.
  induction units_to_add as [|request rest IH];
    intros existing_units added_units existing' added' H; simpl in H.
  - injection H as <- <-. exists []. rewrite !app_nil_r.
    repeat split; [constructor | constructor | intros ? ? []].
  - destruct (req_bin_filename request) as [bin_filename|] eqn:Eb; [|discriminate].
    destruct (req_unit_id request) as [unit_id|] eqn:Eu; [|discriminate].
    destruct (String.eqb bin_filename ""); [discriminate|].
    destruct (has_spike_labels bin_filename); [|discriminate]. simpl in H.
    destruct (spike_labels_sha1 bin_filename) as [hash|] eqn:Eh; [|discriminate].
    set (new_unit := {| StoredUnit.focus_unit_id := get_next_focus_unit_id py_int existing_units;
                        StoredUnit.bin_filename := bin_filename;
                        StoredUnit.unit_id := unit_id;
                        StoredUnit.notes := "";
                        StoredUnit.spike_labels_hash := hash |}) in *.
    destruct (IH _ _ _ _ H) as (new & -> & -> & Hall & Hnd & Hfresh).
    exists (new_unit :: new). rewrite <- !app_assoc. simpl.
    split; [reflexivity|]. split; [reflexivity|]. split; [|split].
    + constructor; [|assumption]. simpl. auto.
    + apply NoDup_cons. split; [|assumption].
      intros Hin. apply list_elem_of_In, in_map_iff in Hin.
      destruct Hin as (unit & Hid & Hin).
      apply (Hfresh unit new_unit Hin); [|assumption].
      apply in_app_iff. right. left. reflexivity.
    + intros unit old [<-|Hin] Hold.
      * simpl. pose proof (next_id_fresh existing_units) as Hf.
        rewrite Forall_forall in Hf. intros E. eapply Hf; [|symmetry; eassumption].
        apply list_elem_of_In. assumption.
      * apply Hfresh; [assumption|]. apply in_app_iff. left. assumption.
Qed.

(** X16.  Adding focus units is all or nothing.  Any answer other than 201
    leaves the file as it is, also when only a later unit of the request is
    refused.  With 201, one unit per request element, in order and with
    empty notes and the hash of its file, is appended to the stored units;
    the new ids are pairwise distinct and none of them was in the store. *)
Theorem add_focus_units_all_or_nothing (file : store_file)
    (request_units : option (list unit_request)) :
  let '(file', reply) :=
    add_focus_units_handler py_int has_spike_labels spike_labels_sha1 file request_units in
  (status_of reply <> 201 -> file' = file) /\
  (status_of reply = 201 ->
   exists units_to_add added,
     request_units = Some units_to_add /\ reply = Reply 201 added /\
     file' = Store (load_focus_units file ++ added) /\
     Forall2 (fun request unit =>
                req_bin_filename request = Some (StoredUnit.bin_filename unit) /\
                req_unit_id request = Some (StoredUnit.unit_id unit) /\
                StoredUnit.notes unit = ""%string /\
                spike_labels_sha1 (StoredUnit.bin_filename unit)
                = Some (StoredUnit.spike_labels_hash unit))
             units_to_add added /\
     NoDup (map StoredUnit.focus_unit_id added) /\
     (forall unit old, In unit added -> In old (load_focus_units file) ->
                       StoredUnit.focus_unit_id unit <> StoredUnit.focus_unit_id old)).
Proof.
  unfold add_focus_units_handler.
  destruct request_units as [[|request rest]|];
    [simpl; split; [reflexivity|discriminate] | | simpl; split; [reflexivity|discriminate]].
  destruct (add_units py_int has_spike_labels spike_labels_sha1 (request :: rest)
                      (load_focus_units file) []) as [[existing' added']|[status error]] eqn:E.
  - simpl. split; [congruence|]. intros _.
    destruct (add_units_spec _ _ _ _ _ E) as (new & -> & -> & Hall & Hnd & Hfresh).
    exists (request :: rest), new. simpl. auto 10.
  - simpl. split; [reflexivity|]. intros ->.
    exfalso. clear -E. revert E.
    generalize (load_focus_units file) (@nil StoredUnit.t) (request :: rest).
    intros existing added units. revert existing added.
    induction units as [|r units IH]; intros existing added; simpl; [discriminate|].
    destruct (req_bin_filename r); [|intros [= ?]; lia].
    destruct (req_unit_id r); [|intros [= ?]; lia].
    destruct (String.eqb _ _); [intros [= ?]; lia|].
    destruct (has_spike_labels _); simpl; [|intros [= ?]; lia].
    destruct (spike_labels_sha1 _); [apply IH|intros [= ?]; lia].
Qed.

End NewFocusUnitsFacts.

Lemma next_focus_unit_id_is_fresh_witness :
  Forall (fun unit => StoredUnit.focus_unit_id unit
                      <> get_next_focus_unit_id ascii_int (load_focus_units Shelf.file))
         (load_focus_units Shelf.file) /\
  exists n, 0 < n /\
            get_next_focus_unit_id ascii_int (load_focus_units Shelf.file)
            = String "F" (format_03d n) /\
            (3 <= String.length (format_03d n))%nat.
Proof.
  apply (next_focus_unit_id_is_fresh ascii_int ascii_int_format (load_focus_units Shelf.file)).
Defined.

Lemma add_focus_units_all_or_nothing_witness :
  let '(file', reply) :=
    add_focus_units_handler ascii_int (fun _ => true) (fun s => Some ("h-" ++ s)%string)
      Shelf.file (Some [UnitRequest (Some "B.bin"%string) (Some 3)]) in
  (status_of reply <> 201 -> file' = Shelf.file) /\
  (status_of reply = 201 ->
   exists units_to_add added,
     Some [UnitRequest (Some "B.bin"%string) (Some 3)] = Some units_to_add /\
     reply = Reply 201 added /\
     file' = Store (load_focus_units Shelf.file ++ added) /\
     Forall2 (fun request unit =>
                req_bin_filename request = Some (StoredUnit.bin_filename unit) /\
                req_unit_id request = Some (StoredUnit.unit_id unit) /\
                StoredUnit.notes unit = ""%string /\
                (fun s => Some ("h-" ++ s)%string) (StoredUnit.bin_filename unit)
                = Some (StoredUnit.spike_labels_hash unit))
             units_to_add added /\
     NoDup (map StoredUnit.focus_unit_id added) /\
     (forall unit old, In unit added -> In old (load_focus_units Shelf.file) ->
                       StoredUnit.focus_unit_id unit <> StoredUnit.focus_unit_id old)).
Proof.
  apply (add_focus_units_all_or_nothing ascii_int (fun _ => true)
           (fun s => Some ("h-" ++ s)%string) ascii_int_format
           Shelf.file (Some [UnitRequest (Some "B.bin"%string) (Some 3)])).
Defined.

(** ** Listing the focus units with their matches *)

Lemma side_test (a b : string) (x y : Z) :
  bool_decide (a = b) && (x =? y) = true <-> a = b /\ x = y.
Proof. rewrite andb_true_iff, bool_decide_eq_true, Z.eqb_eq. reflexivity. Qed.

Lemma list_match_In bin_filename unit_id fname_x fname_y acc mt r :
  In r (list_match bin_filename unit_id fname_x fname_y acc mt) <->
  In r acc \/
  (links (FocusUnit.Make bin_filename unit_id) fname_x fname_y mt
         (ref_bin_filename r) (ref_unit_id r) /\
   ref_overall_score r = overall_score mt).
Proof.
  unfold list_match, links. simpl.
  destruct (bool_decide (fname_x = bin_filename) && (unit_x mt =? unit_id)) eqn:C1.
  - apply side_test in C1. destruct C1 as [Ex Ux].
    rewrite in_app_iff. simpl. split.
    + intros [Hacc|[<-|[]]]; [left; assumption|]. right. simpl. auto 10.
    + intros [Hacc|[[(_ & _ & Hf & Hu)|(Ey & Uy & Hf & Hu)] Hs]]; [left; assumption| |];
        right; left; destruct r as [rf ru rs]; simpl in *; subst; congruence.
  - assert (N1 : ~ (fname_x = bin_filename /\ unit_x mt = unit_id)).
    { intros H. apply side_test in H. congruence. }
    destruct (bool_decide (fname_y = bin_filename) && (unit_y mt =? unit_id)) eqn:C2.
    + apply side_test in C2. destruct C2 as [Ey Uy].
      rewrite in_app_iff. simpl. split.
      * intros [Hacc|[<-|[]]]; [left; assumption|]. right. simpl. auto 10.
      * intros [Hacc|[[(Ex & Ux & _)|(_ & _ & Hf & Hu)] Hs]];
          [left; assumption | tauto |].
        right; left; destruct r as [rf ru rs]; simpl in *; subst; congruence.
    + assert (N2 : ~ (fname_y = bin_filename /\ unit_y mt = unit_id)).
      { intros H. apply side_test in H. congruence. }
      split; [auto|]. intros [Hacc|[[(Ex & Ux & _)|(Ey & Uy & _)] _]]; tauto.
Qed.

Lemma collect_pair_In bin_filename unit_id fname_x fname_y matches :
  forall acc r,
    In r (fold_left (list_match bin_filename unit_id fname_x fname_y) matches acc) <->
    In r acc \/
    exists mt, In mt matches /\
               links (FocusUnit.Make bin_filename unit_id) fname_x fname_y mt
                     (ref_bin_filename r) (ref_unit_id r) /\
               ref_overall_score r = overall_score mt.
Proof.
  induction matches as [|mt matches IH]; intros acc r; simpl.
  - split; [auto|]. intros [H|(? & [] & _)]. assumption.
  - rewrite IH, list_match_In. split.
    + intros [[Ha|Hl]|(mt' & Hin & Hl)]; [auto | right; eauto | right; eauto].
    + intros [Ha|(mt' & [<-|Hin] & Hl)]; [auto | auto | right; eauto].
Qed.

Lemma collect_matches_In bin_filename unit_id pair_results r :
  In r (collect_matches bin_filename unit_id pair_results) <->
  exists fname_x fname_y matches mt,
    In (fname_x, fname_y, matches) pair_results /\ In mt matches /\
    links (FocusUnit.Make bin_filename unit_id) fname_x fname_y mt
          (ref_bin_filename r) (ref_unit_id r) /\
    ref_overall_score r = overall_score mt.
Proof.
  unfold collect_matches.
  assert (H : forall acc,
             In r (fold_left (fun acc '(fname_x, fname_y, matches) =>
                                fold_left (list_match bin_filename unit_id fname_x fname_y)
                                          matches acc) pair_results acc) <->
             In r acc \/
             exists fname_x fname_y matches mt,
               In (fname_x, fname_y, matches) pair_results /\ In mt matches /\
               links (FocusUnit.Make bin_filename unit_id) fname_x fname_y mt
                     (ref_bin_filename r) (ref_unit_id r) /\
               ref_overall_score r = overall_score mt).
  { induction pair_results as [|[[fx fy] ms] prs IH]; intros acc; simpl.
    - split; [auto|]. intros [H|(? & ? & ? & ? & [] & _)]. assumption.
    - rewrite IH, collect_pair_In. split.
      + intros [[Ha|(mt & Hin & Hl)]|(fx' & fy' & ms' & mt & Hp & Hl)].
        * auto.
        * right. exists fx, fy, ms, mt. auto.
        * right. exists fx', fy', ms', mt. auto.
      + intros [Ha|(fx' & fy' & ms' & mt & [[= -> -> ->]|Hp] & Hin & Hl)].
        * auto.
        * left. right. eauto.
        * right. exists fx', fy', ms', mt. auto. }
  rewrite H. simpl. tauto.
Qed.

Lemma unique_matches_from_spec (l : list match_ref) :
  forall seen : gset (string * Z),
    NoDup (map match_key (unique_matches_from seen l)) /\
    unique_matches_from seen l `sublist_of` l /\
    forall k, In k (map match_key (unique_matches_from seen l)) <->
              (k ∉ seen) /\ In k (map match_key l).
Proof.
  induction l as [|m l IH]; intros seen; simpl.
  - split; [constructor|]. split; [constructor|]. intros k. tauto.
  - destruct (bool_decide_reflect (match_key m ∈ seen)) as [Hs|Hs].
    + destruct (IH seen) as (Hnd & Hsub & Hk).
      split; [assumption|]. split; [apply sublist_cons; assumption|].
      intros k. rewrite Hk. split; [tauto|].
      intros [Hn [<-|Hin]]; [contradiction|auto].
    + destruct (IH ({[match_key m]} ∪ seen)) as (Hnd & Hsub & Hk).
      split; [|split; [apply sublist_skip; assumption|]].
      * simpl. apply NoDup_cons. split; [|assumption].
        intros Hin. apply list_elem_of_In, Hk in Hin. destruct Hin as [Hn _].
        apply Hn. apply elem_of_union. left. apply elem_of_singleton. reflexivity.
      * intros k. simpl. rewrite Hk. split.
        -- intros [<-|[Hn Hin]]; [auto|]. split; [|auto].
           intros Hk'. apply Hn, elem_of_union. right. assumption.
        -- intros [Hn [<-|Hin]]; [auto|].
           destruct (decide (match_key m = k)) as [E|E]; [auto|].
           right. split; [|assumption]. intros Hk'. apply elem_of_union in Hk'.
           destruct Hk' as [Hk'|Hk']; [|contradiction].
           apply elem_of_singleton in Hk'. congruence.
Qed.

(** X17.  The listing has one entry per stored unit, in order.  The
    matches of an entry have pairwise different (file, unit) keys; a key is
    listed exactly when some readable pair result holds a match with the
    stored unit on one side and that unit of that file on the other; and
    whatever unit the spike-train handler's match map records for a file
    is among the listed keys. *)
Theorem focus_unit_listing_matches (file : store_file)
    (pair_results : list (string * string * list mutual_match)) :
  map fst (get_focus_units_handler file pair_results) = load_focus_units file /\
  Forall (fun entry =>
            NoDup (map match_key (snd entry)) /\
            (forall f v,
                In (f, v) (map match_key (snd entry)) <->
                exists fname_x fname_y matches mt,
                  In (fname_x, fname_y, matches) pair_results /\ In mt matches /\
                  links (focus_of (fst entry)) fname_x fname_y mt f v) /\
            (forall f v,
                build_mutual_matches_map (focus_of (fst entry)) pair_results !! f = Some v ->
                In (f, v) (map match_key (snd entry))))
         (get_focus_units_handler file pair_results).
Proof.
  unfold get_focus_units_handler. split.
  - rewrite map_map. simpl. apply map_id.
  - apply Forall_forall. intros entry Hin. apply list_elem_of_In, in_map_iff in Hin.
    destruct Hin as (unit & <- & _). simpl.
    destruct (unique_matches_from_spec
                (collect_matches (StoredUnit.bin_filename unit) (StoredUnit.unit_id unit)
                                 pair_results) ∅) as (Hnd & _ & Hk).
    assert (Hkeys : forall f v,
               In (f, v) (map match_key
                            (unique_matches_from ∅
                               (collect_matches (StoredUnit.bin_filename unit)
                                                (StoredUnit.unit_id unit) pair_results))) <->
               exists fname_x fname_y matches mt,
                 In (fname_x, fname_y, matches) pair_results /\ In mt matches /\
                 links (focus_of unit) fname_x fname_y mt f v).
    { intros f v. rewrite Hk, in_map_iff. split.
      - intros (_ & r & Hr & Hin). apply collect_matches_In in Hin.
        destruct Hin as (fx & fy & ms & mt & Hp & Hmt & Hl & _).
        unfold match_key in Hr. injection Hr as <- <-.
        exists fx, fy, ms, mt. auto.
      - intros (fx & fy & ms & mt & Hp & Hmt & Hl). split; [apply not_elem_of_empty|].
        exists (MatchRef f v (overall_score mt)). split; [reflexivity|].
        apply collect_matches_In. exists fx, fy, ms, mt. auto. }
    split; [assumption|]. split; [assumption|].
    intros f v Hmap. apply Hkeys.
    unfold build_mutual_matches_map in Hmap.
    destruct (matches_map_fold (focus_of unit) pair_results f ∅) as [H1 _].
    destruct (H1 v Hmap) as [E|?]; [|assumption].
    rewrite lookup_empty in E. discriminate.
Qed.

(** ** The units of a coarse sorting *)

Lemma np_count_eq_list_count (a : list Z) (v : Z) : np_count_eq a v = list_count a v.
Proof.
  unfold np_count_eq, list_count. induction a as [|x a IH]; simpl; [reflexivity|].
  destruct (Z.eqb_spec x v) as [->|Hne]; destruct (Z.eq_dec _ _); simpl; congruence.
Qed.

Lemma tally_sum (x : Z) (t : list (Z * nat)) :
  sum_list (map snd (Np.tally x t)) = S (sum_list (map snd t)).
Proof.
  induction t as [|[y c] t IH]; simpl; [reflexivity|].
  destruct (x <? y); simpl; [reflexivity|].
  destruct (x =? y); simpl; [reflexivity|]. rewrite IH. lia.
Qed.

Lemma unique_table_sum (a : list Z) :
  sum_list (map snd (fold_right Np.tally [] a)) = length a.
Proof.
  induction a as [|x a IH]; simpl; [reflexivity|]. rewrite tally_sum, IH. reflexivity.
Qed.

Lemma unique_table_counts (a : list Z) (v : Z) (c : nat) :
  In (v, c) (fold_right Np.tally [] a) -> c = list_count a v /\ (0 < c)%nat.
Proof.
  intros Hin. destruct (unique_table a) as [Hs Hp]. split.
  - rewrite <- count_in_unique. symmetry. apply count_in_present; assumption.
  - rewrite Forall_forall in Hp. apply (Hp (v, c)), list_elem_of_In. assumption.
Qed.

Lemma np_unique_In (a : list Z) (v : Z) : In v (np_unique a) <-> In v a.
Proof.
  unfold np_unique, Np.unique_counts. simpl. split.
  - intros Hin. apply in_map_iff in Hin. destruct Hin as ([v' c] & <- & Hin). simpl.
    apply unique_table_counts in Hin. destruct Hin as [-> Hpos].
    apply (count_occ_In Z.eq_dec). unfold list_count in Hpos. exact Hpos.
  - intros Hin. apply (count_occ_In Z.eq_dec) in Hin.
    destruct (count_in_found (fold_right Np.tally [] a) v) as [c Hc].
    + rewrite count_in_unique. unfold list_count. exact Hin.
    + apply in_map_iff. exists (v, c). auto.
Qed.

Lemma sort_by_key_sorted {A : Type} (key : A -> Z) (l : list A) :
  StronglySorted Z.lt (map key l) -> sort_by_key key l = l.
Proof.
  unfold sort_by_key. induction l as [|x l IH]; simpl; intros Hs; [reflexivity|].
  apply StronglySorted_inv in Hs. destruct Hs as [Hs Hall].
  rewrite (IH Hs). destruct l as [|y l]; simpl; [reflexivity|].
  inversion Hall as [|? ? Hxy _]; subst.
  destruct (Z.leb_spec (key x) (key y)); [reflexivity|lia].
Qed.

(** X18.  For a readable label array the answer is 200 and lists every
    label that occurs, once, in strictly ascending order, with the number
    of spikes that carry it; no listed unit is empty and the counts add up
    to the number of spikes. *)
Theorem coarse_sorting_units_listed (spike_labels : list Z) (current_hash : option string) :
  exists reply,
    get_coarse_sorting_units_handler (Labels spike_labels) current_hash = Reply 200 reply /\
    spike_labels_hash reply = current_hash /\
    StronglySorted Z.lt (map info_unit_id (units reply)) /\
    (forall v, In v (map info_unit_id (units reply)) <-> In v spike_labels) /\
    Forall (fun u => info_num_spikes u = list_count spike_labels (info_unit_id u) /\
                     (0 < info_num_spikes u)%nat) (units reply) /\
    sum_list (map info_num_spikes (units reply)) = length spike_labels.
Proof.
  eexists. split; [reflexivity|]. simpl.
  set (info := fun unit_id => {| info_unit_id := unit_id;
                                 info_num_spikes := np_count_eq spike_labels unit_id |}).
  assert (Hids : map info_unit_id (map info (np_unique spike_labels)) = np_unique spike_labels).
  { rewrite map_map. simpl. apply map_id. }
  assert (Hsorted : StronglySorted Z.lt (np_unique spike_labels)).
  { unfold np_unique, Np.unique_counts. simpl. apply unique_table. }
  rewrite sort_by_key_sorted by (rewrite Hids; assumption).
  split; [reflexivity|]. rewrite Hids. split; [assumption|].
  split; [apply np_unique_In|]. split.
  - apply Forall_forall. intros u Hu. apply list_elem_of_In, in_map_iff in Hu.
    destruct Hu as (v & <- & Hv). simpl. rewrite np_count_eq_list_count.
    split; [reflexivity|]. apply (proj1 (np_unique_In _ _)) in Hv.
    apply (proj1 (count_occ_In Z.eq_dec _ _)) in Hv. unfold list_count. exact Hv.
  - rewrite map_map. simpl. rewrite <- (unique_table_sum spike_labels).
    unfold np_unique, Np.unique_counts. simpl. rewrite map_map.
    f_equal. apply map_ext_in. intros [v c] Hin. simpl.
    rewrite np_count_eq_list_count.
    apply unique_table_counts in Hin. destruct Hin as [-> _]. reflexivity.
Qed.

(** * The request for a spike train *)

Lemma insert_by_name_perm (f : bin_file) (l : list bin_file) :
  insert_by_name f l ≡ₚ f :: l.
Proof.
  induction l as [|g l IH]; simpl; [reflexivity|].
  destruct (String.leb (name f) (name g)); [reflexivity|].
  rewrite IH. apply Permutation_swap.
Qed.

Lemma sorted_by_name_perm (l : list bin_file) : sorted_by_name l ≡ₚ l.
Proof.
  unfold sorted_by_name. induction l as [|f l IH]; simpl; [reflexivity|].
  rewrite insert_by_name_perm, IH. reflexivity.
Qed.

Lemma insert_by_name_sorted (f : bin_file) (l : list bin_file) :
  StronglySorted String.le (map name l) ->
  StronglySorted String.le (map name (insert_by_name f l)).
Proof.
  induction l as [|g l IH]; simpl; intros Hs; [repeat constructor|].
  apply StronglySorted_inv in Hs. destruct Hs as [Hs Hall].
  destruct (String.leb (name f) (name g)) eqn:E; simpl.
  - assert (Hfg : String.le (name f) (name g)).
    { unfold String.le. rewrite E. exact I. }
    constructor; [constructor; assumption|].
    constructor; [assumption|].
    eapply Forall_impl; [eassumption|]. intros x Hx. simpl in Hx.
    etransitivity; eassumption.
  - assert (Hgf : String.le (name g) (name f)).
    { destruct (total String.le (name f) (name g)) as [H|H]; [|assumption].
      unfold String.le in H. rewrite E in H. destruct H. }
    constructor; [auto|].
    apply Forall_forall. intros x Hx.
    assert (Hx' : x ∈ map name (f :: l)).
    { rewrite <- (insert_by_name_perm f l). assumption. }
    simpl in Hx'. apply list_elem_of_In in Hx'. destruct Hx' as [<-|Hx']; [assumption|].
    rewrite Forall_forall in Hall. apply Hall, list_elem_of_In. assumption.
Qed.

Lemma sorted_by_name_sorted (l : list bin_file) :
  StronglySorted String.le (map name (sorted_by_name l)).
Proof.
  unfold sorted_by_name. induction l as [|f l IH]; simpl; [constructor|].
  apply insert_by_name_sorted. assumption.
Qed.

Lemma sublist_sorted {A : Type} (R : A -> A -> Prop) (l1 l2 : list A) :
  l1 `sublist_of` l2 -> StronglySorted R l2 -> StronglySorted R l1.
Proof.
  induction 1 as [|x l1 l2 Hsub IH|x l1 l2 Hsub IH]; intros Hs.
  - constructor.
  - apply StronglySorted_inv in Hs. destruct Hs as [Hs Hall].
    constructor; [auto|]. rewrite Forall_forall in Hall |- *.
    intros y Hy. apply Hall. eapply elem_of_sublist; eassumption.
  - apply StronglySorted_inv in Hs. tauto.
Qed.

Lemma filter_names_sublist (p : bin_file -> bool) (l : list bin_file) :
  map name (List.filter p l) `sublist_of` map name l.
Proof.
  induction l as [|f l IH]; simpl; [constructor|].
  destruct (p f); simpl; [apply sublist_skip | apply sublist_cons]; assumption.
Qed.

Lemma filter_perm {A : Type} (p : A -> bool) (l l' : list A) :
  l ≡ₚ l' -> List.filter p l ≡ₚ List.filter p l'.
Proof.
  induction 1 as [|x l l' _ IH|x y l|l l' l'' _ IH1 _ IH2]; simpl.
  - reflexivity.
  - destruct (p x); [constructor|]; assumption.
  - destruct (p x), (p y); try reflexivity. apply Permutation_swap.
  - etransitivity; eassumption.
Qed.

Lemma segment_names focus m n_channels sampling_frequency files r :
  assemble_spike_train focus m n_channels sampling_frequency files = Ok r ->
  map bin_filename (segments r) = map name (List.filter raw_exists files).
Proof.
  intros H. apply assemble_walk in H. destruct H as [Hw _].
  apply walk_Forall2 in Hw. induction Hw as [|f s fs ss (d & _ & Hemit) _ IH]; simpl.
  - reflexivity.
  - apply emits_fields in Hemit. destruct Hemit as (-> & _). rewrite IH. reflexivity.
Qed.

Lemma spike_train_request_Reply file focus_unit_id config raw_dir pair_results train :
  spike_train_request file focus_unit_id config raw_dir pair_results = Ok (Reply 200 train) ->
  exists focus_unit cfg listing,
    find_focus_unit (load_focus_units file) focus_unit_id = Some focus_unit /\
    config = Some cfg /\ raw_dir = Some listing /\
    assemble_spike_train (focus_of focus_unit)
      (build_mutual_matches_map (focus_of focus_unit) pair_results)
      (default 512 (cfg_n_channels cfg)) (default 20000 (cfg_sampling_frequency cfg))
      (bin_files_of listing) = Ok train.
Proof.
  unfold spike_train_request, get_spike_train_for_focus_unit_handler.
  destruct (find_focus_unit _ _) as [focus_unit|]; [|discriminate].
  destruct config as [cfg|]; [|discriminate].
  destruct raw_dir as [listing|]; [|discriminate].
  intros H. inv_bind H. injection H as <-.
  exists focus_unit, cfg, listing. auto.
Qed.

(** X19.  The timeline of a request follows the sorted file names: the
    segments are in ascending order of their file names, whatever order the
    directory listing had, and there is exactly one segment for every
    existing entry of [raw/] whose name ends in [.bin] and none for any
    other entry. *)
Theorem request_timeline_follows_sorted_names file focus_unit_id config listing
    pair_results train :
  spike_train_request file focus_unit_id config (Some listing) pair_results
  = Ok (Reply 200 train) ->
  StronglySorted String.le (map bin_filename (segments train)) /\
  map bin_filename (segments train)
  ≡ₚ map name (List.filter (fun f => endswith ".bin" (name f) && raw_exists f) listing) /\
  Forall (fun s => endswith ".bin" (bin_filename s) = true) (segments train).
Proof.
  intros H. apply spike_train_request_Reply in H.
  destruct H as (focus_unit & cfg & listing0 & _ & _ & [= <-] & H).
  apply segment_names in H. unfold bin_files_of in H.
  set (bins := List.filter (fun f => endswith ".bin" (name f)) listing) in *.
  rewrite H.
  assert (Hperm : List.filter raw_exists (sorted_by_name bins)
                  ≡ₚ List.filter (fun f => endswith ".bin" (name f) && raw_exists f) listing).
  { rewrite (filter_perm raw_exists _ _ (sorted_by_name_perm bins)).
    unfold bins. clear. induction listing as [|f l IH]; simpl; [reflexivity|].
    destruct (endswith ".bin" (name f)); simpl; [|assumption].
    destruct (raw_exists f); [constructor|]; assumption. }
  split; [|split].
  - eapply sublist_sorted; [apply filter_names_sublist|apply sorted_by_name_sorted].
  - apply Permutation_map. assumption.
  - apply Forall_forall. intros s Hs.
    assert (Hn : In (bin_filename s)
                    (map name (List.filter raw_exists (sorted_by_name bins)))).
    { rewrite <- H. apply in_map. apply list_elem_of_In. assumption. }
    apply in_map_iff in Hn. destruct Hn as (f & <- & Hf).
    apply filter_In in Hf. destruct Hf as [Hf _].
    apply (Permutation_in _ (sorted_by_name_perm bins)) in Hf.
    unfold bins in Hf. apply filter_In in Hf. tauto.
Qed.

Lemma request_timeline_follows_sorted_names_witness :
  StronglySorted String.le (map bin_filename (segments Session.train)) /\
  map bin_filename (segments Session.train)
  ≡ₚ map name (List.filter (fun f => endswith ".bin" (name f) && raw_exists f)
                           RawDir.listing) /\
  Forall (fun s => endswith ".bin" (bin_filename s) = true) (segments Session.train).
Proof.
  apply (request_timeline_follows_sorted_names Shelf.file "F001" (Some RawDir.config)
           RawDir.listing Session.pair_results Session.train).
  vm_compute. reflexivity.
Defined.

Lemma same_names_same_list {A B : Type} (f : A -> B) (l1 l2 : list A) :
  NoDup (map f l1) -> l1 ≡ₚ l2 -> map f l1 = map f l2 -> l1 = l2.
Proof.
  revert l2. induction l1 as [|a l1 IH]; intros [|b l2] Hnd Hp Hmap; simpl in *;
    try discriminate; [reflexivity|].
  injection Hmap as Hab Hmap. apply NoDup_cons in Hnd. destruct Hnd as [Hna Hnd].
  assert (a = b) as ->.
  { assert (Hin : In a (b :: l2)).
    { eapply Permutation_in; [eassumption|left; reflexivity]. }
    destruct Hin as [E|Hin]; [congruence|].
    exfalso. apply Hna. rewrite Hmap. apply list_elem_of_In, in_map. assumption. }
  f_equal. apply IH; [assumption| |assumption].
  eapply Permutation_cons_inv. eassumption.
Qed.

Lemma sorted_by_name_perm_eq (l l' : list bin_file) :
  l ≡ₚ l' -> NoDup (map name l) -> sorted_by_name l = sorted_by_name l'.
Proof.
  intros Hp Hnd.
  assert (Hpp : sorted_by_name l ≡ₚ sorted_by_name l').
  { rewrite !sorted_by_name_perm. assumption. }
  apply (same_names_same_list name).
  - rewrite (Permutation_map name (sorted_by_name_perm l)). assumption.
  - assumption.
  - apply (StronglySorted_unique String.le).
    + apply sorted_by_name_sorted.
    + apply sorted_by_name_sorted.
    + apply Permutation_map. assumption.
Qed.

(** X20.  The answer to a request does not depend on the order in which
    the directory listing gives the (distinctly named) raw files. *)
Theorem request_ignores_listing_order file focus_unit_id config listing listing'
    pair_results :
  listing ≡ₚ listing' -> NoDup (map name listing) ->
  spike_train_request file focus_unit_id config (Some listing) pair_results
  = spike_train_request file focus_unit_id config (Some listing') pair_results.
Proof.
  intros Hp Hnd. unfold spike_train_request.
  destruct (find_focus_unit _ _) as [focus_unit|]; [|reflexivity].
  destruct config as [cfg|]; [|reflexivity].
  unfold bin_files_of.
  rewrite (sorted_by_name_perm_eq
             (List.filter (fun f => endswith ".bin" (name f)) listing)
             (List.filter (fun f => endswith ".bin" (name f)) listing')).
  - reflexivity.
  - apply filter_perm. assumption.
  - eapply sublist_NoDup; [eassumption|apply filter_names_sublist].
Qed.

Lemma request_ignores_listing_order_witness :
  spike_train_request Shelf.file "F001" (Some RawDir.config) (Some RawDir.listing)
    Session.pair_results
  = spike_train_request Shelf.file "F001" (Some RawDir.config) (Some RawDir.listing')
      Session.pair_results.
Proof.
  apply (request_ignores_listing_order Shelf.file "F001" (Some RawDir.config)
           RawDir.listing RawDir.listing' Session.pair_results).
  - unfold RawDir.listing, RawDir.listing'.
    apply (Permutation_cons_app [_; _; _; _] []).
    apply (Permutation_cons_app [_; _] [_]).
    apply (Permutation_cons_app [_] [_]).
    apply (Permutation_cons_app [_] []).
    reflexivity.
  - apply (bool_decide_unpack _). vm_compute. exact I.
Defined.

(** ** How the handlers compose *)

Lemma request_depends_on_focus file file' focus_unit_id config raw_dir pair_results :
  focus_of <$> find_focus_unit (load_focus_units file') focus_unit_id
  = focus_of <$> find_focus_unit (load_focus_units file) focus_unit_id ->
  spike_train_request file' focus_unit_id config raw_dir pair_results
  = spike_train_request file focus_unit_id config raw_dir pair_results.
Proof.
  unfold spike_train_request.
  destruct (find_focus_unit (load_focus_units file') focus_unit_id) as [u'|];
    destruct (find_focus_unit (load_focus_units file) focus_unit_id) as [u|];
    cbv [fmap option_fmap option_map]; intros E; try discriminate E; [|reflexivity].
  assert (E' : focus_of u' = focus_of u) by congruence.
  rewrite E'. reflexivity.
Qed.

Lemma set_notes_keeps_focus (focus_units : list StoredUnit.t)
    (focus_unit_id notes wanted : string) :
  focus_of <$> find_focus_unit (fst (set_notes focus_units focus_unit_id notes)) wanted
  = focus_of <$> find_focus_unit focus_units wanted.
Proof.
  induction focus_units as [|u l IH]; simpl; [reflexivity|].
  destruct (String.eqb (StoredUnit.focus_unit_id u) focus_unit_id) eqn:E; simpl.
  - destruct (String.eqb (StoredUnit.focus_unit_id u) wanted); reflexivity.
  - destruct (set_notes l focus_unit_id notes) as [l' found]. simpl in *.
    destruct (String.eqb (StoredUnit.focus_unit_id u) wanted); [reflexivity|assumption].
Qed.

(** X21.  Notes do not influence a timeline: after any call of the update
    handler, every request for a spike train is answered as before. *)
Theorem notes_do_not_change_the_timeline file focus_unit_id request_notes
    wanted config raw_dir pair_results :
  spike_train_request (fst (update_focus_unit_handler file focus_unit_id request_notes))
                      wanted config raw_dir pair_results
  = spike_train_request file wanted config raw_dir pair_results.
Proof.
  apply request_depends_on_focus. unfold update_focus_unit_handler.
  destruct request_notes as [notes|]; [|reflexivity].
  pose proof (set_notes_keeps_focus (load_focus_units file) focus_unit_id notes wanted) as H.
  destruct (set_notes (load_focus_units file) focus_unit_id notes) as [data' found].
  destruct found; simpl; [exact H|reflexivity].
Qed.

Lemma find_after_filter (focus_units : list StoredUnit.t) (deleted wanted : string) :
  find_focus_unit
    (List.filter (fun unit => negb (String.eqb (StoredUnit.focus_unit_id unit) deleted))
                 focus_units) wanted
  = if String.eqb wanted deleted then None else find_focus_unit focus_units wanted.
Proof.
  induction focus_units as [|u l IH]; simpl; [destruct (String.eqb _ _); reflexivity|].
  destruct (String.eqb_spec (StoredUnit.focus_unit_id u) deleted) as [Ed|Ed]; simpl.
  - rewrite IH. destruct (String.eqb_spec wanted deleted) as [Ew|Ew]; [reflexivity|].
    destruct (String.eqb_spec (StoredUnit.focus_unit_id u) wanted); [congruence|reflexivity].
  - destruct (String.eqb_spec (StoredUnit.focus_unit_id u) wanted) as [Ew|Ew].
    + destruct (String.eqb_spec wanted deleted); [congruence|reflexivity].
    + assumption.
Qed.

Lemma find_absent (focus_units : list StoredUnit.t) (wanted : string) :
  Forall (fun unit => ~ has_id wanted unit) focus_units ->
  find_focus_unit focus_units wanted = None.
Proof.
  induction 1 as [|u l Hu _ IH]; simpl; [reflexivity|].
  destruct (String.eqb_spec (StoredUnit.focus_unit_id u) wanted); [contradiction|assumption].
Qed.

(** X22.  After the delete handler has run for an id, with whatever
    outcome, a request for the spike train of that id is answered 404, and
    requests for any other id are answered as before. *)
Theorem deleted_unit_is_unknown file focus_unit_id config raw_dir pair_results :
  let file' := fst (delete_focus_unit_handler file focus_unit_id) in
  spike_train_request file' focus_unit_id config raw_dir pair_results
  = Ok (ErrorReply 404 (not_found_message focus_unit_id)) /\
  forall wanted, wanted <> focus_unit_id ->
    spike_train_request file' wanted config raw_dir pair_results
    = spike_train_request file wanted config raw_dir pair_results.
Proof.
  unfold delete_focus_unit_handler.
  set (keep := fun unit => negb (String.eqb (StoredUnit.focus_unit_id unit) focus_unit_id)).
  destruct (Nat.eqb_spec (length (List.filter keep (load_focus_units file)))
                         (length (load_focus_units file))) as [E|E]; simpl.
  - split; [|reflexivity]. unfold spike_train_request. rewrite find_absent; [reflexivity|].
    apply filter_length_eq in E. rewrite forallb_forall in E.
    apply Forall_forall. intros u Hu. apply list_elem_of_In, E in Hu.
    unfold keep, has_id in *. apply negb_true_iff in Hu.
    destruct (String.eqb_spec (StoredUnit.focus_unit_id u) focus_unit_id); congruence.
  - split.
    + unfold spike_train_request. simpl. unfold keep. rewrite find_after_filter.
      rewrite String.eqb_refl. reflexivity.
    + intros wanted Hw. apply request_depends_on_focus. simpl. unfold keep.
      rewrite find_after_filter.
      destruct (String.eqb_spec wanted focus_unit_id); [contradiction|reflexivity].
Qed.

Lemma deleted_unit_is_unknown_witness :
  let file' := fst (delete_focus_unit_handler Shelf.file "F001") in
  spike_train_request file' "F001" (Some RawDir.config) (Some RawDir.listing)
    Session.pair_results
  = Ok (ErrorReply 404 (not_found_message "F001")) /\
  forall wanted, wanted <> "F001"%string ->
    spike_train_request file' wanted (Some RawDir.config) (Some RawDir.listing)
      Session.pair_results
    = spike_train_request Shelf.file wanted (Some RawDir.config) (Some RawDir.listing)
        Session.pair_results.
Proof.
  apply (deleted_unit_is_unknown Shelf.file "F001" (Some RawDir.config)
           (Some RawDir.listing) Session.pair_results).
Defined.


Lemma find_app (l1 l2 : list StoredUnit.t) (wanted : string) :
  find_focus_unit (l1 ++ l2) wanted
  = match find_focus_unit l1 wanted with
    | Some unit => Some unit
    | None => find_focus_unit l2 wanted
    end.
Proof.
  induction l1 as [|u l1 IH]; simpl; [reflexivity|].
  destruct (String.eqb (StoredUnit.focus_unit_id u) wanted); [reflexivity|assumption].
Qed.

Lemma find_unique (l : list StoredUnit.t) (unit : StoredUnit.t) :
  NoDup (map StoredUnit.focus_unit_id l) -> In unit l ->
  find_focus_unit l (StoredUnit.focus_unit_id unit) = Some unit.
Proof.
  induction l as [|u l IH]; simpl; intros Hnd Hin; [contradiction|].
  apply NoDup_cons in Hnd. destruct Hnd as [Hnew Hnd].
  destruct (String.eqb_spec (StoredUnit.focus_unit_id u) (StoredUnit.focus_unit_id unit))
    as [E|E].
  - destruct Hin as [->|Hin]; [reflexivity|].
    exfalso. apply Hnew. rewrite E. apply list_elem_of_In, in_map. assumption.
  - destruct Hin as [->|Hin]; [contradiction|]. apply IH; assumption.
Qed.

Section AddedUnitsFacts.

Variable py_int : string -> option Z.
Variable has_spike_labels : string -> bool.
Variable spike_labels_sha1 : string -> option string.

Hypothesis py_int_format : forall n, 0 < n -> py_int (format_03d n) = Some n.

(** X23.  After a 201 from the add handler, the lookup of a spike-train
    request finds each added unit under the id the reply gave it, and every
    id that resolved before still resolves to the same stored unit. *)
Theorem added_units_resolve (file file' : store_file)
    (request_units : option (list unit_request)) (added : list StoredUnit.t) :
  add_focus_units_handler py_int has_spike_labels spike_labels_sha1 file request_units
  = (file', Reply 201 added) ->
  (forall unit, In unit added ->
     find_focus_unit (load_focus_units file') (StoredUnit.focus_unit_id unit) = Some unit) /\
  (forall wanted old,
     find_focus_unit (load_focus_units file) wanted = Some old ->
     find_focus_unit (load_focus_units file') wanted = Some old).
Proof.
  unfold add_focus_units_handler.
  destruct request_units as [[|request rest]|]; [discriminate| |discriminate].
  destruct (add_units py_int has_spike_labels spike_labels_sha1 (request :: rest)
                      (load_focus_units file) []) as [[existing' added']|[status error]] eqn:E;
    [|discriminate].
  intros [= <- <-].
  destruct (add_units_spec py_int has_spike_labels spike_labels_sha1 py_int_format
              _ _ _ _ _ E) as (new & -> & -> & _ & Hnd & Hfresh).
  unfold save_focus_units. simpl. split.
  - intros unit Hin. rewrite find_app, find_absent.
    + apply find_unique; assumption.
    + apply Forall_forall. intros old Hold E'. apply list_elem_of_In in Hold.
      apply (Hfresh unit old Hin Hold). symmetry. exact E'.
  - intros wanted old Hold. rewrite find_app, Hold. reflexivity.
Qed.

End AddedUnitsFacts.

Lemma added_units_resolve_witness :
  let new_unit := StoredUnit.Make "F008" "B.bin" 3 "" "h-B.bin" in
  let file' := Store (load_focus_units Shelf.file ++ [new_unit]) in
  (forall unit, In unit [new_unit] ->
     find_focus_unit (load_focus_units file') (StoredUnit.focus_unit_id unit) = Some unit) /\
  (forall wanted old,
     find_focus_unit (load_focus_units Shelf.file) wanted = Some old ->
     find_focus_unit (load_focus_units file') wanted = Some old).
Proof.
  apply (added_units_resolve ascii_int (fun _ => true) (fun s => Some ("h-" ++ s)%string)
           ascii_int_format Shelf.file
           (Store (load_focus_units Shelf.file
                   ++ [StoredUnit.Make "F008" "B.bin" 3 "" "h-B.bin"]))
           (Some [UnitRequest (Some "B.bin"%string) (Some 3)])
           [StoredUnit.Make "F008" "B.bin" 3 "" "h-B.bin"]).
  vm_compute. reflexivity.
Defined.
